(** * txtcomp: the assessment orchestrator, the question engine and the
      LLM gateway

    A shallow embedding of [src/services/geminiService.ts],
    [src/components/QuestionEngine.tsx] and [src/App.tsx], and the
    properties of the reading-comprehension session that hold on it.

    JavaScript strings are represented by [string] holding their UTF-8
    bytes; numbers that the code only counts with are in [Z], numbers that
    come out of [JSON.parse] are in [Q].  A promise is represented by its
    settled [outcome]; the LLM client is an oracle indexed by the number of
    requests issued before, so that two identical requests may be answered
    differently. *)

From Stdlib Require Import ZArith QArith Ascii String.
From Stdlib Require DecimalString DecimalZ DecimalPos.
From stdpp Require Import base option list gmap strings.

Local Open Scope Z_scope.
Local Set Warnings "-register-all,-clear-no-such-hyp".

(* ===================================================================== *)
(** ** The JavaScript runtime the sources rely on *)
(* ===================================================================== *)

Module JS.

(** A settled promise (or the result of a call that may throw). *)
Inductive outcome (A : Type) : Type :=
| Resolved (a : A)
| Rejected.
Global Arguments Resolved {A} a.
Global Arguments Rejected {A}.

Definition code (a : ascii) : N := N_of_ascii a.

(** [WhiteSpace] and [LineTerminator] code points of ECMAScript, by the
    length of their UTF-8 encoding: U+0009..U+000D and U+0020; U+00A0;
    U+1680, U+2000..U+200A, U+2028, U+2029, U+202F, U+205F, U+3000 and
    U+FEFF. *)
Definition ws1 (a : ascii) : bool :=
  ((9 <=? code a) && (code a <=? 13) || (code a =? 32))%N.

Definition ws2 (a b : ascii) : bool :=
  ((code a =? 194) && (code b =? 160))%N.

Definition ws3 (a b c : ascii) : bool :=
  ((code a =? 225) && (code b =? 154) && (code c =? 128)
   || (code a =? 226) && (code b =? 128)
      && ((128 <=? code c) && (code c <=? 138)
          || (code c =? 168) || (code c =? 169) || (code c =? 175))
   || (code a =? 226) && (code b =? 129) && (code c =? 159)
   || (code a =? 227) && (code b =? 128) && (code c =? 128)
   || (code a =? 239) && (code b =? 187) && (code c =? 191))%N.

(** [String.prototype.trimStart]; with [backwards] the string is read from
    its end, and the bytes of an encoded code point come in reverse. *)
Fixpoint strip (backwards : bool) (s : string) : string :=
  match s with
  | EmptyString => EmptyString
  | String a r =>
      if ws1 a then strip backwards r else
      match r with
      | EmptyString => s
      | String b r2 =>
          if (if backwards then ws2 b a else ws2 a b)
          then strip backwards r2 else
          match r2 with
          | EmptyString => s
          | String c r3 =>
              if (if backwards then ws3 c b a else ws3 a b c)
              then strip backwards r3 else s
          end
      end
  end.

Definition trimStart (s : string) : string := strip false s.
Definition trimEnd (s : string) : string :=
  String.rev (strip true (String.rev s)).

(** [String.prototype.trim]. *)
Definition trim (s : string) : string := trimEnd (trimStart s).

(** [String.prototype.includes]. *)
Fixpoint includes (s p : string) : bool :=
  String.prefix p s ||
  match s with
  | EmptyString => false
  | String _ r => includes r p
  end.

Definition lower_ascii (a : ascii) : ascii :=
  if ((65 <=? code a) && (code a <=? 90))%N
  then ascii_of_N (code a + 32) else a.

(** Second byte of a code point U+00C0..U+00FF (first byte 195): the
    capital letters U+00C0..U+00DE, the multiplication sign U+00D7
    excepted, are 32 below their small letters. *)
Definition lower_latin1 (b : ascii) : ascii :=
  if ((128 <=? code b) && (code b <=? 158) && negb (code b =? 151))%N
  then ascii_of_N (code b + 32) else b.

(** [String.prototype.toLowerCase] on Basic Latin and Latin-1 letters;
    other code points are left as they are. *)
Fixpoint toLowerCase (s : string) : string :=
  match s with
  | EmptyString => EmptyString
  | String a r =>
      if (code a =? 195)%N then
        match r with
        | EmptyString => String a EmptyString
        | String b r2 => String a (String (lower_latin1 b) (toLowerCase r2))
        end
      else String (lower_ascii a) (toLowerCase r)
  end.

(** Truthiness of a string and of an optional (possibly [undefined])
    string. *)
Definition truthy_string (s : string) : bool :=
  if decide (s = "") then false else true.

Definition truthy_opt_string (o : option string) : bool :=
  match o with
  | Some s => truthy_string s
  | None => false
  end.

(** The values [JSON.parse] produces, and what they become when the code
    writes to them.  The fields of an object are kept in insertion order,
    one entry per key.  An array is an object too: [props] holds the named
    properties set on it, none when it comes out of [JSON.parse]. *)
Inductive json : Type :=
| JNull
| JBool (b : bool)
| JNum (q : Q)
| JStr (s : string)
| JArr (items : list json) (props : list (string * json))
| JObj (fields : list (string * json)).

Fixpoint assoc (k : string) (fields : list (string * json)) : option json :=
  match fields with
  | [] => None
  | (k', v) :: rest => if decide (k' = k) then Some v else assoc k rest
  end.

(** Property read [v.k] for the named properties the sources read; [None]
    stands for [undefined].  Reading a property of [null] throws: the
    callers below deal with [null] before they read. *)
Definition get (k : string) (v : json) : option json :=
  match v with
  | JObj fields => assoc k fields
  | JArr _ props => assoc k props
  | _ => None
  end.

Fixpoint assoc_set (k : string) (v : json) (fields : list (string * json))
  : list (string * json) :=
  match fields with
  | [] => [(k, v)]
  | (k', v') :: rest =>
      if decide (k' = k) then (k, v) :: rest
      else (k', v') :: assoc_set k v rest
  end.

(** Property write [o.k = v] in strict mode: on an object or an array the
    value of an existing key is replaced in place and a new key is added at
    the end; on [null] and on a primitive the write throws a TypeError. *)
Definition set (k : string) (v : json) (o : json) : outcome json :=
  match o with
  | JObj fields => Resolved (JObj (assoc_set k v fields))
  | JArr items props => Resolved (JArr items (assoc_set k v props))
  | _ => Rejected
  end.

(** Truthiness of a possibly [undefined] value ([!!x]). *)
Definition truthy (o : option json) : bool :=
  match o with
  | None | Some JNull => false
  | Some (JBool b) => b
  | Some (JNum q) => negb (Qeq_bool q 0)
  | Some (JStr s) => truthy_string s
  | Some (JArr _ _) | Some (JObj _) => true
  end.

End JS.

(* ===================================================================== *)
(** ** JSON.parse *)
(* ===================================================================== *)

(** A parser for JSON texts, to run the gateway on concrete model outputs.
    Numbers are read exactly (no rounding to a double), and an escaped lone
    surrogate, which has no UTF-8 encoding, is refused. *)
Module JSON.
Import JS.

Definition is_digit (a : ascii) : bool := ((48 <=? code a) && (code a <=? 57))%N.

Definition hex_digit (a : ascii) : option N :=
  let c := code a in
  if ((48 <=? c) && (c <=? 57))%N then Some (c - 48)%N
  else if ((65 <=? c) && (c <=? 70))%N then Some (c - 55)%N
  else if ((97 <=? c) && (c <=? 102))%N then Some (c - 87)%N
  else None.

Definition hex4 (a b c d : ascii) : option N :=
  match hex_digit a, hex_digit b, hex_digit c, hex_digit d with
  | Some x, Some y, Some z, Some w => Some (((x * 16 + y) * 16 + z) * 16 + w)%N
  | _, _, _, _ => None
  end.

Definition byte (n : N) : ascii := ascii_of_N n.

(** UTF-8 encoding of a code point, in front of [rest]. *)
Definition utf8 (cp : N) (rest : string) : string :=
  if (cp <? 128)%N then String (byte cp) rest
  else if (cp <? 2048)%N then
    String (byte (192 + cp / 64)) (String (byte (128 + cp mod 64)) rest)
  else if (cp <? 65536)%N then
    String (byte (224 + cp / 4096))
      (String (byte (128 + (cp / 64) mod 64))
         (String (byte (128 + cp mod 64)) rest))
  else
    String (byte (240 + cp / 262144))
      (String (byte (128 + (cp / 4096) mod 64))
         (String (byte (128 + (cp / 64) mod 64))
            (String (byte (128 + cp mod 64)) rest))).

Fixpoint skip_ws (s : string) : string :=
  match s with
  | String a r =>
      if ((code a =? 32) || (code a =? 9) || (code a =? 10) || (code a =? 13))%N
      then skip_ws r else s
  | EmptyString => EmptyString
  end.

(** The characters of a string literal after its opening quote: the
    decoded string and what follows the closing quote. *)
Fixpoint string_body (s : string) : option (string * string) :=
  match s with
  | EmptyString => None
  | String a r =>
      if (code a =? 34)%N then Some (EmptyString, r)
      else if (code a <? 32)%N then None
      else if (code a =? 92)%N then
        match r with
        | EmptyString => None
        | String e r1 =>
            let simple (n : N) :=
              match string_body r1 with
              | Some (t, rest) => Some (String (byte n) t, rest)
              | None => None
              end in
            if (code e =? 34)%N then simple 34%N
            else if (code e =? 92)%N then simple 92%N
            else if (code e =? 47)%N then simple 47%N
            else if (code e =? 98)%N then simple 8%N
            else if (code e =? 102)%N then simple 12%N
            else if (code e =? 110)%N then simple 10%N
            else if (code e =? 114)%N then simple 13%N
            else if (code e =? 116)%N then simple 9%N
            else if (code e =? 117)%N then
              match r1 with
              | String h1 (String h2 (String h3 (String h4 r5))) =>
                  match hex4 h1 h2 h3 h4 with
                  | None => None
                  | Some hi =>
                      if ((55296 <=? hi) && (hi <=? 56319))%N then
                        match r5 with
                        | String b (String u
                            (String l1 (String l2 (String l3 (String l4 r11))))) =>
                            match hex4 l1 l2 l3 l4 with
                            | Some lo =>
                                if ((code b =? 92) && (code u =? 117)
                                    && (56320 <=? lo) && (lo <=? 57343))%N
                                then
                                  match string_body r11 with
                                  | Some (t, rest) =>
                                      Some (utf8 (65536 + (hi - 55296) * 1024
                                                  + (lo - 56320))%N t, rest)
                                  | None => None
                                  end
                                else None
                            | None => None
                            end
                        | _ => None
                        end
                      else if ((56320 <=? hi) && (hi <=? 57343))%N then None
                      else
                        match string_body r5 with
                        | Some (t, rest) => Some (utf8 hi t, rest)
                        | None => None
                        end
                  end
              | _ => None
              end
            else None
        end
      else
        match string_body r with
        | Some (t, rest) => Some (String a t, rest)
        | None => None
        end
  end.

(** A run of digits: their value, how many there are, and the rest. *)
Fixpoint digits (acc : N) (count : nat) (s : string) : N * nat * string :=
  match s with
  | String a r =>
      if is_digit a then digits (acc * 10 + (code a - 48))%N (S count) r
      else (acc, count, s)
  | EmptyString => (acc, count, EmptyString)
  end.

Definition scale (m : Z) (e : Z) : Q :=
  if (0 <=? e)%Z then Qmake (m * 10 ^ e) 1
  else Qred (Qmake m (Z.to_pos (10 ^ (- e)))).

(** A number literal: [-? int frac? exp?]. *)
Definition number (s : string) : option (Q * string) :=
  let '(negative, s0) :=
    match s with
    | String a r => if (code a =? 45)%N then (true, r) else (false, s)
    | EmptyString => (false, s)
    end in
  let int_part :=
    match s0 with
    | String a r =>
        if (code a =? 48)%N then Some (0%N, r)
        else if is_digit a then
          let '(n, _, rest) := digits 0 0 s0 in Some (n, rest)
        else None
    | EmptyString => None
    end in
  match int_part with
  | None => None
  | Some (n, s1) =>
      let frac :=
        match s1 with
        | String a r =>
            if (code a =? 46)%N then
              match digits n 0 r with
              | (_, O, _) => None
              | (m, k, rest) => Some (m, k, rest)
              end
            else Some (n, O, s1)
        | EmptyString => Some (n, O, s1)
        end in
      match frac with
      | None => None
      | Some (m, k, s2) =>
          let expo :=
            match s2 with
            | String a r =>
                if ((code a =? 101) || (code a =? 69))%N then
                  let '(minus, r1) :=
                    match r with
                    | String b r' =>
                        if (code b =? 45)%N then (true, r')
                        else if (code b =? 43)%N then (false, r')
                        else (false, r)
                    | EmptyString => (false, r)
                    end in
                  match digits 0 0 r1 with
                  | (_, O, _) => None
                  | (e, _, rest) =>
                      Some (if minus then (- Z.of_N e)%Z else Z.of_N e, rest)
                  end
                else Some (0%Z, s2)
            | EmptyString => Some (0%Z, s2)
            end in
          match expo with
          | None => None
          | Some (e, s3) =>
              let mant := if negative then (- Z.of_N m)%Z else Z.of_N m in
              Some (scale mant (e - Z.of_nat k), s3)
          end
      end
  end.

Definition keyword (k : string) (v : json) (s : string)
  : option (json * string) :=
  if String.prefix k s
  then Some (v, String.substring (String.length k)
                  (String.length s - String.length k) s)
  else None.

Fixpoint value (fuel : nat) (s : string) : option (json * string) :=
  match fuel with
  | O => None
  | S fuel =>
      match skip_ws s with
      | EmptyString => None
      | String a r as s' =>
          if (code a =? 123)%N then
            match skip_ws r with
            | String c r' =>
                if (code c =? 125)%N then Some (JObj [], r')
                else
                  match members fuel [] r with
                  | Some (fs, rest) => Some (JObj fs, rest)
                  | None => None
                  end
            | EmptyString => None
            end
          else if (code a =? 91)%N then
            match skip_ws r with
            | String c r' =>
                if (code c =? 93)%N then Some (JArr [] [], r')
                else
                  match elements fuel r with
                  | Some (vs, rest) => Some (JArr vs [], rest)
                  | None => None
                  end
            | EmptyString => None
            end
          else if (code a =? 34)%N then
            match string_body r with
            | Some (t, rest) => Some (JStr t, rest)
            | None => None
            end
          else if (code a =? 116)%N then keyword "true" (JBool true) s'
          else if (code a =? 102)%N then keyword "false" (JBool false) s'
          else if (code a =? 110)%N then keyword "null" JNull s'
          else
            match number s' with
            | Some (q, rest) => Some (JNum q, rest)
            | None => None
            end
      end
  end
with elements (fuel : nat) (s : string) : option (list json * string) :=
  match fuel with
  | O => None
  | S fuel =>
      match value fuel s with
      | None => None
      | Some (v, rest) =>
          match skip_ws rest with
          | String c r =>
              if (code c =? 93)%N then Some ([v], r)
              else if (code c =? 44)%N then
                match elements fuel r with
                | Some (vs, rest') => Some (v :: vs, rest')
                | None => None
                end
              else None
          | EmptyString => None
          end
      end
  end
with members (fuel : nat) (acc : list (string * json)) (s : string)
  : option (list (string * json) * string) :=
  match fuel with
  | O => None
  | S fuel =>
      match skip_ws s with
      | String q r =>
          if (code q =? 34)%N then
            match string_body r with
            | None => None
            | Some (k, rest) =>
                match skip_ws rest with
                | String c r1 =>
                    if (code c =? 58)%N then
                      match value fuel r1 with
                      | None => None
                      | Some (v, rest1) =>
                          let acc := assoc_set k v acc in
                          match skip_ws rest1 with
                          | String d r2 =>
                              if (code d =? 125)%N then Some (acc, r2)
                              else if (code d =? 44)%N then members fuel acc r2
                              else None
                          | EmptyString => None
                          end
                      end
                    else None
                | EmptyString => None
                end
            end
          else None
      | EmptyString => None
      end
  end.

(** [JSON.parse(text)]: [None] for a SyntaxError. *)
Definition parse (text : string) : option json :=
  match value (2 * String.length text + 2) text with
  | Some (v, rest) =>
      match skip_ws rest with
      | EmptyString => Some v
      | String _ _ => None
      end
  | None => None
  end.

(** A JSON text written with apostrophes in the place of its double
    quotes. *)
Fixpoint quoted (s : string) : string :=
  match s with
  | EmptyString => EmptyString
  | String a r =>
      String (if (code a =? 39)%N then byte 34 else a) (quoted r)
  end.

End JSON.

(* ===================================================================== *)
(** ** types.ts *)
(* ===================================================================== *)

Module Types.

(** [QuestionType] is the union of these three strings; at run time the
    field holds whatever string the model wrote. *)
Definition LITERAL : string := "LITERAL".
Definition INFERENTIAL : string := "INFERENTIAL".
Definition EVALUATIVE : string := "EVALUATIVE".

Record GlossaryItem : Type := {
  word : string;
  definition : string
}.

Record Question : Type := {
  q_id : Z;
  q_text : string;
  q_type : string
}.

Record StoryData : Type := {
  title : string;
  content : string;
  imageUrl : option string;
  glossary : list GlossaryItem;
  questions : list Question
}.

(** [isIncomplete] and [correctAnswer] may be [undefined]; [score] is the
    extra field the gateway adds to the object. *)
Record EvaluationResult : Type := {
  isCorrect : bool;
  isIncomplete : option bool;
  score : option Q;
  feedback : string;
  correctAnswer : option string
}.

Record UserScore : Type := {
  literal : Z;
  inferential : Z;
  evaluative : Z;
  total : Z
}.

Record UserInfo : Type := {
  firstName : string;
  lastName : string
}.

Inductive AppState : Type :=
| LOGIN | SETUP | LOADING_STORY | READING | QUIZ | RESULTS.

End Types.

(* ===================================================================== *)
(** ** services/geminiService.ts *)
(* ===================================================================== *)

Module GeminiService.
Import JS Types.

(** What [ai.models.generateContent] is asked: the prompts are fixed texts
    around these interpolated parts. *)
Inductive Request : Type :=
| AssessmentRequest (data : string)
| EvaluationRequest (content question studentAnswer : string)
| FeedbackRequest (userScore : UserScore).

(** The shapes of an SDK response that [extractTextFromResponse] looks at:
    [output_text], the result of [response.text()] when [response.response]
    has one, and [candidates[0].content.parts[0].text]. *)
Record Response : Type := {
  output_text : option string;
  response_text : option string;
  candidate_text : option string
}.

Definition extractTextFromResponse (response : option Response) : string :=
  match response with
  | None => "{}"
  | Some r =>
      match output_text r with
      | Some s => s
      | None =>
          match response_text r with
          | Some s => s
          | None =>
              match candidate_text r with
              | Some s => if truthy_string s then s else "{}"
              | None => "{}"
              end
          end
      end
  end.

(** [s.split(sep)] for a separator of one character. *)
Fixpoint split (sep : ascii) (s : string) : list string :=
  match s with
  | EmptyString => [""]
  | String a r =>
      if decide (a = sep) then "" :: split sep r
      else match split sep r with
           | x :: xs => String a x :: xs
           | [] => [String a ""]
           end
  end.

(** [base64Image.includes(",") ? base64Image.split(",")[1] : base64Image];
    the second piece exists whenever there is a comma. *)
Definition cleanBase64 (base64Image : string) : string :=
  if includes base64Image ","
  then default base64Image (split "," base64Image !! 1%nat)
  else base64Image.

Definition extraction_failed : string :=
  "[ERREUR] Le texte n'a pas été correctement extrait de l'image.".

Definition default_feedback : string :=
  "Relis bien le texte et essaie d'expliquer avec tes propres mots 😊".

Definition neutral_feedback : string :=
  "Réfléchis bien à ce que dit le texte et essaie de répondre de façon plus précise 😊".

Definition technical_feedback : string :=
  "Je n'ai pas pu corriger ta réponse à cause d'un petit problème technique. Réessaie dans un instant 😊".

(** The refusal test of [evaluateAnswer], on the lower-cased answer. *)
Definition is_refusal (lower : string) : bool :=
  includes lower "je ne peux pas répondre" ||
  (includes lower "texte" &&
   includes lower "question" &&
   (includes lower "pas fournis" || includes lower "non fournis")).

Section Gateway.

(** [JSON.parse]: [None] when it throws a SyntaxError. *)
Variable JSON_parse : string -> option json.

(** The answer of the LLM client to the request at hand: rejected on a
    transport error, otherwise the response object, which may be missing. *)
Variable generateContent : Request -> outcome (option Response).

(** [!data.content || !data.content.trim()]: the read throws on [null], and
    the call of [trim] on a truthy value that is not a string. *)
Definition content_missing (data : json) : outcome bool :=
  match data with
  | JNull => Rejected
  | _ =>
      match get "content" data with
      | Some (JStr s) =>
          Resolved (negb (truthy_string s) || negb (truthy_string (trim s)))
      | c => if truthy c then Rejected else Resolved true
      end
  end.

(** The value is returned as it was parsed: [as StoryData] checks nothing. *)
Definition generateAssessment (base64Image : string) : outcome json :=
  match generateContent (AssessmentRequest (cleanBase64 base64Image)) with
  | Rejected => Rejected
  | Resolved response =>
      let raw := extractTextFromResponse response in
      match JSON_parse raw with
      | None => Rejected
      | Some data =>
          match content_missing data with
          | Rejected => Rejected
          | Resolved true => set "content" (JStr extraction_failed) data
          | Resolved false => Resolved data
          end
      end
  end.

Definition technical_result : EvaluationResult :=
  {| isCorrect := false;
     isIncomplete := None;
     score := Some 0%Q;
     feedback := technical_feedback;
     correctAnswer := Some "" |}.

(** The body of the [try] block once [raw] is parsed; [None] when a
    statement in it throws, which the [catch] answers with
    [technical_result]. *)
Definition normalize (parsed : json) : option EvaluationResult :=
  match parsed with
  | JNull => None
  | _ =>
      let feedback0 :=
        match get "feedback" parsed with
        | Some (JStr s) => s
        | _ => default_feedback
        end in
      let correctAnswer0 :=
        match get "correctAnswer" parsed with
        | Some (JStr s) => trim s
        | _ => ""
        end in
      let lower := toLowerCase correctAnswer0 in
      let refused := is_refusal lower in
      let correctAnswer1 := if refused then "" else correctAnswer0 in
      let feedback1 :=
        if refused && negb (truthy (get "feedback" parsed))
        then neutral_feedback else feedback0 in
      Some {| isCorrect := truthy (get "isCorrect" parsed);
              isIncomplete := None;
              score :=
                match get "score" parsed with
                | Some (JNum n) =>
                    if Qle_bool 0 n && Qle_bool n 2 then Some n else Some 0%Q
                | _ => Some 0%Q
                end;
              feedback := feedback1;
              correctAnswer := Some correctAnswer1 |}
  end.

Definition evaluateAnswer (question : Question) (studentAnswer : string)
    (story : StoryData) : outcome EvaluationResult :=
  match generateContent
          (EvaluationRequest (content story) (q_text question) studentAnswer)
  with
  | Rejected => Rejected
  | Resolved response =>
      let raw := extractTextFromResponse response in
      match JSON_parse raw with
      | None => Resolved technical_result
      | Some parsed =>
          match normalize parsed with
          | Some result => Resolved result
          | None => Resolved technical_result
          end
      end
  end.

Definition generateFinalFeedback (userScore : UserScore) : outcome string :=
  match generateContent (FeedbackRequest userScore) with
  | Rejected => Rejected
  | Resolved response => Resolved (extractTextFromResponse response)
  end.

End Gateway.

(** *** The invariants of a story (data model), read on the returned value *)

Definition items (o : option json) : option (list json) :=
  match o with
  | Some (JArr l _) => Some l
  | _ => None
  end.

Definition has_type (t : string) (q : json) : bool :=
  match get "type" q with
  | Some (JStr s) => bool_decide (s = t)
  | _ => false
  end.

Definition count_questions (t : string) (qs : list json) : nat :=
  length (List.filter (has_type t) qs).

Definition id_of (q : json) : option Q :=
  match get "id" q with
  | Some (JNum n) => Some n
  | _ => None
  end.

(** Every id is a number and no two of them are equal. *)
Fixpoint distinct (ids : list (option Q)) : bool :=
  match ids with
  | [] => true
  | None :: _ => false
  | Some x :: rest =>
      forallb (fun y => match y with
                        | Some y => negb (Qeq_bool x y)
                        | None => false
                        end) rest
      && distinct rest
  end.

(** Ten questions, 4 LITERAL, 4 INFERENTIAL and 2 EVALUATIVE, with distinct
    ids; a content that is not empty; a glossary of 3 to 6 items. *)
Definition story_invariants (data : json) : bool :=
  match items (get "questions" data), items (get "glossary" data),
        get "content" data with
  | Some qs, Some gl, Some (JStr c) =>
      (length qs =? 10)%nat
      && (count_questions LITERAL qs =? 4)%nat
      && (count_questions INFERENTIAL qs =? 4)%nat
      && (count_questions EVALUATIVE qs =? 2)%nat
      && distinct (map id_of qs)
      && truthy_string c
      && (3 <=? length gl)%nat && (length gl <=? 6)%nat
  | _, _, _ => false
  end.

(** Bytes that [toLowerCase] leaves as they are wherever they stand. *)
Definition stable (a : ascii) : bool :=
  bool_decide (lower_ascii a = a) && bool_decide (lower_latin1 a = a).

Fixpoint all_stable (p : string) : bool :=
  match p with
  | EmptyString => true
  | String a r => stable a && all_stable r
  end.

(** [t] has the length of [s] and its stable bytes at the same places. *)
Fixpoint agree (s t : string) : Prop :=
  match s, t with
  | EmptyString, EmptyString => True
  | String a s', String b t' => (stable a = true -> b = a) /\ agree s' t'
  | _, _ => False
  end.

(** *** When [generateAssessment] throws after the parse *)

(** The parsed value is an object (or an array): a property can be written
    to it. *)
Definition is_object (v : json) : bool :=
  match v with
  | JObj _ | JArr _ _ => true
  | _ => false
  end.

(** [content] is there, truthy, and has no [trim] to call. *)
Definition content_not_text (v : json) : bool :=
  match get "content" v with
  | Some (JStr _) => false
  | c => truthy c
  end.

(** The response carries no text: it is missing, or it has none of the
    three shapes (an empty candidate text counts for none). *)
Definition textless (response : option Response) : bool :=
  match response with
  | None => true
  | Some r =>
      match output_text r, response_text r with
      | None, None => negb (truthy_opt_string (candidate_text r))
      | _, _ => false
      end
  end.

(** The string holds the character. *)
Fixpoint has_char (c : ascii) (s : string) : bool :=
  match s with
  | EmptyString => false
  | String a r => bool_decide (a = c) || has_char c r
  end.

(** What every result of [evaluateAnswer] looks like, the technical one
    included. *)
Definition well_formed (r : EvaluationResult) : Prop :=
  isIncomplete r = None /\
  (exists n, score r = Some n /\ (0 <= n)%Q /\ (n <= 2)%Q) /\
  (exists c, correctAnswer r = Some c /\
             is_refusal (toLowerCase c) = false /\ is_refusal c = false).

(** *** [generateSpeech] (browser speech synthesis) *)

(** A [SpeechSynthesisUtterance], as [generateSpeech] sets it up. *)
Record Utterance : Type := {
  u_text : string;
  u_lang : string;
  u_rate : Z;
  u_pitch : Z
}.

(** [window.speechSynthesis] is [None] where the browser has none, and
    otherwise the queue of the utterances spoken or waiting: [cancel()]
    empties it and [speak(u)] adds [u] at its end.  The function returns
    the string it resolves to and the queue it leaves. *)
Definition generateSpeech (text : string)
    (speechSynthesis : option (list Utterance))
  : string * option (list Utterance) :=
  match speechSynthesis with
  | None => ("", None)
  | Some queue =>
      if negb (truthy_string text) || negb (truthy_string (trim text))
      then ("", Some queue)
      else
        let cancelled : list Utterance := [] in
        ("", Some (cancelled ++ [ {| u_text := text; u_lang := "fr-FR";
                                     u_rate := 1; u_pitch := 1 |} ]))
  end.

End GeminiService.

(* ===================================================================== *)
(** ** The two other copies of services/geminiService.ts *)
(* ===================================================================== *)

(** The source file holds three copies of the service.  [GeminiService]
    above is the last one (lines 484-765); here are the operations of the
    first (lines 1-196) and [evaluateAnswer] of the second (lines
    197-484), where they differ. *)
Module OtherCopies.
Import JS Types GeminiService.

Section Copies.

Variable JSON_parse : string -> option json.
Variable generateContent : Request -> outcome (option Response).


Definition not_understood_1 : json :=
  JObj [ ("isCorrect", JBool false); ("score", JNum 0);
         ("feedback", JStr "Je n'ai pas compris ta réponse, essaie encore 😊");
         ("correctAnswer", JStr "") ].

(** First copy: the request is outside the [try]; what parses is returned
    as it is. *)
Definition evaluateAnswer_1 (question : Question) (studentAnswer : string)
    (story : StoryData) : outcome json :=
  match generateContent
          (EvaluationRequest (content story) (q_text question) studentAnswer)
  with
  | Rejected => Rejected
  | Resolved response =>
      match JSON_parse (extractTextFromResponse response) with
      | None => Resolved not_understood_1
      | Some parsed => Resolved parsed
      end
  end.

Definition not_understood_2 : EvaluationResult :=
  {| isCorrect := false; isIncomplete := None; score := Some 0%Q;
     feedback := "Je n'ai pas compris ta réponse, relis bien le texte 😊";
     correctAnswer := Some "" |}.

Definition small_error_2 : EvaluationResult :=
  {| isCorrect := false; isIncomplete := None; score := Some 0%Q;
     feedback :=
       "Une petite erreur est arrivée, essaie encore ou demande l'aide de ton enseignante 😊";
     correctAnswer := Some "" |}.

(** Second copy: the request, the reading of the response and the parsing
    are all inside a [try]; the fields are defaulted, not sanitized. *)
Definition evaluateAnswer_2 (question : Question) (studentAnswer : string)
    (story : StoryData) : outcome EvaluationResult :=
  match generateContent
          (EvaluationRequest (content story) (q_text question) studentAnswer)
  with
  | Rejected => Resolved small_error_2
  | Resolved None => Resolved small_error_2
  | Resolved (Some response) =>
      let raw :=
        match output_text response with
        | Some s => s
        | None => default "{}" (candidate_text response)
        end in
      match JSON_parse raw with
      | None | Some JNull => Resolved not_understood_2
      | Some parsed =>
          Resolved
            {| isCorrect := truthy (get "isCorrect" parsed);
               isIncomplete := None;
               score :=
                 match get "score" parsed with
                 | Some (JNum n) => Some n
                 | _ => Some 0%Q
                 end;
               feedback :=
                 match get "feedback" parsed with
                 | Some (JStr s) => s
                 | _ => "Lis bien le texte avant de répondre 😊"
                 end;
               correctAnswer :=
                 match get "correctAnswer" parsed with
                 | Some (JStr s) => Some s
                 | _ => Some ""
                 end |}
      end
  end.

End Copies.

End OtherCopies.

(* ===================================================================== *)
(** ** components/QuestionEngine.tsx *)
(* ===================================================================== *)

Module QuestionEngine.
Import JS Types.

Inductive QuestionStatus : Type :=
| IDLE | CORRECT | INCORRECT_RETRY | FAILED_FINAL.

#[global] Instance QuestionStatus_eq_dec : EqDecision QuestionStatus.
Proof. solve_decision. Defined.

(** The component state: four maps keyed by question id, and the flag that
    disables the submit button. *)
Record EngineState : Type := {
  answers : gmap Z string;
  statuses : gmap Z QuestionStatus;
  feedbacks : gmap Z EvaluationResult;
  attempts : gmap Z Z;
  isEvaluating : bool
}.

Definition initial : EngineState :=
  {| answers := ∅; statuses := ∅; feedbacks := ∅; attempts := ∅;
     isEvaluating := false |}.

(** The object [getQuestionState] returns. *)
Record QuestionState : Type := {
  st_answer : string;
  st_status : QuestionStatus;
  st_feedback : option EvaluationResult;
  st_attempt : Z
}.

Definition getQuestionState (st : EngineState) (id : Z) : QuestionState :=
  {| st_answer := default "" (answers st !! id);
     st_status := default IDLE (statuses st !! id);
     st_feedback := feedbacks st !! id;
     st_attempt := default 0 (attempts st !! id) |}.

Definition handleAnswerChange (id : Z) (val : string) (st : EngineState)
  : EngineState :=
  {| answers := <[id := val]> (answers st);
     statuses := statuses st;
     feedbacks := feedbacks st;
     attempts := attempts st;
     isEvaluating := isEvaluating st |}.

(** [status === 'CORRECT' || status === 'FAILED_FINAL'] *)
Definition is_terminal (s : QuestionStatus) : bool :=
  match s with
  | CORRECT | FAILED_FINAL => true
  | IDLE | INCORRECT_RETRY => false
  end.

(** [!answer.trim()], the same test as [answer.trim() === ''] *)
Definition is_blank (answer : string) : bool :=
  negb (truthy_string (trim answer)).

(** One element of the array [finishQuiz] hands to [onComplete]. *)
Record Result : Type := {
  r_question : Question;
  r_userAnswer : option string;
  r_isCorrect : bool;
  r_feedback : option string;
  r_correctAnswer : option string
}.

(** A request to the gateway, as [evaluateAnswer] was called. *)
Record GatewayCall : Type := {
  call_question : Question;
  call_answer : string
}.

(** An asynchronous computation: it extends the log of the gateway calls
    issued so far and settles. *)
Definition Async (A : Type) : Type :=
  list GatewayCall -> outcome A * list GatewayCall.

Definition ret {A : Type} (a : A) : Async A :=
  fun log => (Resolved a, log).

Definition throw {A : Type} : Async A :=
  fun log => (Rejected, log).

Definition bind {A B : Type} (m : Async A) (k : A -> Async B) : Async B :=
  fun log =>
    match m log with
    | (Resolved a, log') => k a log'
    | (Rejected, log') => (Rejected, log')
    end.

Notation "x <- m ;; k" := (bind m (fun x => k))
  (at level 100, m at next level, right associativity).

(** [Promise.all]: every promise is started, in order; the result is
    rejected as soon as one of them is. *)
Fixpoint Promise_all {A : Type} (ps : list (Async A)) : Async (list A) :=
  fun log =>
    match ps with
    | [] => (Resolved [], log)
    | p :: rest =>
        let '(o, log1) := p log in
        let '(os, log2) := Promise_all rest log1 in
        (match o, os with
         | Resolved a, Resolved l => Resolved (a :: l)
         | _, _ => Rejected
         end, log2)
    end.

(** One element of the array awaited from [Promise.all]. *)
Record BatchEntry : Type := {
  e_id : Z;
  e_result : EvaluationResult;
  e_isRetry : bool
}.

(** The three maps the update loop writes to. *)
Record Updates : Type := {
  newStatuses : gmap Z QuestionStatus;
  newFeedbacks : gmap Z EvaluationResult;
  newAttempts : gmap Z Z
}.

Definition no_answer (isRetry : bool) : EvaluationResult :=
  {| isCorrect := false;
     isIncomplete := Some true;
     score := None;
     feedback :=
       if isRetry then "Tu n'as pas répondu. Voici la réponse."
       else "Tu n'as pas répondu. Essaie d'écrire quelque chose !";
     correctAnswer := None |}.

(** *** [SingleQuestion] *)

(** [isInputDisabled] *)
Definition isInputDisabled (status : QuestionStatus) : bool :=
  match status with
  | CORRECT | FAILED_FINAL => true
  | _ => false
  end.

Definition truthy_opt_bool (o : option bool) : bool :=
  match o with
  | Some b => b
  | None => false
  end.

(** The bold first line of the feedback block. *)
Definition feedback_title (status : QuestionStatus) (fb : EvaluationResult)
  : string :=
  if truthy_opt_bool (isIncomplete fb) then "Réponse incomplète"
  else match status with
       | CORRECT => "Excellent !"
       | INCORRECT_RETRY => "Pas tout à fait..."
       | _ => "Dommage."
       end.

(** What follows [Réponse attendue :], when that line is rendered. *)
Definition expected_answer (status : QuestionStatus) (fb : EvaluationResult)
  : option string :=
  if bool_decide (status = FAILED_FINAL)
     && truthy_opt_string (correctAnswer fb)
  then correctAnswer fb else None.

(** The writes of the update loop for one result. *)
Definition write_result (u : Updates) (id : Z) (finalResult : EvaluationResult)
    (isRetry : bool) : Updates :=
  let fbs := <[id := finalResult]> (newFeedbacks u) in
  if isCorrect finalResult then
    {| newStatuses := <[id := CORRECT]> (newStatuses u);
       newFeedbacks := fbs;
       newAttempts := newAttempts u |}
  else if negb isRetry then
    {| newStatuses := <[id := INCORRECT_RETRY]> (newStatuses u);
       newFeedbacks := fbs;
       newAttempts := <[id := 1]> (newAttempts u) |}
  else
    {| newStatuses := <[id := FAILED_FINAL]> (newStatuses u);
       newFeedbacks := fbs;
       newAttempts := <[id := 2]> (newAttempts u) |}.

Section Engine.

Variable storyData : StoryData.

(** The imported [evaluateAnswer]; its first argument is the number of
    gateway calls issued before this one. *)
Variable evaluateAnswer :
  nat -> Question -> string -> StoryData -> outcome EvaluationResult.

Definition await_evaluateAnswer (q : Question) (studentAnswer : string)
  : Async EvaluationResult :=
  fun log =>
    (evaluateAnswer (length log) q studentAnswer storyData,
     log ++ [{| call_question := q; call_answer := studentAnswer |}]).

Definition questionsToEvaluate (st : EngineState) : list Question :=
  List.filter
    (fun q => negb (is_terminal (st_status (getQuestionState st (q_id q)))))
    (questions storyData).

(** The callback mapped over [questionsToEvaluate]. *)
Definition evaluate_question (st : EngineState) (q : Question)
  : Async BatchEntry :=
  let answer := st_answer (getQuestionState st (q_id q)) in
  let attempt := st_attempt (getQuestionState st (q_id q)) in
  let isRetry := 0 <? attempt in
  if is_blank answer then
    ret {| e_id := q_id q; e_result := no_answer isRetry;
           e_isRetry := isRetry |}
  else
    result <- await_evaluateAnswer q answer ;;
    ret {| e_id := q_id q; e_result := result; e_isRetry := isRetry |}.

(** [finalResult] of the update loop: the gateway is asked again, with an
    empty answer, for a question left blank on its last attempt. *)
Definition final_result (st : EngineState) (e : BatchEntry)
  : Async EvaluationResult :=
  if is_blank (st_answer (getQuestionState st (e_id e)))
     && e_isRetry e
     && negb (truthy_opt_string (correctAnswer (e_result e)))
  then
    match List.find (fun q => q_id q =? e_id e) (questions storyData) with
    | Some q => await_evaluateAnswer q ""
    | None => throw
    end
  else ret (e_result e).

(** The body of the [for ... of results] loop. *)
Definition apply_entry (st : EngineState) (u : Updates) (e : BatchEntry)
  : Async Updates :=
  finalResult <- final_result st e ;;
  ret (write_result u (e_id e) finalResult (e_isRetry e)).

Fixpoint update_loop (st : EngineState) (u : Updates)
    (results : list BatchEntry) : Async Updates :=
  match results with
  | [] => ret u
  | e :: rest => u' <- apply_entry st u e ;; update_loop st u' rest
  end.

(** [new Map(statuses)], [new Map(feedbacks)] and [new Map(attempts)]. *)
Definition snapshot (st : EngineState) : Updates :=
  {| newStatuses := statuses st;
     newFeedbacks := feedbacks st;
     newAttempts := attempts st |}.

(** The [try] block of [handleGlobalSubmit], up to the three setters. *)
Definition evaluate_batch (st : EngineState) : Async Updates :=
  results <- Promise_all (map (evaluate_question st) (questionsToEvaluate st)) ;;
  update_loop st (snapshot st) results.

(** The state when nothing is written but [setIsEvaluating(false)]. *)
Definition idle (st : EngineState) : EngineState :=
  {| answers := answers st; statuses := statuses st;
     feedbacks := feedbacks st; attempts := attempts st;
     isEvaluating := false |}.

(** The state after [setStatuses], [setFeedbacks], [setAttempts] and
    [setIsEvaluating(false)]. *)
Definition commit (st : EngineState) (u : Updates) : EngineState :=
  {| answers := answers st; statuses := newStatuses u;
     feedbacks := newFeedbacks u; attempts := newAttempts u;
     isEvaluating := false |}.

(** The state after the submission and the log of gateway calls.  Nothing
    is written when there is nothing to evaluate, nor when the batch is
    rejected: the [catch] only alerts. *)
Definition handleGlobalSubmit (st : EngineState) (log : list GatewayCall)
  : EngineState * list GatewayCall :=
  match questionsToEvaluate st with
  | [] => (idle st, log)
  | _ :: _ =>
      match evaluate_batch st log with
      | (Resolved u, log') => (commit st u, log')
      | (Rejected, log') => (idle st, log')
      end
  end.

Definition isAllComplete (st : EngineState) : bool :=
  forallb
    (fun q =>
       match statuses st !! q_id q with
       | Some CORRECT | Some FAILED_FINAL => true
       | _ => false
       end)
    (questions storyData).

(** The array [finishQuiz] passes to [onComplete]. *)
Definition finishQuiz (st : EngineState) : list Result :=
  map
    (fun q =>
       let s := statuses st !! q_id q in
       let fb := feedbacks st !! q_id q in
       let ans := answers st !! q_id q in
       {| r_question := q;
          r_userAnswer := ans;
          r_isCorrect := bool_decide (s = Some CORRECT);
          r_feedback := feedback <$> fb;
          r_correctAnswer := fb ≫= correctAnswer |})
    (questions storyData).

(** The states the component goes through: the pupil types, submits, and
    the gateway answers as it likes. *)
Inductive reachable : EngineState -> Prop :=
| reach_initial : reachable initial
| reach_answer st id val :
    reachable st -> reachable (handleAnswerChange id val st)
| reach_submit st log :
    reachable st -> reachable (handleGlobalSubmit st log).1.

(** *** What the two phases of a batch produce *)

(** The entry the mapped callback makes for a question. *)
Definition entry_for (st : EngineState) (q : Question) (e : BatchEntry) : Prop :=
  e_id e = q_id q /\
  e_isRetry e = (0 <? st_attempt (getQuestionState st (q_id q))) /\
  (is_blank (st_answer (getQuestionState st (q_id q))) = true ->
   e_result e = no_answer (e_isRetry e)).

(** A gateway call issued by the mapped callback. *)
Definition first_call (st : EngineState) (qs : list Question) (c : GatewayCall)
  : Prop :=
  call_question c ∈ qs /\
  is_blank (st_answer (getQuestionState st (q_id (call_question c)))) = false /\
  call_answer c = st_answer (getQuestionState st (q_id (call_question c))).

(** The test that sends the update loop back to the gateway. *)
Definition forced (st : EngineState) (e : BatchEntry) : bool :=
  is_blank (st_answer (getQuestionState st (e_id e)))
  && e_isRetry e
  && negb (truthy_opt_string (correctAnswer (e_result e))).

(** A gateway call issued by the update loop, for one of the entries. *)
Definition forced_call (st : EngineState) (rs : list BatchEntry)
    (c : GatewayCall) : Prop :=
  exists e, e ∈ rs /\ forced st e = true /\
            q_id (call_question c) = e_id e /\ call_answer c = "".

(** The same call, seen from the state the batch started in: it carries an
    empty answer, for the id of a question of the batch left blank after a
    first attempt. *)
Definition second_call (st : EngineState) (c : GatewayCall) : Prop :=
  (exists q, q ∈ questionsToEvaluate st /\
             q_id (call_question c) = q_id q) /\
  is_blank (st_answer (getQuestionState st (q_id (call_question c)))) = true /\
  (0 <? st_attempt (getQuestionState st (q_id (call_question c)))) = true /\
  call_answer c = "".

(** [f] is the final result of entry [e]: its own result, or the answer to
    a call, at position [n >= lo] of the log, for the first question with
    that id and an empty answer. *)
Definition final_for (st : EngineState) (lo : nat) (log : list GatewayCall)
    (e : BatchEntry) (f : EvaluationResult) : Prop :=
  if forced st e then
    exists q n,
      List.find (fun q => q_id q =? e_id e) (questions storyData) = Some q /\
      (lo <= n)%nat /\
      log !! n = Some {| call_question := q; call_answer := "" |} /\
      evaluateAnswer n q "" storyData = Resolved f
  else f = e_result e.

(** The writes of the whole loop, given the final results. *)
Definition writes (u : Updates) (l : list (BatchEntry * EvaluationResult))
  : Updates :=
  fold_left (fun u ef => write_result u (e_id ef.1) ef.2 (e_isRetry ef.1)) l u.

(** The status the loop writes for a final result. *)
Definition next_status (isRetry : bool) (f : EvaluationResult)
  : QuestionStatus :=
  if isCorrect f then CORRECT
  else if isRetry then FAILED_FINAL else INCORRECT_RETRY.

(** What a resolved batch has written for a question id of the batch:
    [e] is an entry with that id and [f] its final result. *)
Definition written (st : EngineState) (log log' : list GatewayCall)
    (u : Updates) (id : Z) (e : BatchEntry) (f : EvaluationResult) : Prop :=
  let isRetry := 0 <? st_attempt (getQuestionState st id) in
  e_id e = id /\ e_isRetry e = isRetry /\
  (is_blank (st_answer (getQuestionState st id)) = true ->
   e_result e = no_answer isRetry) /\
  final_for st (length log) log' e f /\
  newFeedbacks u !! id = Some f /\
  newStatuses u !! id = Some (next_status isRetry f) /\
  (isCorrect f = false ->
   newAttempts u !! id = Some (if isRetry then 2 else 1)) /\
  (newAttempts u !! id = attempts st !! id \/
   newAttempts u !! id = Some (if isRetry then 2 else 1)) /\
  (NoDup (map q_id (questions storyData)) -> isCorrect f = true ->
   newAttempts u !! id = attempts st !! id).

(** Statuses and attempt counters that go together. *)
Definition consistent (st : EngineState) : Prop :=
  forall id,
    match statuses st !! id with
    | None => attempts st !! id = None
    | Some IDLE => False
    | Some INCORRECT_RETRY => attempts st !! id = Some 1
    | Some FAILED_FINAL => attempts st !! id = Some 2
    | Some CORRECT =>
        attempts st !! id = None \/ attempts st !! id = Some 1 \/
        attempts st !! id = Some 2
    end.

(** *** Where the results of a batch come from *)

(** [f] is what the gateway answered to some call. *)
Definition from_gateway (f : EvaluationResult) : Prop :=
  exists n q studentAnswer,
    evaluateAnswer n q studentAnswer storyData = Resolved f.

(** The result of an entry is the local one, for a blank answer, or comes
    from the gateway. *)
Definition entry_origin (st : EngineState) (e : BatchEntry) : Prop :=
  (is_blank (st_answer (getQuestionState st (e_id e))) = true /\
   e_result e = no_answer (e_isRetry e)) \/
  (is_blank (st_answer (getQuestionState st (e_id e))) = false /\
   from_gateway (e_result e)).

(** The final result of an entry is its own, or comes from the second call
    to the gateway. *)
Definition final_origin (st : EngineState) (e : BatchEntry)
    (f : EvaluationResult) : Prop :=
  (forced st e = false /\ f = e_result e) \/
  (forced st e = true /\ from_gateway f).

(** *** What the component renders *)

(** [pendingRetryCount] *)
Definition pendingRetryCount (st : EngineState) : nat :=
  length
    (List.filter
       (fun q => bool_decide (statuses st !! q_id q = Some INCORRECT_RETRY))
       (questions storyData)).

(** The text of the submit button. *)
Definition submit_label (st : EngineState) : string :=
  if (0 <? pendingRetryCount st)%nat
  then "Valider mes corrections" else "Valider mes réponses".

(** The questions of the batch that cost a gateway call: all but those
    left blank on the first attempt. *)
Definition asks_gateway (st : EngineState) (q : Question) : bool :=
  negb (is_blank (st_answer (getQuestionState st (q_id q))))
  || (0 <? st_attempt (getQuestionState st (q_id q))).

(** Statuses and stored feedbacks that go together. *)
Definition coherent (st : EngineState) : Prop :=
  forall id,
    match statuses st !! id with
    | None => feedbacks st !! id = None
    | Some s =>
        exists f, feedbacks st !! id = Some f /\
                  isCorrect f = bool_decide (s = CORRECT)
    end.

(** What the pupil types between two submissions. *)
Definition typed (edits : list (Z * string)) (st : EngineState) : EngineState :=
  fold_left (fun s e => handleAnswerChange e.1 e.2 s) edits st.

(** A session of the component: what the pupil does, in order, with the
    log of gateway calls threaded through. *)
Inductive Action : Type :=
| Submit
| Typing (id : Z) (val : string).

Definition act (x : EngineState * list GatewayCall) (a : Action)
  : EngineState * list GatewayCall :=
  match a with
  | Submit => handleGlobalSubmit x.1 x.2
  | Typing id val => (handleAnswerChange id val x.1, x.2)
  end.

Definition run (acts : list Action) (x : EngineState * list GatewayCall)
  : EngineState * list GatewayCall :=
  fold_left act acts x.

End Engine.

End QuestionEngine.

(* ===================================================================== *)
(** ** App.tsx *)
(* ===================================================================== *)

Module App.
Import JS Types.
Import QuestionEngine.

(** The state hooks of the [App] component. *)
Record State : Type := {
  appState : AppState;
  userInfo : UserInfo;
  storyData : option StoryData;
  results : list Result;
  finalFeedback : string;
  finalScores : UserScore
}.

Definition initial : State :=
  {| appState := LOGIN;
     userInfo := {| firstName := ""; lastName := "" |};
     storyData := None;
     results := [];
     finalFeedback := "";
     finalScores :=
       {| literal := 0; inferential := 0; evaluative := 0; total := 0 |} |}.

Definition setAppState (a : AppState) (s : State) : State :=
  {| appState := a; userInfo := userInfo s; storyData := storyData s;
     results := results s; finalFeedback := finalFeedback s;
     finalScores := finalScores s |}.

Definition setUserInfo (u : UserInfo) (s : State) : State :=
  {| appState := appState s; userInfo := u; storyData := storyData s;
     results := results s; finalFeedback := finalFeedback s;
     finalScores := finalScores s |}.

Definition setStoryData (d : option StoryData) (s : State) : State :=
  {| appState := appState s; userInfo := userInfo s; storyData := d;
     results := results s; finalFeedback := finalFeedback s;
     finalScores := finalScores s |}.

Definition setResults (r : list Result) (s : State) : State :=
  {| appState := appState s; userInfo := userInfo s; storyData := storyData s;
     results := r; finalFeedback := finalFeedback s;
     finalScores := finalScores s |}.

Definition setFinalFeedback (f : string) (s : State) : State :=
  {| appState := appState s; userInfo := userInfo s; storyData := storyData s;
     results := results s; finalFeedback := f;
     finalScores := finalScores s |}.

Definition setFinalScores (sc : UserScore) (s : State) : State :=
  {| appState := appState s; userInfo := userInfo s; storyData := storyData s;
     results := results s; finalFeedback := finalFeedback s;
     finalScores := sc |}.

(** The two [onChange] handlers of the login form. *)
Definition changeFirstName (v : string) (s : State) : State :=
  setUserInfo {| firstName := v; lastName := lastName (userInfo s) |} s.

Definition changeLastName (v : string) (s : State) : State :=
  setUserInfo {| firstName := firstName (userInfo s); lastName := v |} s.

Definition handleLogin (s : State) : State :=
  if truthy_string (trim (firstName (userInfo s)))
     && truthy_string (trim (lastName (userInfo s)))
  then setAppState SETUP s else s.

Definition handleReadingComplete (s : State) : State :=
  setAppState QUIZ s.

(** The loop of [calculateScores]: one point for a correct result, added to
    the counter of the question's type. *)
Definition add_points (acc : Z * Z * Z) (r : Result) : Z * Z * Z :=
  let '(lit, inf, evalScore) := acc in
  let points := if r_isCorrect r then 1 else 0 in
  let lit := if decide (q_type (r_question r) = LITERAL)
             then lit + points else lit in
  let inf := if decide (q_type (r_question r) = INFERENTIAL)
             then inf + points else inf in
  let evalScore := if decide (q_type (r_question r) = EVALUATIVE)
                   then evalScore + points else evalScore in
  (lit, inf, evalScore).

Definition scores (quizResults : list Result) : UserScore :=
  let '(lit, inf, evalScore) := fold_left add_points quizResults (0, 0, 0) in
  let total := lit + inf + evalScore in
  {| literal := lit; inferential := inf; evaluative := evalScore;
     total := total |}.

(** How many questions have a given type, and how many results of that
    type are correct. *)
Definition count_type (t : string) (qs : list Question) : Z :=
  Z.of_nat (length (List.filter (fun q => bool_decide (q_type q = t)) qs)).

Definition correct_of_type (t : string) (rs : list Result) : Z :=
  Z.of_nat
    (length
       (List.filter
          (fun r => r_isCorrect r && bool_decide (q_type (r_question r) = t))
          rs)).

Section Handlers.

(** The imported gateway operations, as [App] calls them. *)
Variable generateAssessment : string -> outcome StoryData.
Variable generateFinalFeedback : Z -> Z -> string -> outcome string.

Definition startAssessment (base64Data fullDataUrl : string) (s : State)
  : State :=
  let s := setAppState LOADING_STORY s in
  match generateAssessment base64Data with
  | Resolved data =>
      let s := setStoryData
                 (Some {| title := title data; content := content data;
                          imageUrl := Some fullDataUrl;
                          glossary := glossary data;
                          questions := questions data |}) s in
      setAppState READING s
  | Rejected => setAppState SETUP s
  end.

(** When the awaited feedback is rejected the function stops there: the
    scores and the results are stored, the rest is not reached. *)
Definition calculateScores (quizResults : list Result) (s : State) : State :=
  let sc := scores quizResults in
  let s := setFinalScores sc s in
  let s := setResults quizResults s in
  match generateFinalFeedback (total sc) 10 (firstName (userInfo s)) with
  | Resolved feedbackText =>
      let s := setFinalFeedback feedbackText s in
      setAppState RESULTS s
  | Rejected => s
  end.

Definition handleQuit (confirmed : bool) (s : State) : State :=
  if confirmed then
    let s := setUserInfo {| firstName := ""; lastName := "" |} s in
    let s := setStoryData None s in
    let s := setResults [] s in
    setAppState LOGIN s
  else s.

(** What the pupil and the engine can do to the component. *)
Inductive Event : Type :=
| ChangeFirstName (v : string)
| ChangeLastName (v : string)
| Login
| Upload (base64Data fullDataUrl : string)
| ReadingComplete
| Complete (quizResults : list Result)
| DownloadCSV
| Quit (confirmed : bool).

Definition step (s : State) (ev : Event) : State :=
  match ev with
  | ChangeFirstName v => changeFirstName v s
  | ChangeLastName v => changeLastName v s
  | Login => handleLogin s
  | Upload base64Data fullDataUrl => startAssessment base64Data fullDataUrl s
  | ReadingComplete => handleReadingComplete s
  | Complete quizResults => calculateScores quizResults s
  | DownloadCSV => s
  | Quit confirmed => handleQuit confirmed s
  end.

Definition is_Complete (ev : Event) : bool :=
  match ev with
  | Complete _ => true
  | _ => false
  end.

End Handlers.

(** *** [downloadCSV] *)

(** What the browser is asked to save. *)
Record Download : Type := {
  file_name : string;
  file_content : string
}.

(** U+FEFF, in UTF-8. *)
Definition BOM : string :=
  String (ascii_of_N 239) (String (ascii_of_N 187) (String (ascii_of_N 191) "")).

Definition LF : ascii := ascii_of_N 10.

(** A number of the row, as [join] writes it: its decimal digits. *)
Definition number_to_string (n : Z) : string :=
  DecimalString.NilZero.string_of_int (Z.to_int n).

(** [array.join(sep)] *)
Fixpoint join (sep : string) (l : list string) : string :=
  match l with
  | [] => ""
  | [x] => x
  | x :: rest => x +:+ sep +:+ join sep rest
  end.

Definition csv_headers : list string :=
  [ "Student_First_Name"; "Student_Last_Name"; "Score littéral";
    "Score inférentiel"; "Score évaluatif"; "Score total" ].

Definition csv_row (s : State) : list string :=
  [ firstName (userInfo s); lastName (userInfo s);
    number_to_string (literal (finalScores s));
    number_to_string (inferential (finalScores s));
    number_to_string (evaluative (finalScores s));
    number_to_string (total (finalScores s)) ].

(** [None] when the function returns before it builds anything. *)
Definition downloadCSV (s : State) : option Download :=
  match storyData s with
  | None => None
  | Some _ =>
      match results s with
      | [] => None
      | _ :: _ =>
          Some {| file_name :=
                    "Rapport_" +:+ lastName (userInfo s) +:+ "_"
                    +:+ firstName (userInfo s) +:+ ".csv";
                  file_content :=
                    BOM +:+ join (String LF "")
                              [ join "," csv_headers; join "," (csv_row s) ] |}
      end
  end.

(** The number a reader of the file gets from the digits of a field. *)
Definition read_number (field : string) : option Z :=
  option_map Z.of_int (DecimalString.NilZero.int_of_string field).

(** The three types [calculateScores] has a counter for. *)
Definition known_type (t : string) : bool :=
  bool_decide (t = LITERAL) || bool_decide (t = INFERENTIAL)
  || bool_decide (t = EVALUATIVE).

End App.

(* ===================================================================== *)
(** ** components/StoryCard.tsx *)
(* ===================================================================== *)

Module StoryCard.
Import JS.

(** Steps 3 and 4 of [handlePlayAudio], on the char codes of the binary
    string [atob] returns.  A typed array reads its buffer in the byte
    order of the platform, which is a parameter here. *)

(** [bytes[i] = binaryString.charCodeAt(i)] into a [Uint8Array] *)
Definition to_bytes (codes : list Z) : list Z :=
  map (fun c => c mod 256) codes.

(** The 16-bit integer of two bytes, the first in memory first. *)
Definition int16 (littleEndian : bool) (first second : Z) : Z :=
  let unsigned :=
    if littleEndian then first + 256 * second else second + 256 * first in
  if unsigned <? 32768 then unsigned else unsigned - 65536.

(** [new Int16Array(bytes.buffer)]: a RangeError when the number of bytes
    is odd. *)
Fixpoint Int16Array (littleEndian : bool) (bytes : list Z)
  : outcome (list Z) :=
  match bytes with
  | [] => Resolved []
  | [_] => Rejected
  | first :: second :: rest =>
      match Int16Array littleEndian rest with
      | Resolved l => Resolved (int16 littleEndian first second :: l)
      | Rejected => Rejected
      end
  end.

(** [ctx.createBuffer(1, frameCount, 24000)]: the Web Audio API refuses a
    buffer of no frame with a NotSupportedError. *)
Definition createBuffer (frameCount : nat) : outcome nat :=
  match frameCount with
  | O => Rejected
  | S _ => Resolved frameCount
  end.

(** The samples written to the one channel of the buffer:
    [dataInt16[i] / 32768.0], exact in single precision. *)
Definition channel_data (littleEndian : bool) (codes : list Z)
  : outcome (list Q) :=
  match Int16Array littleEndian (to_bytes codes) with
  | Resolved dataInt16 =>
      match createBuffer (length dataInt16) with
      | Resolved frameCount =>
          Resolved (map (fun x => Qmake x 32768) (take frameCount dataInt16))
      | Rejected => Rejected
      end
  | Rejected => Rejected
  end.

End StoryCard.

(* ===================================================================== *)
(** ** A session, to run the embedding on *)
(* ===================================================================== *)

Module Session.
Import JS Types GeminiService QuestionEngine.

(** The engine's [evaluateAnswer], with the gateway behind it: the call
    number selects the answer of the LLM client. *)
Definition gateway (JSON_parse : string -> option json)
    (ai : nat -> Request -> outcome (option Response))
  : nat -> Question -> string -> StoryData -> outcome EvaluationResult :=
  fun n => evaluateAnswer JSON_parse (ai n).

Definition question (id : Z) (type : string) : Question :=
  {| q_id := id; q_text := "Que fait Magellan ?"; q_type := type |}.

Definition story : StoryData :=
  {| title := "Le voyage de Magellan";
     content := "Magellan quitte Séville avec cinq navires.";
     imageUrl := None;
     glossary :=
       [ {| word := "navire"; definition := "un grand bateau" |};
         {| word := "équipage"; definition := "les marins du bateau" |};
         {| word := "détroit"; definition := "un passage de mer étroit" |} ];
     questions :=
       [ question 1 LITERAL; question 2 LITERAL; question 3 LITERAL;
         question 4 LITERAL; question 5 INFERENTIAL; question 6 INFERENTIAL;
         question 7 INFERENTIAL; question 8 INFERENTIAL;
         question 9 EVALUATIVE; question 10 EVALUATIVE ] |}.

Definition text_response (text : string) : outcome (option Response) :=
  Resolved (Some {| output_text := None; response_text := None;
                    candidate_text := Some text |}).

(** A scripted LLM client.  It marks the answer [oui] correct and the others
    wrong; for the answer [?] it refuses in its [correctAnswer], for [!] it
    does not write JSON, and for [#] the transport fails. *)
Definition scripted_model (n : nat) (request : Request)
  : outcome (option Response) :=
  match request with
  | EvaluationRequest _ _ studentAnswer =>
      if decide (studentAnswer = "oui") then
        text_response (JSON.quoted
          "{'isCorrect': true, 'score': 2, 'feedback': 'Bravo !', 'correctAnswer': 'Il quitte Séville.'}")
      else if decide (studentAnswer = "?") then
        text_response (JSON.quoted
          "{'isCorrect': false, 'score': 0, 'correctAnswer': ' Je ne peux pas répondre sans le texte. '}")
      else if decide (studentAnswer = "!") then
        text_response "Désolé, une erreur est survenue."
      else if decide (studentAnswer = "#") then Rejected
      else
        text_response (JSON.quoted
          "{'isCorrect': false, 'score': 0, 'feedback': 'Relis le début.', 'correctAnswer': 'Il quitte Séville.'}")
  | AssessmentRequest _ =>
      text_response (JSON.quoted
        "{'title': 'Le voyage', 'content': 'Magellan quitte Séville.', 'glossary': [{'word': 'navire', 'definition': 'un bateau'}], 'questions': [{'id': 1, 'text': 'Qui part ?', 'type': 'LITERAL'}]}")
  | FeedbackRequest _ => text_response "Bravo pour ton travail !"
  end.

Definition scripted_gateway
  : nat -> Question -> string -> StoryData -> outcome EvaluationResult :=
  gateway JSON.parse scripted_model.

(** The pupil answers the first two questions and submits ... *)
Definition after_first_submit : EngineState * list GatewayCall :=
  run story scripted_gateway
    [Typing 1 "oui"; Typing 2 "non"; Submit] (initial, []).

(** ... and submits again without changing anything. *)
Definition after_second_submit : EngineState * list GatewayCall :=
  run story scripted_gateway [Submit] after_first_submit.

(** What the scripted client sends for an assessment, parsed. *)
Definition scripted_story : json :=
  JObj
    [ ("title", JStr "Le voyage");
      ("content", JStr "Magellan quitte Séville.");
      ("glossary",
       JArr [JObj [("word", JStr "navire"); ("definition", JStr "un bateau")]]
            []);
      ("questions",
       JArr [JObj [("id", JNum 1); ("text", JStr "Qui part ?");
                   ("type", JStr "LITERAL")]]
            []) ].

(** A parsed story that has all the invariants of the data model. *)
Definition json_question (id : Z) (type : string) : json :=
  JObj [("id", JNum (inject_Z id)); ("text", JStr "Que fait Magellan ?");
        ("type", JStr type)].

Definition complete_story : json :=
  JObj
    [ ("title", JStr "Le voyage de Magellan");
      ("content", JStr "Magellan quitte Séville avec cinq navires.");
      ("glossary",
       JArr [JObj [("word", JStr "navire"); ("definition", JStr "un bateau")];
             JObj [("word", JStr "équipage"); ("definition", JStr "les marins")];
             JObj [("word", JStr "détroit"); ("definition", JStr "un passage")]]
            []);
      ("questions",
       JArr [ json_question 1 LITERAL; json_question 2 LITERAL;
              json_question 3 LITERAL; json_question 4 LITERAL;
              json_question 5 INFERENTIAL; json_question 6 INFERENTIAL;
              json_question 7 INFERENTIAL; json_question 8 INFERENTIAL;
              json_question 9 EVALUATIVE; json_question 10 EVALUATIVE ]
            []) ].

(** A story whose two questions share the id 1: nothing checks the ids
    the model gives. *)
Definition shared_id_story : StoryData :=
  {| title := "Le voyage de Magellan";
     content := "Magellan quitte Séville avec cinq navires.";
     imageUrl := None;
     glossary := [];
     questions :=
       [ {| q_id := 1; q_text := "Qui part ?"; q_type := LITERAL |};
         {| q_id := 1; q_text := "Que quitte Magellan ?"; q_type := LITERAL |} ]
  |}.

(** A client that goes by the question: wrong for the first question of
    [shared_id_story], correct for the second. *)
Definition by_question_model (n : nat) (request : Request)
  : outcome (option Response) :=
  match request with
  | EvaluationRequest _ question _ =>
      if decide (question = "Que quitte Magellan ?") then
        text_response (JSON.quoted
          "{'isCorrect': true, 'score': 2, 'feedback': 'Bravo !', 'correctAnswer': 'Séville.'}")
      else
        text_response (JSON.quoted
          "{'isCorrect': false, 'score': 0, 'feedback': 'Relis le début.', 'correctAnswer': 'Magellan.'}")
  | _ => Rejected
  end.

(** A client that marks every answer correct, the empty one too. *)
Definition lenient_model (n : nat) (request : Request)
  : outcome (option Response) :=
  match request with
  | EvaluationRequest _ _ _ =>
      text_response (JSON.quoted
        "{'isCorrect': true, 'score': 2, 'feedback': 'Bravo !', 'correctAnswer': 'Il quitte Séville.'}")
  | _ => Rejected
  end.

(** A client whose transport always fails. *)
Definition offline_model (n : nat) (request : Request)
  : outcome (option Response) :=
  Rejected.

(** The orchestrator at the end of a session that scored 1 out of 10. *)
Definition finished_session : App.State :=
  {| App.appState := RESULTS;
     App.userInfo := {| firstName := "Amine"; lastName := "Benali" |};
     App.storyData := Some story;
     App.results := finishQuiz story after_second_submit.1;
     App.finalFeedback := "Bravo pour ton travail !";
     App.finalScores :=
       {| literal := 1; inferential := 0; evaluative := 0; total := 1 |} |}.

End Session.

(* ===================================================================== *)
(** * Properties of the question engine *)
(* ===================================================================== *)

Section EngineFacts.
Import JS Types QuestionEngine.

Variable sd : StoryData.
Variable ev : nat -> Question -> string -> StoryData -> outcome EvaluationResult.

Local Abbreviation status_of st id := (st_status (getQuestionState st id)).
Local Abbreviation answer_of st id := (st_answer (getQuestionState st id)).
Local Abbreviation attempt_of st id := (st_attempt (getQuestionState st id)).

Lemma candidate_iff (st : EngineState) (q : Question) :
  q ∈ questionsToEvaluate sd st <->
  q ∈ questions sd /\ is_terminal (status_of st (q_id q)) = false.
Proof.
  unfold questionsToEvaluate. rewrite !list_elem_of_In, filter_In.
  rewrite negb_true_iff. reflexivity.
Qed.

Lemma evaluate_question_spec (st : EngineState) (q : Question)
    (log : list GatewayCall) :
  exists calls,
    (evaluate_question sd ev st q log).2 = log ++ calls /\
    Forall (first_call st [q]) calls /\
    forall e, (evaluate_question sd ev st q log).1 = Resolved e ->
              entry_for st q e.
Proof.
  unfold evaluate_question.
  destruct (is_blank (answer_of st (q_id q))) eqn:Hb.
  - exists []. cbn. rewrite app_nil_r. split; [done|]. split; [done|].
    intros e [= <-]. unfold entry_for. cbn. auto.
  - eexists [_]. unfold bind, await_evaluateAnswer, ret. cbn.
    assert (first_call st [q]
              {| call_question := q; call_answer := answer_of st (q_id q) |}).
    { unfold first_call. cbn. split; [set_solver|]. auto. }
    destruct (ev _ _ _ _) as [r|]; cbn; (split; [reflexivity|]);
      (split; [by constructor|]).
    + intros e [= <-]. split; [reflexivity|]. split; [reflexivity|].
      rewrite Hb. discriminate.
    + discriminate.
Qed.

Lemma first_call_weaken (st : EngineState) (qs qs' : list Question)
    (c : GatewayCall) :
  qs ⊆ qs' -> first_call st qs c -> first_call st qs' c.
Proof. intros Hsub (? & ? & ?). unfold first_call. auto. Qed.

Lemma Promise_all_spec (st : EngineState) (qs : list Question) :
  forall log,
  exists calls,
    (Promise_all (map (evaluate_question sd ev st) qs) log).2 = log ++ calls /\
    Forall (first_call st qs) calls /\
    forall rs,
      (Promise_all (map (evaluate_question sd ev st) qs) log).1 = Resolved rs ->
      Forall2 (entry_for st) qs rs.
Proof.
  induction qs as [|q qs IH]; intros log; cbn.
  - exists []. rewrite app_nil_r. split; [done|]. split; [done|].
    intros rs [= <-]. constructor.
  - destruct (evaluate_question_spec st q log) as (c1 & E1 & F1 & R1).
    destruct (evaluate_question sd ev st q log) as [o log1] eqn:Eq1.
    cbn in E1, R1. subst log1.
    destruct (IH (log ++ c1)) as (c2 & E2 & F2 & R2).
    destruct (Promise_all _ (log ++ c1)) as [os log2] eqn:Eq2.
    cbn in E2, R2. subst log2.
    exists (c1 ++ c2). cbn. split; [by rewrite app_assoc|]. split.
    + apply Forall_app. split.
      * eapply Forall_impl; [exact F1|]. intros c.
        apply first_call_weaken. set_solver.
      * eapply Forall_impl; [exact F2|]. intros c.
        apply first_call_weaken. set_solver.
    + intros rs Hrs. destruct o as [e|]; [|discriminate].
      destruct os as [l|]; [|discriminate].
      simplify_eq. constructor; auto.
Qed.

Lemma final_for_weaken (st : EngineState) (lo lo' : nat)
    (log more : list GatewayCall) (e : BatchEntry) (f : EvaluationResult) :
  (lo' <= lo)%nat ->
  final_for sd ev st lo log e f -> final_for sd ev st lo' (log ++ more) e f.
Proof.
  unfold final_for. destruct (forced st e); [|done].
  intros Hle (q & n & Hfind & Hn & Hlook & Hev).
  exists q, n. split; [done|]. split; [lia|]. split; [|done].
  by apply lookup_app_l_Some.
Qed.

Lemma final_result_spec (st : EngineState) (e : BatchEntry)
    (log : list GatewayCall) :
  exists calls,
    (final_result sd ev st e log).2 = log ++ calls /\
    Forall (forced_call st [e]) calls /\
    forall f, (final_result sd ev st e log).1 = Resolved f ->
              final_for sd ev st (length log) (log ++ calls) e f.
Proof.
  unfold final_result, final_for. fold (forced st e).
  destruct (forced st e) eqn:Hf.
  - destruct (List.find _ _) as [q|] eqn:Hfind.
    + eexists [_]. unfold await_evaluateAnswer. cbn.
      split; [reflexivity|]. split.
      * constructor; [|constructor]. exists e. cbn.
        apply find_some in Hfind as [_ Hq%Z.eqb_eq].
        split; [set_solver|]. done.
      * intros f Hev. exists q, (length log). split; [done|]. split; [lia|].
        split; [|done]. by rewrite list_lookup_middle.
    + exists []. cbn. rewrite app_nil_r. split; [done|]. split; [done|].
      discriminate.
  - exists []. cbn. rewrite app_nil_r. split; [done|]. split; [done|].
    by intros f [= <-].
Qed.

Lemma forced_call_weaken (st : EngineState) (rs rs' : list BatchEntry)
    (c : GatewayCall) :
  rs ⊆ rs' -> forced_call st rs c -> forced_call st rs' c.
Proof. intros Hsub (e & ? & ?). exists e. split; [set_solver|done]. Qed.

Lemma update_loop_cons (st : EngineState) (u : Updates) (e : BatchEntry)
    (rs : list BatchEntry) (log : list GatewayCall) :
  update_loop sd ev st u (e :: rs) log =
  match final_result sd ev st e log with
  | (Resolved f, log1) =>
      update_loop sd ev st (write_result u (e_id e) f (e_isRetry e)) rs log1
  | (Rejected, log1) => (Rejected, log1)
  end.
Proof.
  cbn. unfold apply_entry, bind, ret.
  by destruct (final_result sd ev st e log) as [[f|] log1].
Qed.

Lemma update_loop_spec (st : EngineState) (rs : list BatchEntry) :
  forall u log,
  exists calls,
    (update_loop sd ev st u rs log).2 = log ++ calls /\
    Forall (forced_call st rs) calls /\
    forall u', (update_loop sd ev st u rs log).1 = Resolved u' ->
      exists fs,
        Forall2 (final_for sd ev st (length log) (log ++ calls)) rs fs /\
        u' = writes u (zip rs fs).
Proof.
  induction rs as [|e rs IH]; intros u log.
  - exists []. cbn. rewrite app_nil_r. split; [done|]. split; [done|].
    intros u' [= <-]. exists []. split; [constructor|done].
  - destruct (final_result_spec st e log) as (c1 & E1 & F1 & R1).
    rewrite update_loop_cons.
    destruct (final_result sd ev st e log) as [[f|] log1] eqn:Efr;
      cbn in E1, R1; subst log1.
    + destruct (IH (write_result u (e_id e) f (e_isRetry e)) (log ++ c1))
        as (c2 & E2 & F2 & R2).
      exists (c1 ++ c2). rewrite app_assoc. split; [done|]. split.
      * apply Forall_app. split.
        -- eapply Forall_impl; [exact F1|]. intros c.
           apply forced_call_weaken. set_solver.
        -- eapply Forall_impl; [exact F2|]. intros c.
           apply forced_call_weaken. set_solver.
      * intros u' Hu'. destruct (R2 u' Hu') as (fs & Hfs & ->).
        exists (f :: fs). split; [|done]. constructor.
        -- eapply final_for_weaken; [|by apply R1]. lia.
        -- eapply Forall2_impl; [exact Hfs|]. intros e' f' H'.
           rewrite <- (app_nil_r ((log ++ c1) ++ c2)).
           eapply final_for_weaken; [|exact H']. rewrite length_app. lia.
    + exists c1. split; [done|]. split.
      * eapply Forall_impl; [exact F1|]. intros c.
        apply forced_call_weaken. set_solver.
      * discriminate.
Qed.

Lemma evaluate_batch_calls (st : EngineState) (log : list GatewayCall) :
  exists calls,
    (evaluate_batch sd ev st log).2 = log ++ calls /\
    Forall (fun c => first_call st (questionsToEvaluate sd st) c \/
                     second_call sd st c) calls /\
    forall u, (evaluate_batch sd ev st log).1 = Resolved u ->
      exists rs fs,
        Forall2 (entry_for st) (questionsToEvaluate sd st) rs /\
        Forall2 (final_for sd ev st (length log) (log ++ calls)) rs fs /\
        u = writes (snapshot st) (zip rs fs).
Proof.
  unfold evaluate_batch, bind.
  destruct (Promise_all_spec st (questionsToEvaluate sd st) log)
    as (c1 & E1 & F1 & R1).
  destruct (Promise_all _ log) as [[rs|] log1]; cbn in E1, R1; subst log1.
  - specialize (R1 rs eq_refl).
    destruct (update_loop_spec st rs (snapshot st) (log ++ c1))
      as (c2 & E2 & F2 & R2).
    exists (c1 ++ c2). rewrite app_assoc. split; [done|]. split.
    + apply Forall_app. split.
      * eapply Forall_impl; [exact F1|]. auto.
      * eapply Forall_impl; [exact F2|].
        intros c (e & He & Hf & Hid & Hans). right.
        apply list_elem_of_lookup in He as [i Hi].
        destruct (Forall2_lookup_r _ _ _ _ _ R1 Hi) as (q & Hq & Hid' & Hr & _).
        unfold forced in Hf. apply andb_true_iff in Hf as [Hf _].
        apply andb_true_iff in Hf as [Hb Hretry].
        unfold second_call. rewrite Hid. split.
        { exists q. split; [|done]. apply list_elem_of_lookup. eauto. }
        split; [done|]. split; [|done]. by rewrite Hid', <- Hr.
    + intros u Hu. destruct (R2 u Hu) as (fs & Hfs & ->).
      exists rs, fs. split; [done|]. split; [|done].
      eapply Forall2_impl; [exact Hfs|]. intros e f H.
      rewrite <- (app_nil_r ((log ++ c1) ++ c2)).
      eapply final_for_weaken; [|exact H]. rewrite length_app. lia.
  - exists c1. split; [done|]. split.
    + eapply Forall_impl; [exact F1|]. auto.
    + discriminate.
Qed.

(** *** The writes of the update loop, question by question *)

Lemma write_result_other (u : Updates) (id id' : Z) (f : EvaluationResult)
    (b : bool) :
  id' ≠ id ->
  newStatuses (write_result u id f b) !! id' = newStatuses u !! id' /\
  newFeedbacks (write_result u id f b) !! id' = newFeedbacks u !! id' /\
  newAttempts (write_result u id f b) !! id' = newAttempts u !! id'.
Proof.
  intros Hne. unfold write_result.
  destruct (isCorrect f), b; cbn; by rewrite ?lookup_insert_ne.
Qed.

Lemma write_result_same (u : Updates) (id : Z) (f : EvaluationResult)
    (b : bool) :
  newStatuses (write_result u id f b) !! id = Some (next_status b f) /\
  newFeedbacks (write_result u id f b) !! id = Some f /\
  newAttempts (write_result u id f b) !! id =
    if isCorrect f then newAttempts u !! id
    else Some (if b then 2 else 1).
Proof.
  unfold write_result, next_status.
  destruct (isCorrect f), b; cbn; by rewrite ?lookup_insert_eq.
Qed.

Lemma writes_snoc (u : Updates) (l : list (BatchEntry * EvaluationResult))
    (x : BatchEntry * EvaluationResult) :
  writes u (l ++ [x]) =
  write_result (writes u l) (e_id x.1) x.2 (e_isRetry x.1).
Proof. unfold writes. by rewrite fold_left_app. Qed.

Lemma writes_cons (u : Updates) (l : list (BatchEntry * EvaluationResult))
    (x : BatchEntry * EvaluationResult) :
  writes u (x :: l) =
  writes (write_result u (e_id x.1) x.2 (e_isRetry x.1)) l.
Proof. reflexivity. Qed.

Lemma writes_frame (l : list (BatchEntry * EvaluationResult)) (id : Z) :
  forall u,
  id ∉ map (fun ef => e_id ef.1) l ->
  newStatuses (writes u l) !! id = newStatuses u !! id /\
  newFeedbacks (writes u l) !! id = newFeedbacks u !! id /\
  newAttempts (writes u l) !! id = newAttempts u !! id.
Proof.
  induction l as [|x l IH]; intros u Hid; [done|].
  rewrite writes_cons. cbn in Hid.
  apply not_elem_of_cons in Hid as [Hne Hid].
  destruct (IH (write_result u (e_id x.1) x.2 (e_isRetry x.1)) Hid)
    as (-> & -> & ->).
  by apply write_result_other.
Qed.

Lemma writes_attempts (l : list (BatchEntry * EvaluationResult)) (id : Z)
    (b : bool) :
  (forall ef, ef ∈ l -> e_id ef.1 = id -> e_isRetry ef.1 = b) ->
  forall u,
  newAttempts (writes u l) !! id = newAttempts u !! id \/
  newAttempts (writes u l) !! id = Some (if b then 2 else 1).
Proof.
  induction l as [|x l IH] using rev_ind; intros Hb u; [by left|].
  rewrite writes_snoc.
  assert (Hb' : forall ef, ef ∈ l -> e_id ef.1 = id -> e_isRetry ef.1 = b).
  { intros ef Hef. apply Hb. set_solver. }
  destruct (decide (e_id x.1 = id)) as [<-|Hne].
  - rewrite (Hb x) by set_solver.
    destruct (write_result_same (writes u l) (e_id x.1) x.2 b)
      as (_ & _ & ->).
    destruct (isCorrect x.2); [by apply IH|by right].
  - destruct (write_result_other (writes u l) (e_id x.1) id x.2
                (e_isRetry x.1)) as (_ & _ & ->); [done|].
    by apply IH.
Qed.

Lemma writes_touched (l : list (BatchEntry * EvaluationResult)) (id : Z)
    (b : bool) (u : Updates) :
  (forall ef, ef ∈ l -> e_id ef.1 = id -> e_isRetry ef.1 = b) ->
  id ∈ map (fun ef => e_id ef.1) l ->
  exists e f,
    (e, f) ∈ l /\ e_id e = id /\
    newFeedbacks (writes u l) !! id = Some f /\
    newStatuses (writes u l) !! id = Some (next_status b f) /\
    (isCorrect f = false ->
     newAttempts (writes u l) !! id = Some (if b then 2 else 1)).
Proof.
  induction l as [|x l IH] using rev_ind; intros Hb Hid; [set_solver|].
  rewrite writes_snoc.
  assert (Hb' : forall ef, ef ∈ l -> e_id ef.1 = id -> e_isRetry ef.1 = b).
  { intros ef Hef. apply Hb. set_solver. }
  destruct (decide (e_id x.1 = id)) as [Heq|Hne].
  - rewrite (Hb x) by set_solver. subst id.
    destruct (write_result_same (writes u l) (e_id x.1) x.2 b)
      as (Hs & Hf & Ha).
    exists x.1, x.2. split; [destruct x; set_solver|]. split; [done|].
    split; [done|]. split; [done|]. intros Hc. by rewrite Hc in Ha.
  - rewrite map_app in Hid. apply elem_of_app in Hid as [Hid|Hid];
      [|set_solver].
    destruct (IH Hb' Hid) as (e & f & He & Heid & Hf & Hs & Ha).
    destruct (write_result_other (writes u l) (e_id x.1) id x.2
                (e_isRetry x.1)) as (-> & -> & ->); [done|].
    exists e, f. split; [set_solver|]. done.
Qed.

Lemma writes_once (l : list (BatchEntry * EvaluationResult)) (u : Updates)
    (e : BatchEntry) (f : EvaluationResult) :
  NoDup (map (fun ef => e_id ef.1) l) ->
  (e, f) ∈ l ->
  newFeedbacks (writes u l) !! e_id e = Some f /\
  newAttempts (writes u l) !! e_id e =
    if isCorrect f then newAttempts u !! e_id e
    else Some (if e_isRetry e then 2 else 1).
Proof.
  intros Hnd Hin. apply list_elem_of_split in Hin as (l1 & l2 & ->).
  rewrite map_app in Hnd. cbn in Hnd.
  apply NoDup_app in Hnd as (_ & Hdisj & Hnd2).
  apply NoDup_cons in Hnd2 as [Hnot2 _].
  assert (Hnot1 : e_id e ∉ map (fun ef => e_id ef.1) l1).
  { intros H1. apply (Hdisj _ H1). set_solver. }
  unfold writes. rewrite fold_left_app. fold (writes u l1). cbn.
  match goal with |- context [fold_left _ l2 ?u1] => fold (writes u1 l2) end.
  destruct (writes_frame l2 (e_id e)
              (write_result (writes u l1) (e_id e) f (e_isRetry e)) Hnot2)
    as (_ & -> & ->).
  destruct (write_result_same (writes u l1) (e_id e) f (e_isRetry e))
    as (_ & -> & ->).
  destruct (writes_frame l1 (e_id e) u Hnot1) as (_ & _ & ->). done.
Qed.

(** Pairs of the zipped lists satisfy what relates the lists. *)
Lemma Forall2_zip_elem {A B : Type} (P : A -> B -> Prop) (l : list A)
    (k : list B) (a : A) (b : B) :
  Forall2 P l k -> (a, b) ∈ zip l k -> P a b.
Proof.
  intros H. induction H as [|x y l k Hxy H IH]; cbn; [set_solver|].
  intros [Heq|Hin]%elem_of_cons; [by simplify_eq|auto].
Qed.

Lemma Forall2_zip_fst {A B : Type} (P : A -> B -> Prop) (l : list A)
    (k : list B) :
  Forall2 P l k -> (zip l k).*1 = l.
Proof. intros H. apply fst_zip. by rewrite (Forall2_length _ _ _ H). Qed.

(** *** One batch, seen from one question id *)

Lemma NoDup_candidates (st : EngineState) :
  NoDup (map q_id (questions sd)) ->
  NoDup (map q_id (questionsToEvaluate sd st)).
Proof.
  unfold questionsToEvaluate. generalize (questions sd) as l.
  induction l as [|q l IH]; cbn; [done|].
  intros [Hq Hl]%NoDup_cons. destruct (negb _); cbn; [|auto].
  apply NoDup_cons. split; [|auto].
  intros Hin. apply Hq.
  apply list_elem_of_fmap in Hin as (q' & -> & Hq').
  apply list_elem_of_fmap. exists q'. split; [done|].
  apply list_elem_of_In in Hq'. apply filter_In in Hq' as [Hq' _].
  by apply list_elem_of_In.
Qed.

Lemma candidate_id_iff (st : EngineState) (id : Z) :
  id ∈ map q_id (questionsToEvaluate sd st) <->
  id ∈ map q_id (questions sd) /\ is_terminal (status_of st id) = false.
Proof.
  split.
  - intros (q & -> & [Hq Ht]%candidate_iff)%list_elem_of_fmap.
    split; [|done]. apply list_elem_of_fmap. eauto.
  - intros [(q & -> & Hq)%list_elem_of_fmap Ht].
    apply list_elem_of_fmap. exists q. split; [done|].
    by apply candidate_iff.
Qed.

Lemma batch_at (st : EngineState) (log : list GatewayCall) (u : Updates)
    (id : Z) :
  (evaluate_batch sd ev st log).1 = Resolved u ->
  if decide (id ∈ map q_id (questionsToEvaluate sd st)) then
    exists e f, written sd ev st log (evaluate_batch sd ev st log).2 u id e f
  else
    newStatuses u !! id = statuses st !! id /\
    newFeedbacks u !! id = feedbacks st !! id /\
    newAttempts u !! id = attempts st !! id.
Proof.
  intros Hu.
  destruct (evaluate_batch_calls st log) as (calls & -> & _ & R).
  destruct (R u Hu) as (rs & fs & Hrs & Hfs & ->). clear R.
  assert (Hids : map (fun ef => e_id ef.1) (zip rs fs)
                 = map q_id (questionsToEvaluate sd st)).
  { change (fun ef : BatchEntry * EvaluationResult => e_id ef.1)
      with (e_id ∘ (fst : BatchEntry * EvaluationResult -> BatchEntry)).
    rewrite (list_fmap_compose fst e_id).
    rewrite (Forall2_zip_fst _ _ _ Hfs).
    clear Hfs Hu. induction Hrs as [|q e qs rs' (Hid & _) _ IH]; [done|].
    cbn. by rewrite Hid, IH. }
  assert (Hentry : forall e f, (e, f) ∈ zip rs fs ->
            exists q, q ∈ questionsToEvaluate sd st /\ entry_for st q e).
  { intros e f Hin.
    assert (He : e ∈ rs).
    { rewrite <- (Forall2_zip_fst _ _ _ Hfs).
      apply list_elem_of_fmap. by exists (e, f). }
    apply list_elem_of_lookup in He as [i Hi].
    destruct (Forall2_lookup_r _ _ _ _ _ Hrs Hi) as (q & Hq & Hqe).
    exists q. split; [|done]. apply list_elem_of_lookup. eauto. }
  destruct (decide _) as [Hin|Hnot].
  - rewrite <- Hids in Hin.
    assert (Hb : forall ef, ef ∈ zip rs fs -> e_id ef.1 = id ->
              e_isRetry ef.1 = (0 <? attempt_of st id)).
    { intros [e f] Hef Heid. cbn [fst snd] in *.
      destruct (Hentry e f Hef) as (q & _ & Hid & Hr & _).
      by rewrite Hr, <- Hid, Heid. }
    destruct (writes_touched _ id _ (snapshot st) Hb Hin)
      as (e & f & Hef & Heid & Hf & Hs & Ha).
    exists e, f. unfold written.
    destruct (Hentry e f Hef) as (q & _ & Hid & Hr & Hblank).
    assert (Hq : q_id q = id) by congruence. rewrite Hq in *.
    split; [done|]. split; [done|].
    split; [by rewrite <- Hr|].
    split; [by eapply Forall2_zip_elem|].
    split; [done|]. split; [done|]. split; [done|].
    split; [by apply (writes_attempts _ id _ Hb (snapshot st))|].
    intros Hnd Hc.
    apply (NoDup_candidates st) in Hnd. rewrite <- Hids in Hnd.
    destruct (writes_once _ (snapshot st) e f Hnd Hef) as [_ Hw].
    rewrite Heid, Hc in Hw. done.
  - rewrite <- Hids in Hnot.
    apply (writes_frame _ id (snapshot st) Hnot).
Qed.

Lemma submit_cases (st : EngineState) (log : list GatewayCall) :
  (handleGlobalSubmit sd ev st log).1 = idle st \/
  exists u,
    (evaluate_batch sd ev st log).1 = Resolved u /\
    handleGlobalSubmit sd ev st log
    = (commit st u, (evaluate_batch sd ev st log).2).
Proof.
  unfold handleGlobalSubmit.
  destruct (questionsToEvaluate sd st); [by left|].
  destruct (evaluate_batch sd ev st log) as [[u|] log']; [|by left].
  right. by exists u.
Qed.

Lemma submit_log (st : EngineState) (log : list GatewayCall) :
  exists calls,
    (handleGlobalSubmit sd ev st log).2 = log ++ calls /\
    Forall (fun c => first_call st (questionsToEvaluate sd st) c \/
                     second_call sd st c) calls.
Proof.
  unfold handleGlobalSubmit.
  destruct (questionsToEvaluate sd st) eqn:Hq.
  - exists []. by rewrite app_nil_r.
  - rewrite <- Hq.
    destruct (evaluate_batch_calls st log) as (calls & E & F & _).
    exists calls. split; [|done].
    by destruct (evaluate_batch sd ev st log) as [[u|] log'].
Qed.

(** *** Statuses and attempt counters of the reachable states *)

Lemma consistent_open (st : EngineState) (id : Z) :
  consistent st ->
  is_terminal (status_of st id) = false ->
  (statuses st !! id = None /\ attempts st !! id = None) \/
  (statuses st !! id = Some INCORRECT_RETRY /\ attempts st !! id = Some 1).
Proof.
  intros Hc Ht. specialize (Hc id). cbn in Ht.
  destruct (statuses st !! id) as [[]|]; cbn in Ht; try done; auto.
Qed.

Lemma consistent_bounds (st : EngineState) (id : Z) :
  consistent st -> 0 <= attempt_of st id <= 2.
Proof.
  intros Hc. specialize (Hc id). cbn.
  destruct (statuses st !! id) as [[]|]; try done;
    repeat destruct Hc as [Hc|Hc]; rewrite Hc; cbn; lia.
Qed.

Lemma commit_consistent (st : EngineState) (log : list GatewayCall)
    (u : Updates) :
  consistent st ->
  (evaluate_batch sd ev st log).1 = Resolved u ->
  consistent (commit st u).
Proof.
  intros Hc Hu id. cbn.
  pose proof (batch_at st log u id Hu) as H.
  destruct (decide _) as [Hin|Hnot].
  - destruct H as (e & f & _ & _ & _ & _ & _ & Hs & Ha & Ha' & _).
    apply candidate_id_iff in Hin as [_ Ht].
    rewrite Hs. unfold next_status in *.
    destruct (consistent_open st id Hc Ht) as [[_ E]|[_ E]];
      cbn in Hs, Ha, Ha' |- *; rewrite E in *; cbn in *;
      destruct (isCorrect f); auto; destruct Ha'; auto.
  - destruct H as (-> & _ & ->). apply Hc.
Qed.

Lemma reachable_consistent (st : EngineState) :
  reachable sd ev st -> consistent st.
Proof.
  induction 1 as [|st id val _ IH|st log _ IH].
  - intros id. cbn. by rewrite !lookup_empty.
  - exact IH.
  - destruct (submit_cases st log) as [->|(u & Hu & ->)]; [exact IH|].
    by eapply commit_consistent.
Qed.

Lemma run_reachable (acts : list Action) (st : EngineState)
    (log : list GatewayCall) :
  reachable sd ev st -> reachable sd ev (run sd ev acts (st, log)).1.
Proof.
  revert st log. induction acts as [|a acts IH]; intros st log H; [done|].
  cbn. destruct a as [|id val]; cbn.
  - destruct (handleGlobalSubmit sd ev st log) as [st1 log1] eqn:E.
    apply IH. change st1 with (st1, log1).1. rewrite <- E.
    by constructor.
  - apply IH. by constructor.
Qed.

(** A rejected batch writes nothing. *)
Lemma rejected_batch_idle (st : EngineState) (log : list GatewayCall) :
  (evaluate_batch sd ev st log).1 = Rejected ->
  (handleGlobalSubmit sd ev st log).1 = idle st.
Proof.
  intros H. destruct (submit_cases st log) as [->|(u & Hu & _)]; [done|].
  congruence.
Qed.

(** Outside the batch nothing is written. *)
Lemma submit_frame (st : EngineState) (log : list GatewayCall) (id : Z) :
  id ∉ map q_id (questionsToEvaluate sd st) ->
  let st' := (handleGlobalSubmit sd ev st log).1 in
  answers st' !! id = answers st !! id /\
  statuses st' !! id = statuses st !! id /\
  feedbacks st' !! id = feedbacks st !! id /\
  attempts st' !! id = attempts st !! id.
Proof.
  intros Hnot. cbn zeta.
  destruct (submit_cases st log) as [->|(u & Hu & ->)]; [done|].
  pose proof (batch_at st log u id Hu) as H.
  destruct (decide _) as [Hin|_]; [done|].
  destruct H as (? & ? & ?). done.
Qed.

(** C3 (terminal absorption).  A question whose status is CORRECT or
    FAILED_FINAL is not in the set the submission evaluates, which holds
    non-terminal questions only; the submission writes nothing for an id
    that is not in that set; and so it leaves the entries of the terminal
    question in the four maps (answer, status, feedback, attempt) as they
    were, whatever the gateway answers. *)
Theorem terminal_absorption (st : EngineState) (log : list GatewayCall)
    (id : Z) :
  is_terminal (status_of st id) = true ->
  let st' := (handleGlobalSubmit sd ev st log).1 in
  (forall q, q ∈ questionsToEvaluate sd st ->
             q_id q ≠ id /\ is_terminal (status_of st (q_id q)) = false) /\
  (forall id', id' ∉ map q_id (questionsToEvaluate sd st) ->
               answers st' !! id' = answers st !! id' /\
               statuses st' !! id' = statuses st !! id' /\
               feedbacks st' !! id' = feedbacks st !! id' /\
               attempts st' !! id' = attempts st !! id') /\
  answers st' !! id = answers st !! id /\
  statuses st' !! id = statuses st !! id /\
  feedbacks st' !! id = feedbacks st !! id /\
  attempts st' !! id = attempts st !! id.
Proof.
  intros Ht. cbn zeta. split; [|split].
  - intros q [_ Hq]%candidate_iff. split; [|done]. congruence.
  - intros id'. apply submit_frame.
  - apply submit_frame. intros [_ Hin]%candidate_id_iff. congruence.
Qed.

(** Once terminal, always: over any later sequence of submissions and of
    edits of the other answers, the four entries stay as they were. *)
Lemma terminal_forever (acts : list Action) :
  forall (st : EngineState) (log : list GatewayCall) (id : Z),
  is_terminal (status_of st id) = true ->
  (forall val, Typing id val ∉ acts) ->
  let st' := (run sd ev acts (st, log)).1 in
  answers st' !! id = answers st !! id /\
  statuses st' !! id = statuses st !! id /\
  feedbacks st' !! id = feedbacks st !! id /\
  attempts st' !! id = attempts st !! id.
Proof.
  induction acts as [|a acts IH]; intros st log id Ht Hty; [done|].
  cbn zeta.
  assert (Hty' : forall val, Typing id val ∉ acts).
  { intros val Hin. apply (Hty val). set_solver. }
  destruct a as [|id' val];
    [change (run sd ev (Submit :: acts) (st, log))
       with (run sd ev acts (handleGlobalSubmit sd ev st log))
    |change (run sd ev (Typing id' val :: acts) (st, log))
       with (run sd ev acts (handleAnswerChange id' val st, log))].
  - destruct (handleGlobalSubmit sd ev st log) as [st1 log1] eqn:E.
    assert (H1 : answers st1 !! id = answers st !! id /\
                 statuses st1 !! id = statuses st !! id /\
                 feedbacks st1 !! id = feedbacks st !! id /\
                 attempts st1 !! id = attempts st !! id).
    { change st1 with (st1, log1).1. rewrite <- E.
      apply submit_frame. intros [_ Hin]%candidate_id_iff. congruence. }
    destruct H1 as (Ea & Es & Ef & Eat).
    assert (Ht1 : is_terminal (status_of st1 id) = true).
    { cbn. rewrite Es. exact Ht. }
    destruct (IH st1 log1 id Ht1 Hty') as (-> & -> & -> & ->). done.
  - assert (Hne : id' ≠ id).
    { intros ->. apply (Hty val). set_solver. }
    destruct (IH (handleAnswerChange id' val st) log id Ht Hty')
      as (-> & -> & -> & ->).
    cbn. by rewrite lookup_insert_ne.
Qed.

(** C4 (attempt monotonicity), as the code has it.  The counter is kept
    by question id.  In a reachable state, a submission never lowers the
    counter of an id and never takes it above 2.  For an id of the batch,
    when the batch is resolved: a stored result that is not correct raises
    the counter by one (0 to 1 with status INCORRECT_RETRY, 1 to 2 with
    status FAILED_FINAL); a correct one sets the status to CORRECT and
    leaves the counter as it was when the ids of the story are distinct;
    when two questions share the id, the counter may have been raised by
    one, by the result of the other question.  A rejected batch changes
    neither. *)
Theorem attempt_monotonicity (st : EngineState) (log : list GatewayCall)
    (id : Z) :
  reachable sd ev st ->
  let st' := (handleGlobalSubmit sd ev st log).1 in
  0 <= attempt_of st id <= attempt_of st' id /\
  attempt_of st' id <= 2 /\
  (id ∈ map q_id (questionsToEvaluate sd st) ->
   match (evaluate_batch sd ev st log).1 with
   | Resolved _ =>
       exists f,
         feedbacks st' !! id = Some f /\
         if isCorrect f then
           status_of st' id = CORRECT /\
           (attempt_of st' id = attempt_of st id \/
            attempt_of st' id = attempt_of st id + 1) /\
           (NoDup (map q_id (questions sd)) ->
            attempt_of st' id = attempt_of st id)
         else
           attempt_of st' id = attempt_of st id + 1 /\
           status_of st' id =
             (if attempt_of st id =? 0 then INCORRECT_RETRY else FAILED_FINAL)
   | Rejected =>
       attempt_of st' id = attempt_of st id /\
       status_of st' id = status_of st id
   end).
Proof.
  intros Hreach. cbn zeta.
  pose proof (reachable_consistent st Hreach) as Hc.
  pose proof (consistent_bounds st id Hc) as Hb.
  unfold handleGlobalSubmit.
  destruct (questionsToEvaluate sd st) as [|q0 qs] eqn:Hq.
  { cbn. split; [cbn in Hb; lia|]. split; [cbn in Hb; lia|]. set_solver. }
  rewrite <- Hq. clear Hq q0 qs.
  destruct (evaluate_batch sd ev st log) as [[u|] log'] eqn:E; cbn [fst];
    [|cbn; split; [cbn in Hb; lia|]; split; [cbn in Hb; lia|]; done].
  assert (Hu : (evaluate_batch sd ev st log).1 = Resolved u) by by rewrite E.
  pose proof (commit_consistent st log u Hc Hu) as Hc'.
  pose proof (consistent_bounds (commit st u) id Hc') as Hb'.
  pose proof (batch_at st log u id Hu) as H.
  destruct (decide _) as [Hin|Hnot].
  - destruct H as (e & f & _ & _ & _ & _ & Hf & Hs & Ha & Ha' & Hnd).
    pose proof Hin as [_ Ht]%candidate_id_iff.
    assert (Ea' : attempt_of (commit st u) id
                  = default 0 (newAttempts u !! id)) by reflexivity.
    assert (Es' : status_of (commit st u) id
                  = default IDLE (newStatuses u !! id)) by reflexivity.
    assert (Hopen :
      (attempt_of st id = 0 /\ attempts st !! id = None /\
       (0 <? attempt_of st id) = false) \/
      (attempt_of st id = 1 /\ attempts st !! id = Some 1 /\
       (0 <? attempt_of st id) = true)).
    { destruct (consistent_open st id Hc Ht) as [[_ Ea]|[_ Ea]];
        cbn; rewrite Ea; auto. }
    split; [|split; [lia|]].
    + split; [lia|]. rewrite Ea'.
      destruct Hopen as [(E0 & Ea & Er)|(E1 & Ea & Er)];
        rewrite Er, Ea in Ha'; rewrite ?E0, ?E1;
        destruct Ha' as [-> | ->]; cbn; lia.
    + intros _. exists f. split; [exact Hf|].
      rewrite Ea', Es', Hs. unfold next_status.
      destruct (isCorrect f) eqn:Hcf.
      * split; [done|]. split.
        -- destruct Hopen as [(E0 & Ea & Er)|(E1 & Ea & Er)];
             rewrite Er, Ea in Ha'; rewrite ?E0, ?E1;
             destruct Ha' as [-> | ->]; cbn; auto.
        -- intros Hdistinct.
           rewrite (Hnd Hdistinct eq_refl). reflexivity.
      * rewrite (Ha eq_refl).
        destruct Hopen as [(E0 & Ea & Er)|(E1 & Ea & Er)];
          rewrite Er, ?E0, ?E1; done.
  - destruct H as (Es & _ & Ea).
    assert (Ea' : attempt_of (commit st u) id = attempt_of st id).
    { cbn. by rewrite Ea. }
    split; [lia|]. split; [lia|]. done.
Qed.

(** C5 (empty answers), as the code has it.  For a question of the batch
    whose answer is blank: at attempt 0 the submission issues no gateway
    call for its id, and a resolved batch stores the local result (not
    correct, incomplete), with status INCORRECT_RETRY and attempt 1; on a
    retry a resolved batch has asked the gateway with the empty answer,
    for the first question of that id, and stores what it answered, with
    the [correctAnswer] it gave: the status is FAILED_FINAL, with attempt
    2, unless the gateway marked the empty answer correct, and then it is
    CORRECT.  A rejected batch writes nothing, and the call is not issued
    when the batch is rejected before the update loop reaches the
    question. *)
Theorem empty_answer (st : EngineState) (log : list GatewayCall)
    (q : Question) :
  q ∈ questionsToEvaluate sd st ->
  is_blank (answer_of st (q_id q)) = true ->
  let st' := (handleGlobalSubmit sd ev st log).1 in
  let log' := (handleGlobalSubmit sd ev st log).2 in
  if 0 <? attempt_of st (q_id q) then
    match (evaluate_batch sd ev st log).1 with
    | Resolved _ =>
        exists q0 n f,
          List.find (fun q' => q_id q' =? q_id q) (questions sd) = Some q0 /\
          (length log <= n)%nat /\
          log' !! n = Some {| call_question := q0; call_answer := "" |} /\
          ev n q0 "" sd = Resolved f /\
          feedbacks st' !! q_id q = Some f /\
          statuses st' !! q_id q
          = Some (if isCorrect f then CORRECT else FAILED_FINAL) /\
          (isCorrect f = false -> attempts st' !! q_id q = Some 2)
    | Rejected => st' = idle st
    end
  else
    (forall c, c ∈ drop (length log) log' ->
               q_id (call_question c) ≠ q_id q) /\
    match (evaluate_batch sd ev st log).1 with
    | Resolved _ =>
        feedbacks st' !! q_id q = Some (no_answer false) /\
        isCorrect (no_answer false) = false /\
        isIncomplete (no_answer false) = Some true /\
        statuses st' !! q_id q = Some INCORRECT_RETRY /\
        attempts st' !! q_id q = Some 1
    | Rejected => st' = idle st
    end.
Proof.
  intros Hq Hblank. cbn zeta.
  assert (Hin : q_id q ∈ map q_id (questionsToEvaluate sd st)).
  { apply list_elem_of_fmap. eauto. }
  assert (Hstate :
    match (evaluate_batch sd ev st log).1 with
    | Resolved u =>
        handleGlobalSubmit sd ev st log
        = (commit st u, (evaluate_batch sd ev st log).2) /\
        exists e f, written sd ev st log (evaluate_batch sd ev st log).2 u
                      (q_id q) e f
    | Rejected => (handleGlobalSubmit sd ev st log).1 = idle st
    end).
  { unfold handleGlobalSubmit.
    destruct (questionsToEvaluate sd st) as [|q1 qs] eqn:E; [set_solver|].
    rewrite <- E in *. clear E.
    destruct (evaluate_batch sd ev st log) as [[u|] l] eqn:E; [|done].
    split; [done|].
    assert (Hu : (evaluate_batch sd ev st log).1 = Resolved u) by by rewrite E.
    pose proof (batch_at st log u (q_id q) Hu) as H.
    rewrite decide_True in H by done. by rewrite E in H. }
  destruct (0 <? attempt_of st (q_id q)) eqn:Hretry.
  - destruct ((evaluate_batch sd ev st log).1) as [u|]; [|done].
    destruct Hstate
      as (-> & e & f & Hid & Hr & Hres & Hfin & Hf & Hs & Ha & _).
    specialize (Hres Hblank). rewrite Hretry in Hr, Hres, Hs, Ha.
    unfold final_for, forced in Hfin.
    rewrite Hid, Hblank, Hr, Hres in Hfin. cbn in Hfin.
    destruct Hfin as (q0 & n & Hfind & Hn & Hlook & Hev).
    exists q0, n, f. cbn [fst snd]. done.
  - split.
    + destruct (submit_log st log) as (calls & -> & Hcalls).
      rewrite drop_app_length. intros c Hc Heq.
      rewrite Forall_forall in Hcalls.
      destruct (Hcalls c Hc) as [(_ & Hb & _)|(_ & _ & Hr & _)];
        rewrite Heq in *; congruence.
    + destruct ((evaluate_batch sd ev st log).1) as [u|]; [|done].
      destruct Hstate as (-> & e & f & Hid & Hr & Hres & Hfin & Hf & Hs & Ha & _).
      specialize (Hres Hblank). rewrite Hretry in Hr, Hres, Hs, Ha.
      unfold final_for, forced in Hfin.
      rewrite Hr, andb_false_r in Hfin. cbn in Hfin. subst f.
      rewrite Hres in *. cbn [fst snd commit feedbacks statuses attempts].
      split; [done|]. split; [done|]. split; [done|]. split; [done|].
      by apply Ha.
Qed.

(** *** Completion *)

Lemma finishQuiz_lookup (st : EngineState) (i : nat) (q : Question) :
  questions sd !! i = Some q ->
  finishQuiz sd st !! i =
  Some {| r_question := q;
          r_userAnswer := answers st !! q_id q;
          r_isCorrect := bool_decide (statuses st !! q_id q = Some CORRECT);
          r_feedback := feedback <$> feedbacks st !! q_id q;
          r_correctAnswer := feedbacks st !! q_id q ≫= correctAnswer |}.
Proof.
  intros Hq. unfold finishQuiz.
  change (map ?f ?l) with (f <$> l). by rewrite list_lookup_fmap, Hq.
Qed.

Lemma isAllComplete_terminal (st : EngineState) (q : Question) :
  isAllComplete sd st = true ->
  q ∈ questions sd ->
  (statuses st !! q_id q = Some CORRECT \/
   statuses st !! q_id q = Some FAILED_FINAL) /\
  is_terminal (status_of st (q_id q)) = true.
Proof.
  unfold isAllComplete. rewrite forallb_forall.
  intros Hall Hq%list_elem_of_In. specialize (Hall q Hq). cbn.
  destruct (statuses st !! q_id q) as [[]|]; try done; auto.
Qed.

(** C7 (completion totality).  When [isAllComplete] holds, the compiled
    array has one result per question, in the order of the questions, the
    status of each question is CORRECT or FAILED_FINAL, and [isCorrect] of
    its result tells whether the status is CORRECT. *)
Theorem completion_totality (st : EngineState) :
  isAllComplete sd st = true ->
  length (finishQuiz sd st) = length (questions sd) /\
  map r_question (finishQuiz sd st) = questions sd /\
  forall i r,
    finishQuiz sd st !! i = Some r ->
    questions sd !! i = Some (r_question r) /\
    is_terminal (status_of st (q_id (r_question r))) = true /\
    r_isCorrect r
    = bool_decide (status_of st (q_id (r_question r)) = CORRECT).
Proof.
  intros Hall. split; [|split].
  - unfold finishQuiz. by rewrite length_map.
  - unfold finishQuiz. rewrite map_map. cbn. apply map_id.
  - intros i r Hr.
    destruct (questions sd !! i) as [q|] eqn:Hq.
    + rewrite (finishQuiz_lookup st i q Hq) in Hr. simplify_eq. cbn.
      assert (Hin : q ∈ questions sd) by (apply list_elem_of_lookup; eauto).
      destruct (isAllComplete_terminal st q Hall Hin) as [Hs Ht].
      split; [done|]. split; [exact Ht|].
      destruct Hs as [-> | ->]; cbn; [done|].
      by rewrite !bool_decide_eq_false_2.
    + apply lookup_ge_None in Hq. apply lookup_lt_Some in Hr.
      unfold finishQuiz in Hr. rewrite length_map in Hr. lia.
Qed.

(** C10 (answer never typed).  For a question whose id has no entry in the
    [answers] map, the compiled result has [userAnswer] undefined, where
    [getQuestionState] gives the empty string. *)
Theorem untyped_answer_undefined (st : EngineState) (i : nat) (q : Question) :
  questions sd !! i = Some q ->
  answers st !! q_id q = None ->
  exists r,
    finishQuiz sd st !! i = Some r /\
    r_question r = q /\
    r_userAnswer r = None /\
    answer_of st (q_id q) = "".
Proof.
  intros Hq Hans. eexists. split; [by apply finishQuiz_lookup|].
  cbn. by rewrite Hans.
Qed.

End EngineFacts.

(* ===================================================================== *)
(** * Properties of the orchestrator *)
(* ===================================================================== *)

Section AppFacts.
Import JS Types QuestionEngine App.

Lemma add_points_fold (rs : list Result) :
  forall lit inf evalScore,
  fold_left add_points rs (lit, inf, evalScore) =
  (lit + correct_of_type LITERAL rs,
   inf + correct_of_type INFERENTIAL rs,
   evalScore + correct_of_type EVALUATIVE rs).
Proof.
  unfold correct_of_type.
  induction rs as [|r rs IH]; intros lit inf evalScore; cbn [fold_left].
  - cbn. by rewrite !Z.add_0_r.
  - unfold add_points at 2. rewrite IH. cbn [List.filter].
    destruct (r_isCorrect r); cbn [andb];
      repeat match goal with
        | |- context [decide ?P] =>
            destruct (decide P);
            [try rewrite (bool_decide_eq_true_2 P) by done
            |try rewrite (bool_decide_eq_false_2 P) by done]
        end;
      cbn [length]; rewrite ?Nat2Z.inj_succ;
      (apply pair_equal_spec; split; [apply pair_equal_spec; split|]); lia.
Qed.

Lemma correct_le_count (sd : StoryData) (st : EngineState) (t : string) :
  0 <= correct_of_type t (finishQuiz sd st) <= count_type t (questions sd).
Proof.
  unfold correct_of_type, count_type, finishQuiz.
  generalize (questions sd) as qs.
  induction qs as [|q qs IH]; cbn [map List.filter length]; [lia|].
  cbn [r_question r_isCorrect].
  destruct (bool_decide (q_type q = t)); rewrite ?andb_false_r;
    [destruct (bool_decide _)|]; cbn [andb length]; lia.
Qed.

(** C8 (score aggregation and bounds).  For the results compiled from a
    story with 4 LITERAL, 4 INFERENTIAL and 2 EVALUATIVE questions,
    [calculateScores] stores, for each type, the number of correct results
    of that type, between 0 and 4, 4 and 2, and their sum, at most 10, as
    the total. *)
Theorem score_bounds (sd : StoryData) (st : EngineState)
    (generateFinalFeedback : Z -> Z -> string -> outcome string) (s : State) :
  count_type LITERAL (questions sd) = 4 ->
  count_type INFERENTIAL (questions sd) = 4 ->
  count_type EVALUATIVE (questions sd) = 2 ->
  let quizResults := finishQuiz sd st in
  let sc := finalScores (calculateScores generateFinalFeedback quizResults s) in
  sc = scores quizResults /\
  literal sc = correct_of_type LITERAL quizResults /\
  inferential sc = correct_of_type INFERENTIAL quizResults /\
  evaluative sc = correct_of_type EVALUATIVE quizResults /\
  0 <= literal sc <= 4 /\
  0 <= inferential sc <= 4 /\
  0 <= evaluative sc <= 2 /\
  total sc = literal sc + inferential sc + evaluative sc /\
  total sc <= 10.
Proof.
  intros Hl Hi He. cbn zeta.
  assert (Hsc : finalScores
                  (calculateScores generateFinalFeedback (finishQuiz sd st) s)
                = scores (finishQuiz sd st)).
  { unfold calculateScores. by destruct (generateFinalFeedback _ _ _). }
  rewrite Hsc. unfold scores. rewrite add_points_fold. cbn.
  pose proof (correct_le_count sd st LITERAL).
  pose proof (correct_le_count sd st INFERENTIAL).
  pose proof (correct_le_count sd st EVALUATIVE).
  repeat split; lia.
Qed.

Lemma step_keeps_scores
    (generateAssessment : string -> outcome StoryData)
    (generateFinalFeedback : Z -> Z -> string -> outcome string)
    (s : State) (ev : Event) :
  is_Complete ev = false ->
  finalScores (step generateAssessment generateFinalFeedback s ev)
  = finalScores s /\
  finalFeedback (step generateAssessment generateFinalFeedback s ev)
  = finalFeedback s.
Proof.
  destruct ev as [v|v| |b f| |rs| |c]; cbn; try done.
  - unfold handleLogin. by destruct (_ && _).
  - unfold startAssessment. by destruct (generateAssessment b).
  - by destruct c.
Qed.

Lemma steps_keep_scores
    (generateAssessment : string -> outcome StoryData)
    (generateFinalFeedback : Z -> Z -> string -> outcome string)
    (evs : list Event) :
  forall s,
  forallb (fun ev => negb (is_Complete ev)) evs = true ->
  finalScores (fold_left (step generateAssessment generateFinalFeedback) evs s)
  = finalScores s /\
  finalFeedback (fold_left (step generateAssessment generateFinalFeedback) evs s)
  = finalFeedback s.
Proof.
  induction evs as [|ev evs IH]; intros s Hall; [done|].
  cbn in Hall. apply andb_true_iff in Hall as [Hev%negb_true_iff Hall].
  cbn [fold_left].
  destruct (IH (step generateAssessment generateFinalFeedback s ev) Hall)
    as [-> ->].
  by apply step_keeps_scores.
Qed.

(** C9 (quit keeps the last scores).  The confirmed quit clears the user
    info, the story and the results and goes to LOGIN; the final scores and
    the final feedback stay as they were, and so they do through whatever
    happens next, until [calculateScores] runs again: it stores the scores
    of the new results and, once the gateway has answered, the new
    feedback. *)
Theorem quit_keeps_scores
    (generateAssessment : string -> outcome StoryData)
    (generateFinalFeedback : Z -> Z -> string -> outcome string)
    (s : State) :
  let s' := handleQuit true s in
  appState s' = LOGIN /\
  userInfo s' = {| firstName := ""; lastName := "" |} /\
  storyData s' = None /\
  results s' = [] /\
  finalScores s' = finalScores s /\
  finalFeedback s' = finalFeedback s /\
  (forall evs,
     forallb (fun ev => negb (is_Complete ev)) evs = true ->
     let s'' := fold_left (step generateAssessment generateFinalFeedback)
                          evs s' in
     finalScores s'' = finalScores s /\
     finalFeedback s'' = finalFeedback s /\
     forall quizResults,
       let s3 := calculateScores generateFinalFeedback quizResults s'' in
       finalScores s3 = scores quizResults /\
       match generateFinalFeedback (total (scores quizResults)) 10
               (firstName (userInfo s'')) with
       | Resolved feedbackText => finalFeedback s3 = feedbackText
       | Rejected => finalFeedback s3 = finalFeedback s
       end) /\
  handleQuit false s = s.
Proof.
  cbn zeta. repeat (split; [reflexivity|]). split; [|reflexivity].
  intros evs Hall.
  destruct (steps_keep_scores generateAssessment generateFinalFeedback evs
              (handleQuit true s) Hall) as [Hs Hf].
  split; [exact Hs|]. split; [exact Hf|].
  intros quizResults. unfold calculateScores. cbn.
  destruct (generateFinalFeedback _ _ _); cbn; [done|].
  split; [done|]. exact Hf.
Qed.

End AppFacts.

(* ===================================================================== *)
(** * Properties of the gateway *)
(* ===================================================================== *)

Section GatewayFacts.
Import JS Types GeminiService.

Variable JSON_parse : string -> option json.
Variable generateContent : Request -> outcome (option Response).

Lemma assoc_set_same (k : string) (v : json) (fields : list (string * json)) :
  assoc k (assoc_set k v fields) = Some v.
Proof.
  induction fields as [|[k' v'] fields IH]; cbn.
  - by rewrite decide_True.
  - destruct (decide (k' = k)) as [->|Hne]; cbn.
    + by rewrite decide_True.
    + by rewrite decide_False.
Qed.


Lemma get_set_same (k : string) (v o o' : json) :
  set k v o = Resolved o' -> get k o' = Some v.
Proof.
  destruct o; cbn; intros; simplify_eq; cbn; apply assoc_set_same.
Qed.



Lemma content_missing_false (parsed : json) :
  content_missing parsed = Resolved false ->
  exists c, get "content" parsed = Some (JStr c) /\
            truthy_string c = true /\
            truthy_string (trim c) = true.
Proof.
  intros H.
  assert (Hcase :
    match get "content" parsed with
    | Some (JStr s) =>
        Resolved (negb (truthy_string s) || negb (truthy_string (trim s)))
    | c => if truthy c then Rejected else @Resolved bool true
    end = Resolved false).
  { destruct parsed; done || exact H. }
  clear H.
  destruct (get "content" parsed) as [[|b|q|s|l p|f]|]; cbn in Hcase;
    try done; try (destruct b; done); try (destruct (negb _); done).
  exists s. split; [done|].
  injection Hcase as Hcase.
  apply orb_false_iff in Hcase as [H1%negb_false_iff H2%negb_false_iff].
  done.
Qed.



(** *** [evaluateAnswer] *)

Lemma evaluateAnswer_cases (question : Question) (studentAnswer : string)
    (story : StoryData) :
  evaluateAnswer JSON_parse generateContent question studentAnswer story =
  match generateContent
          (EvaluationRequest (content story) (q_text question) studentAnswer)
  with
  | Rejected => Rejected
  | Resolved response =>
      Resolved
        (default technical_result
           (JSON_parse (extractTextFromResponse response) ≫= normalize))
  end.
Proof.
  unfold evaluateAnswer. destruct (generateContent _) as [response|]; [|done].
  destruct (JSON_parse _) as [parsed|]; [|done]. cbn.
  by destruct (normalize parsed).
Qed.

(** C2, as the code has it, copy by copy.  In the last copy (lines
    606-708) a transport error is not caught: the promise is rejected.
    Once the client has answered, [evaluateAnswer] resolves, and when the
    text does not parse (or parses to [null]) the result is the neutral
    one: not correct, the fixed kind message, and an empty
    [correctAnswer].  In the first copy (lines 106-157) a transport error
    rejects the promise too; a text that does not parse gives that copy's
    neutral result, and whatever parses is returned as it is, [null]
    included.  Only the second copy (lines 321-435) catches the transport
    error: it never rejects. *)
Theorem evaluateAnswer_outcomes (question : Question) (studentAnswer : string)
    (story : StoryData) :
  let request :=
    EvaluationRequest (content story) (q_text question) studentAnswer in
  let result :=
    evaluateAnswer JSON_parse generateContent question studentAnswer story in
  let result_1 :=
    OtherCopies.evaluateAnswer_1 JSON_parse generateContent
      question studentAnswer story in
  let result_2 :=
    OtherCopies.evaluateAnswer_2 JSON_parse generateContent
      question studentAnswer story in
  (generateContent request = Rejected -> result = Rejected) /\
  (forall response,
     generateContent request = Resolved response ->
     (exists r, result = Resolved r) /\
     (JSON_parse (extractTextFromResponse response) = None \/
      JSON_parse (extractTextFromResponse response) = Some JNull ->
      result = Resolved technical_result)) /\
  isCorrect technical_result = false /\
  feedback technical_result = technical_feedback /\
  correctAnswer technical_result = Some "" /\
  (generateContent request = Rejected -> result_1 = Rejected) /\
  (forall response,
     generateContent request = Resolved response ->
     (JSON_parse (extractTextFromResponse response) = None ->
      result_1 = Resolved OtherCopies.not_understood_1) /\
     (forall parsed,
        JSON_parse (extractTextFromResponse response) = Some parsed ->
        result_1 = Resolved parsed)) /\
  get "isCorrect" OtherCopies.not_understood_1 = Some (JBool false) /\
  get "correctAnswer" OtherCopies.not_understood_1 = Some (JStr "") /\
  (exists r, result_2 = Resolved r) /\
  (generateContent request = Rejected ->
   result_2 = Resolved OtherCopies.small_error_2) /\
  isCorrect OtherCopies.small_error_2 = false /\
  correctAnswer OtherCopies.small_error_2 = Some "".
Proof.
  cbn zeta. rewrite evaluateAnswer_cases.
  split; [by intros ->|].
  split.
  { intros response ->. split; [eauto|]. by intros [-> | ->]. }
  split; [done|]. split; [done|]. split; [done|].
  unfold OtherCopies.evaluateAnswer_1, OtherCopies.evaluateAnswer_2.
  split; [by intros ->|].
  split.
  { intros response ->. split; [by intros ->|]. by intros parsed ->. }
  split; [done|]. split; [done|].
  split.
  { destruct (generateContent _) as [[response|]|]; [|eauto..].
    destruct (JSON_parse _) as [[]|]; eauto. }
  split; [by intros ->|]. done.
Qed.

(** *** The refusal test and the case of the letters *)

Lemma toLowerCase_agree (n : nat) :
  forall s, (String.length s <= n)%nat -> agree s (toLowerCase s).
Proof.
  induction n as [|n IH]; intros [|a r] Hlen; cbn in Hlen; try done; [lia|].
  cbn [toLowerCase]. destruct (code a =? 195)%N.
  - destruct r as [|b r2]; [done|]. cbn in Hlen. cbn [agree].
    split; [done|]. split.
    + unfold stable. intros [_ H]%andb_true_iff. by apply bool_decide_eq_true in H.
    + destruct n as [|n]; [lia|]. apply IH, Nat.le_le_succ_r. lia.
  - cbn [agree]. split.
    + unfold stable. intros [H _]%andb_true_iff. by apply bool_decide_eq_true in H.
    + apply IH. lia.
Qed.

Lemma agree_prefix (p : string) :
  forall s t,
  all_stable p = true -> agree s t ->
  String.prefix p s = true -> String.prefix p t = true.
Proof.
  induction p as [|a p IH]; intros s t Hp Hst; [by destruct t|].
  cbn in Hp. apply andb_true_iff in Hp as [Ha Hp].
  destruct s as [|b s], t as [|c t]; cbn in Hst |- *; try done.
  destruct Hst as [Hb Hst].
  destruct (ascii_dec a b) as [<-|]; [|done].
  rewrite (Hb Ha). destruct (ascii_dec a a); [|done]. by apply (IH s t).
Qed.

Lemma agree_includes (p : string) :
  all_stable p = true ->
  forall s t, agree s t -> includes s p = true -> includes t p = true.
Proof.
  intros Hp. induction s as [|a s IH]; intros [|b t] Hst; try done.
  cbn [includes]. intros [H|H]%orb_true_iff; apply orb_true_iff.
  - left. by apply (agree_prefix p (String a s) (String b t)).
  - right. destruct Hst as [_ Hst]. by apply (IH t).
Qed.

Lemma includes_toLowerCase (p s : string) :
  all_stable p = true ->
  includes s p = true -> includes (toLowerCase s) p = true.
Proof.
  intros Hp. apply agree_includes; [done|].
  by apply (toLowerCase_agree (String.length s)).
Qed.

(** An answer that passes the refusal test as it is written also passes
    it in lower case. *)
Lemma is_refusal_toLowerCase (s : string) :
  is_refusal s = true -> is_refusal (toLowerCase s) = true.
Proof.
  unfold is_refusal.
  intros [H|[[H1 H2]%andb_true_iff [H3|H3]%orb_true_iff]%andb_true_iff]
    %orb_true_iff.
  - apply includes_toLowerCase in H; [|reflexivity]. by rewrite H.
  - apply includes_toLowerCase in H1; [|reflexivity].
    apply includes_toLowerCase in H2; [|reflexivity].
    apply includes_toLowerCase in H3; [|reflexivity].
    rewrite H1, H2, H3. by rewrite orb_true_r.
  - apply includes_toLowerCase in H1; [|reflexivity].
    apply includes_toLowerCase in H2; [|reflexivity].
    apply includes_toLowerCase in H3; [|reflexivity].
    rewrite H1, H2, H3. by rewrite !orb_true_r.
Qed.

Lemma sanitized_last_copy (question : Question) (studentAnswer : string)
    (story : StoryData) (response : option Response) (parsed : json) :
  generateContent
    (EvaluationRequest (content story) (q_text question) studentAnswer)
  = Resolved response ->
  JSON_parse (extractTextFromResponse response) = Some parsed ->
  exists r c,
    evaluateAnswer JSON_parse generateContent question studentAnswer story
    = Resolved r /\
    correctAnswer r = Some c /\
    is_refusal (toLowerCase c) = false /\
    is_refusal c = false /\
    forall s,
      get "correctAnswer" parsed = Some (JStr s) ->
      if is_refusal (toLowerCase (trim s)) then
        c = "" /\
        (truthy (get "feedback" parsed) = false ->
         feedback r = neutral_feedback)
      else c = trim s.
Proof.
  intros Hgc Hparse. rewrite evaluateAnswer_cases, Hgc, Hparse. cbn [mbind option_bind].
  assert (Hweak : forall c, is_refusal (toLowerCase c) = false ->
                            is_refusal c = false).
  { intros c Hc. destruct (is_refusal c) eqn:E; [|done].
    by rewrite (is_refusal_toLowerCase c E) in Hc. }
  destruct parsed as [|b|q|s0|l pr|fs]; cbn [normalize default];
    try (eexists _, _; split; [reflexivity|]; cbn;
         split; [reflexivity|]; split; [done|]; split; [done|];
         intros s Hs; cbn in Hs; done).
  - set (o := JArr l pr). eexists _, _. split; [reflexivity|].
    cbn [correctAnswer feedback]. split; [reflexivity|].
    destruct (get "correctAnswer" o) as [[| | |s| |]|] eqn:Hca;
      try (split; [done|]; split; [done|]; intros s' Hs'; done).
    destruct (is_refusal (toLowerCase (trim s))) eqn:Href.
    + split; [done|]. split; [done|]. intros s' [= <-]. rewrite Href.
      split; [done|]. by intros ->.
    + split; [done|]. split; [by apply Hweak|]. intros s' [= <-].
      by rewrite Href.
  - set (o := JObj fs). eexists _, _. split; [reflexivity|].
    cbn [correctAnswer feedback]. split; [reflexivity|].
    destruct (get "correctAnswer" o) as [[| | |s| |]|] eqn:Hca;
      try (split; [done|]; split; [done|]; intros s' Hs'; done).
    destruct (is_refusal (toLowerCase (trim s))) eqn:Href.
    + split; [done|]. split; [done|]. intros s' [= <-]. rewrite Href.
      split; [done|]. by intros ->.
    + split; [done|]. split; [by apply Hweak|]. intros s' [= <-].
      by rewrite Href.
Qed.

(** C6 (sanitization), copy by copy.  In the last copy (lines 606-708),
    when the model's text parses, the [correctAnswer] of the result does
    not pass the refusal test, neither as it is written nor in lower case;
    when the model's (trimmed, lower-cased) answer does, the result
    carries the empty string, and the neutral feedback if the model gave
    no feedback; otherwise it carries the model's answer, trimmed.  The
    first copy (lines 106-157) returns the parsed value as it is, and the
    second (lines 321-435) copies the model's [correctAnswer] as written:
    in both a refusal of the model reaches the caller. *)
Theorem sanitized_correctAnswer (question : Question) (studentAnswer : string)
    (story : StoryData) (response : option Response) (parsed : json) :
  generateContent
    (EvaluationRequest (content story) (q_text question) studentAnswer)
  = Resolved response ->
  JSON_parse (extractTextFromResponse response) = Some parsed ->
  (exists r c,
     evaluateAnswer JSON_parse generateContent question studentAnswer story
     = Resolved r /\
     correctAnswer r = Some c /\
     is_refusal (toLowerCase c) = false /\
     is_refusal c = false /\
     forall s,
       get "correctAnswer" parsed = Some (JStr s) ->
       if is_refusal (toLowerCase (trim s)) then
         c = "" /\
         (truthy (get "feedback" parsed) = false ->
          feedback r = neutral_feedback)
       else c = trim s) /\
  (OtherCopies.evaluateAnswer_1 JSON_parse generateContent
     question studentAnswer story = Resolved parsed /\
   forall s,
     get "correctAnswer" parsed = Some (JStr s) ->
     exists v,
       OtherCopies.evaluateAnswer_1 JSON_parse generateContent
         question studentAnswer story = Resolved v /\
       get "correctAnswer" v = Some (JStr s)) /\
  (forall response_2 parsed_2 s,
     response = Some response_2 ->
     JSON_parse
       match output_text response_2 with
       | Some t => t
       | None => default "{}" (candidate_text response_2)
       end = Some parsed_2 ->
     get "correctAnswer" parsed_2 = Some (JStr s) ->
     exists r,
       OtherCopies.evaluateAnswer_2 JSON_parse generateContent
         question studentAnswer story = Resolved r /\
       correctAnswer r = Some s).
Proof.
  intros Hgc Hparse.
  split; [exact (sanitized_last_copy _ _ _ response parsed Hgc Hparse)|].
  unfold OtherCopies.evaluateAnswer_1, OtherCopies.evaluateAnswer_2.
  rewrite Hgc, Hparse. split; [split; [done|eauto]|].
  intros response_2 parsed_2 s -> -> Hs.
  destruct parsed_2; try done; eexists; (split; [reflexivity|]); cbn;
    cbn [get] in Hs; by rewrite Hs.
Qed.

(** *** The other copies *)

(** The second copy never rejects: a transport error and a missing response
    give its neutral result. *)
Lemma evaluateAnswer_2_resolves (question : Question) (studentAnswer : string)
    (story : StoryData) :
  (exists r,
     OtherCopies.evaluateAnswer_2 JSON_parse generateContent
       question studentAnswer story = Resolved r) /\
  (generateContent
     (EvaluationRequest (content story) (q_text question) studentAnswer)
   = Rejected ->
   OtherCopies.evaluateAnswer_2 JSON_parse generateContent
     question studentAnswer story = Resolved OtherCopies.small_error_2).
Proof.
  unfold OtherCopies.evaluateAnswer_2.
  destruct (generateContent _) as [[response|]|]; [|eauto..].
  split; [|done].
  destruct (JSON_parse _) as [[]|]; eauto.
Qed.

(** The first copy rejects on a transport error, and hands over what
    parses as it is. *)
Lemma evaluateAnswer_1_cases (question : Question) (studentAnswer : string)
    (story : StoryData) :
  OtherCopies.evaluateAnswer_1 JSON_parse generateContent
    question studentAnswer story =
  match generateContent
          (EvaluationRequest (content story) (q_text question) studentAnswer)
  with
  | Rejected => Rejected
  | Resolved response =>
      Resolved (default OtherCopies.not_understood_1
                  (JSON_parse (extractTextFromResponse response)))
  end.
Proof.
  unfold OtherCopies.evaluateAnswer_1.
  destruct (generateContent _) as [response|]; [|done].
  by destruct (JSON_parse _).
Qed.

End GatewayFacts.

(* ===================================================================== *)
(** * The scripted session *)
(* ===================================================================== *)

Section SessionFacts.
Import JS Types GeminiService QuestionEngine Session.

Local Abbreviation status_of st id := (st_status (getQuestionState st id)).
Local Abbreviation answer_of st id := (st_answer (getQuestionState st id)).
Local Abbreviation attempt_of st id := (st_attempt (getQuestionState st id)).

(** The first submission asks the gateway about the two answers typed, and
    leaves question 1 correct and the others to retry. *)
Example first_submit_trace :
  after_first_submit.2
  = [ {| call_question := question 1 LITERAL; call_answer := "oui" |};
      {| call_question := question 2 LITERAL; call_answer := "non" |} ] /\
  map (fun q => (status_of after_first_submit.1 (q_id q),
                 attempt_of after_first_submit.1 (q_id q)))
      (questions story)
  = (CORRECT, 0) :: replicate 9 (INCORRECT_RETRY, 1).
Proof. split; vm_compute; reflexivity. Qed.

(** The second submission asks about question 2 again, then about the
    eight blank answers, and leaves every question terminal. *)
Example second_submit_trace :
  length after_second_submit.2 = 11%nat /\
  map (fun q => (status_of after_second_submit.1 (q_id q),
                 attempt_of after_second_submit.1 (q_id q)))
      (questions story)
  = (CORRECT, 0) :: replicate 9 (FAILED_FINAL, 2) /\
  isAllComplete story after_second_submit.1 = true.
Proof. repeat split; vm_compute; reflexivity. Qed.

Example complete_story_invariants : story_invariants complete_story = true.
Proof. vm_compute. reflexivity. Qed.

Example parse_values :
  JSON.parse (JSON.quoted "['été', '\u00e9t\u00E9 \ud83d\ude0a', -12.5e1, 0.25]")
  = Some (JArr [JStr "été"; JStr "été 😊"; JNum (-125); JNum (1 # 4)] []) /\
  JSON.parse (JSON.quoted "{'a': 1, 'b': [true, null], 'a': 2}")
  = Some (JObj [("a", JNum 2); ("b", JArr [JBool true; JNull] [])]) /\
  JSON.parse "Désolé" = None /\
  JSON.parse (JSON.quoted "{'a': 01}") = None.
Proof. repeat split; vm_compute; reflexivity. Qed.

Example cleanBase64_data_url :
  cleanBase64 "data:image/png;base64,AAAA" = "AAAA" /\
  cleanBase64 "AAAA" = "AAAA".
Proof. split; vm_compute; reflexivity. Qed.

(** In the first copy, the refusal of the scripted model reaches the
    pupil: [correctAnswer] is returned as the model wrote it. *)
Example first_copy_keeps_refusal :
  exists v,
    OtherCopies.evaluateAnswer_1 JSON.parse (scripted_model 0)
      (question 1 LITERAL) "?" story = Resolved v /\
    get "correctAnswer" v
    = Some (JStr " Je ne peux pas répondre sans le texte. ").
Proof. eexists. split; vm_compute; reflexivity. Qed.

(** In the second copy, the failed transport gives the neutral result. *)
Example second_copy_catches_transport :
  OtherCopies.evaluateAnswer_2 JSON.parse (scripted_model 0)
    (question 1 LITERAL) "#" story
  = Resolved OtherCopies.small_error_2.
Proof. reflexivity. Qed.

(** *** The theorems above, at the scripted session *)

Lemma terminal_absorption_witness :
  let st := after_first_submit.1 in
  let st' :=
    (handleGlobalSubmit story scripted_gateway st after_first_submit.2).1 in
  is_terminal (status_of st 1) = true /\
  answers st' !! 1 = answers st !! 1 /\
  statuses st' !! 1 = statuses st !! 1 /\
  feedbacks st' !! 1 = feedbacks st !! 1 /\
  attempts st' !! 1 = attempts st !! 1.
Proof.
  assert (H : is_terminal (status_of after_first_submit.1 1) = true)
    by (vm_compute; reflexivity).
  split; [exact H|].
  exact (proj2 (proj2 (terminal_absorption story scripted_gateway
                         after_first_submit.1 after_first_submit.2 1 H))).
Defined.

Lemma attempt_monotonicity_witness :
  let st0 := handleAnswerChange 2 "non" (handleAnswerChange 1 "oui" initial) in
  let st := after_first_submit.1 in
  let st' :=
    (handleGlobalSubmit story scripted_gateway st after_first_submit.2).1 in
  NoDup (map q_id (questions story)) /\
  reachable story scripted_gateway st0 /\
  (exists f,
     feedbacks st !! 1 = Some f /\ isCorrect f = true /\
     status_of st 1 = CORRECT /\
     attempt_of st 1 = attempt_of st0 1) /\
  reachable story scripted_gateway st /\
  0 <= attempt_of st 2 <= attempt_of st' 2 /\
  attempt_of st' 2 <= 2 /\
  exists f,
    feedbacks st' !! 2 = Some f /\ isCorrect f = false /\
    attempt_of st' 2 = attempt_of st 2 + 1 /\
    status_of st' 2 = FAILED_FINAL.
Proof.
  cbn zeta.
  assert (Hnd : NoDup (map q_id (questions story))).
  { apply (bool_decide_unpack _). vm_compute. exact I. }
  set (st0 := handleAnswerChange 2 "non" (handleAnswerChange 1 "oui" initial)).
  assert (Hreach0 : reachable story scripted_gateway st0).
  { repeat constructor. }
  assert (Hreach : reachable story scripted_gateway after_first_submit.1).
  { apply run_reachable. constructor. }
  split; [exact Hnd|]. split; [exact Hreach0|]. split.
  { destruct (attempt_monotonicity story scripted_gateway st0 [] 1 Hreach0)
      as (_ & _ & H3).
    assert (Hin : 1 ∈ map q_id (questionsToEvaluate story st0)).
    { apply list_elem_of_In. vm_compute. tauto. }
    specialize (H3 Hin). revert H3.
    destruct ((evaluate_batch story scripted_gateway st0 []).1)
      as [u|] eqn:E; [|vm_compute in E; discriminate E].
    intros (f & Hf & Hrest). exists f.
    change (handleGlobalSubmit story scripted_gateway st0 [])
      with after_first_submit in Hf, Hrest.
    split; [exact Hf|].
    assert (Hc : isCorrect f = true).
    { vm_compute in Hf. injection Hf as <-. reflexivity. }
    rewrite Hc in Hrest. split; [exact Hc|].
    destruct Hrest as (Hs & _ & Ha). split; [exact Hs|exact (Ha Hnd)]. }
  split; [exact Hreach|].
  destruct (attempt_monotonicity story scripted_gateway after_first_submit.1
              after_first_submit.2 2 Hreach) as (H1 & H2 & H3).
  split; [exact H1|]. split; [exact H2|].
  assert (Hin : 2 ∈ map q_id (questionsToEvaluate story after_first_submit.1)).
  { apply list_elem_of_In. vm_compute. tauto. }
  specialize (H3 Hin). revert H3.
  destruct ((evaluate_batch story scripted_gateway after_first_submit.1
               after_first_submit.2).1) as [u|] eqn:E;
    [|vm_compute in E; discriminate E].
  intros (f & Hf & Hrest). exists f. split; [exact Hf|].
  assert (Hc : isCorrect f = false).
  { vm_compute in Hf. injection Hf as <-. reflexivity. }
  rewrite Hc in Hrest. split; [exact Hc|].
  destruct Hrest as [Ha Hs]. split; [exact Ha|]. exact Hs.
Defined.

(** C4 does not hold as stated when two questions share an id.  The pupil
    answers; the gateway finds the answer wrong for the first question and
    right for the second: the stored result is the correct one and the
    status CORRECT, and the counter has gone from 0 to 1. *)
Lemma shared_id_counter_moves :
  let gw := gateway JSON.parse by_question_model in
  let st := handleAnswerChange 1 "Magellan" initial in
  let st' := (handleGlobalSubmit shared_id_story gw st []).1 in
  map q_id (questions shared_id_story) = [1; 1] /\
  (exists f, feedbacks st' !! 1 = Some f /\ isCorrect f = true) /\
  statuses st' !! 1 = Some CORRECT /\
  attempt_of st 1 = 0 /\
  attempt_of st' 1 = 1 /\
  attempt_of st' 1 ≠ attempt_of st 1.
Proof.
  cbn zeta. split; [reflexivity|]. split; [eexists; split|];
    repeat split; vm_compute; (reflexivity || discriminate).
Qed.

(** C5 does not hold as stated.  With a client that marks every answer
    correct, a sheet left blank twice ends with question 1 CORRECT, not
    FAILED_FINAL, and scores the point.  With a client whose transport
    fails, the second submission of a blank sheet asks about question 1
    only: the batch is rejected there, question 2, blank on its retry,
    causes no call, and nothing is written. *)
Lemma empty_retry_not_final :
  let lenient :=
    run story (gateway JSON.parse lenient_model) [Submit; Submit]
      (initial, []) in
  let offline :=
    run story (gateway JSON.parse offline_model) [Submit; Submit]
      (initial, []) in
  answers lenient.1 !! 1 = None /\
  statuses lenient.1 !! 1 = Some CORRECT /\
  statuses lenient.1 !! 1 ≠ Some FAILED_FINAL /\
  total (App.scores (finishQuiz story lenient.1)) = 10 /\
  offline.2 = [ {| call_question := question 1 LITERAL; call_answer := "" |} ] /\
  answers offline.1 !! 2 = None /\
  attempts offline.1 !! 2 = Some 1 /\
  statuses offline.1 !! 2 = Some INCORRECT_RETRY /\
  feedbacks offline.1 !! 2 = Some (no_answer false).
Proof.
  cbn zeta. repeat split; vm_compute; (reflexivity || discriminate).
Qed.

Lemma empty_answer_witness :
  let q := question 3 LITERAL in
  let st0 := handleAnswerChange 2 "non" (handleAnswerChange 1 "oui" initial) in
  let log1 := (handleGlobalSubmit story scripted_gateway st0 []).2 in
  let st1 := after_first_submit.1 in
  let st2 :=
    (handleGlobalSubmit story scripted_gateway st1 after_first_submit.2).1 in
  let log2 :=
    (handleGlobalSubmit story scripted_gateway st1 after_first_submit.2).2 in
  (q ∈ questionsToEvaluate story st0 /\ is_blank (answer_of st0 3) = true /\
   attempt_of st0 3 = 0 /\
   forall c, c ∈ log1 -> q_id (call_question c) ≠ 3) /\
  (q ∈ questionsToEvaluate story st1 /\ is_blank (answer_of st1 3) = true /\
   attempt_of st1 3 = 1 /\
   exists q0 n f,
     List.find (fun q' => q_id q' =? 3) (questions story) = Some q0 /\
     (length after_first_submit.2 <= n)%nat /\
     log2 !! n = Some {| call_question := q0; call_answer := "" |} /\
     scripted_gateway n q0 "" story = Resolved f /\
     feedbacks st2 !! 3 = Some f /\
     statuses st2 !! 3 = Some (if isCorrect f then CORRECT else FAILED_FINAL) /\
     (isCorrect f = false -> attempts st2 !! 3 = Some 2)).
Proof.
  cbn zeta. split.
  - set (st0 := handleAnswerChange 2 "non" (handleAnswerChange 1 "oui" initial)).
    assert (Hin : question 3 LITERAL ∈ questionsToEvaluate story st0).
    { apply list_elem_of_In. vm_compute. tauto. }
    assert (Hblank : is_blank (answer_of st0 3) = true)
      by (vm_compute; reflexivity).
    split; [exact Hin|]. split; [exact Hblank|]. split; [reflexivity|].
    exact (proj1 (empty_answer story scripted_gateway st0 []
                    (question 3 LITERAL) Hin Hblank)).
  - assert (Hin : question 3 LITERAL
                  ∈ questionsToEvaluate story after_first_submit.1).
    { apply list_elem_of_In. vm_compute. tauto. }
    assert (Hblank : is_blank (answer_of after_first_submit.1 3) = true)
      by (vm_compute; reflexivity).
    split; [exact Hin|]. split; [exact Hblank|].
    split; [vm_compute; reflexivity|].
    pose proof (empty_answer story scripted_gateway after_first_submit.1
                  after_first_submit.2 (question 3 LITERAL) Hin Hblank) as H.
    cbn zeta in H.
    assert (Hretry : (0 <? attempt_of after_first_submit.1
                             (q_id (question 3 LITERAL))) = true)
      by (vm_compute; reflexivity).
    rewrite Hretry in H. revert H.
    destruct ((evaluate_batch story scripted_gateway after_first_submit.1
                 after_first_submit.2).1) as [u|] eqn:E;
      [|vm_compute in E; discriminate E].
    intros H. exact H.
Defined.

Lemma sanitized_correctAnswer_witness :
  let q := question 1 LITERAL in
  (exists r,
     scripted_gateway 0 q "?" story = Resolved r /\
     correctAnswer r = Some "" /\
     feedback r = neutral_feedback) /\
  (exists v,
     OtherCopies.evaluateAnswer_1 JSON.parse (scripted_model 0) q "?" story
     = Resolved v /\
     get "correctAnswer" v
     = Some (JStr " Je ne peux pas répondre sans le texte. ")).
Proof.
  cbn zeta.
  destruct (sanitized_correctAnswer JSON.parse (scripted_model 0)
              (question 1 LITERAL) "?" story _ _ eq_refl
              ltac:(vm_compute; reflexivity))
    as ((r & c & Hr & Hc & _ & _ & Hs) & (_ & H1) & _).
  split.
  - specialize (Hs " Je ne peux pas répondre sans le texte. " eq_refl).
    assert (Href : is_refusal
                     (toLowerCase
                        (trim " Je ne peux pas répondre sans le texte. "))
                   = true) by (vm_compute; reflexivity).
    rewrite Href in Hs. destruct Hs as [-> Hf].
    exists r. split; [exact Hr|]. split; [exact Hc|].
    apply Hf. reflexivity.
  - exact (H1 " Je ne peux pas répondre sans le texte. " eq_refl).
Defined.

(** C6 does not hold of the first copy (lines 106-157): the refusal of the
    scripted model is returned as the model wrote it, and it passes the
    refusal test of the last copy. *)
Lemma first_copy_unsanitized :
  exists v s,
    OtherCopies.evaluateAnswer_1 JSON.parse (scripted_model 0)
      (question 1 LITERAL) "?" story = Resolved v /\
    get "correctAnswer" v = Some (JStr s) /\
    includes (toLowerCase s) "je ne peux pas répondre" = true /\
    is_refusal (toLowerCase (trim s)) = true /\
    s ≠ "".
Proof.
  eexists _, _. split; [vm_compute; reflexivity|].
  split; [reflexivity|]. repeat split; vm_compute; (reflexivity || discriminate).
Qed.

Lemma completion_totality_witness :
  isAllComplete story after_second_submit.1 = true /\
  length (finishQuiz story after_second_submit.1) = 10%nat /\
  map r_question (finishQuiz story after_second_submit.1) = questions story.
Proof.
  assert (H : isAllComplete story after_second_submit.1 = true)
    by (vm_compute; reflexivity).
  split; [exact H|].
  destruct (completion_totality story after_second_submit.1 H)
    as (Hlen & Hmap & _).
  split; [exact Hlen|exact Hmap].
Defined.

Lemma untyped_answer_undefined_witness :
  questions story !! 2%nat = Some (question 3 LITERAL) /\
  answers after_second_submit.1 !! 3 = None /\
  isAllComplete story after_second_submit.1 = true /\
  exists r,
    finishQuiz story after_second_submit.1 !! 2%nat = Some r /\
    r_userAnswer r = None.
Proof.
  assert (Hq : questions story !! 2%nat = Some (question 3 LITERAL))
    by reflexivity.
  assert (Ha : answers after_second_submit.1 !! q_id (question 3 LITERAL)
               = None) by (vm_compute; reflexivity).
  split; [exact Hq|]. split; [exact Ha|].
  split; [vm_compute; reflexivity|].
  destruct (untyped_answer_undefined story after_second_submit.1 2%nat
              (question 3 LITERAL) Hq Ha) as (r & Hr & _ & Hu & _).
  exists r. split; [exact Hr|exact Hu].
Defined.

Lemma score_bounds_witness :
  let sc := App.scores (finishQuiz story after_second_submit.1) in
  App.count_type LITERAL (questions story) = 4 /\
  App.count_type INFERENTIAL (questions story) = 4 /\
  App.count_type EVALUATIVE (questions story) = 2 /\
  0 <= literal sc <= 4 /\ 0 <= inferential sc <= 4 /\
  0 <= evaluative sc <= 2 /\
  total sc = literal sc + inferential sc + evaluative sc /\ total sc <= 10.
Proof.
  cbn zeta.
  assert (Hl : App.count_type LITERAL (questions story) = 4) by reflexivity.
  assert (Hi : App.count_type INFERENTIAL (questions story) = 4)
    by reflexivity.
  assert (He : App.count_type EVALUATIVE (questions story) = 2)
    by reflexivity.
  split; [exact Hl|]. split; [exact Hi|]. split; [exact He|].
  destruct (score_bounds story after_second_submit.1
              (fun _ _ _ => Rejected) App.initial Hl Hi He)
    as (Hsc & _ & _ & _ & H).
  rewrite Hsc in H. exact H.
Defined.

Lemma quit_keeps_scores_witness :
  let s' := App.handleQuit true finished_session in
  App.appState s' = LOGIN /\
  App.results s' = [] /\
  App.finalScores s'
  = {| literal := 1; inferential := 0; evaluative := 0; total := 1 |} /\
  App.finalFeedback s' = "Bravo pour ton travail !" /\
  App.finalScores
    (fold_left (App.step (fun _ => Rejected) (fun _ _ _ => Rejected))
       [App.ChangeFirstName "Lina"; App.ChangeLastName "Idrissi"; App.Login;
        App.Upload "AAAA" "data:image/png;base64,AAAA"] s')
  = {| literal := 1; inferential := 0; evaluative := 0; total := 1 |}.
Proof.
  cbn zeta.
  destruct (quit_keeps_scores (fun _ => Rejected) (fun _ _ _ => Rejected)
              finished_session)
    as (H1 & _ & _ & H4 & H5 & H6 & H7 & _).
  split; [exact H1|]. split; [exact H4|]. split; [exact H5|].
  split; [exact H6|].
  exact (proj1 (H7 [App.ChangeFirstName "Lina"; App.ChangeLastName "Idrissi";
                    App.Login; App.Upload "AAAA" "data:image/png;base64,AAAA"]
                   eq_refl)).
Defined.



(** C2 does not hold as stated: when the transport fails, the promise of
    [evaluateAnswer] is rejected, in the last copy as in the first, and the
    batch of the engine with it; the engine then writes nothing. *)
Lemma evaluateAnswer_rejects :
  scripted_model 0
    (EvaluationRequest (content story) (q_text (question 1 LITERAL)) "#")
  = Rejected /\
  evaluateAnswer JSON.parse (scripted_model 0) (question 1 LITERAL) "#" story
  = Rejected /\
  OtherCopies.evaluateAnswer_1 JSON.parse (scripted_model 0)
    (question 1 LITERAL) "#" story
  = Rejected /\
  (evaluate_batch story scripted_gateway
     (handleAnswerChange 1 "#" initial) []).1 = Rejected /\
  (handleGlobalSubmit story scripted_gateway
     (handleAnswerChange 1 "#" initial) []).1
  = handleAnswerChange 1 "#" initial.
Proof. repeat split; vm_compute; reflexivity. Qed.

Lemma evaluateAnswer_outcomes_witness :
  evaluateAnswer JSON.parse (scripted_model 0) (question 1 LITERAL) "#" story
  = Rejected /\
  evaluateAnswer JSON.parse (scripted_model 0) (question 1 LITERAL) "!" story
  = Resolved technical_result /\
  OtherCopies.evaluateAnswer_1 JSON.parse (scripted_model 0)
    (question 1 LITERAL) "#" story
  = Rejected /\
  OtherCopies.evaluateAnswer_1 JSON.parse (fun _ => text_response "null")
    (question 1 LITERAL) "oui" story
  = Resolved JNull /\
  OtherCopies.evaluateAnswer_2 JSON.parse (scripted_model 0)
    (question 1 LITERAL) "#" story
  = Resolved OtherCopies.small_error_2.
Proof.
  destruct (evaluateAnswer_outcomes JSON.parse (scripted_model 0)
              (question 1 LITERAL) "#" story)
    as (H3 & _ & _ & _ & _ & H1 & _ & _ & _ & _ & H2 & _).
  split; [exact (H3 eq_refl)|]. split.
  { destruct (evaluateAnswer_outcomes JSON.parse (scripted_model 0)
                (question 1 LITERAL) "!" story) as (_ & H & _).
    apply (H _ eq_refl). left. vm_compute. reflexivity. }
  split; [exact (H1 eq_refl)|]. split; [|exact (H2 eq_refl)].
  destruct (evaluateAnswer_outcomes JSON.parse
              (fun _ => text_response "null")
              (question 1 LITERAL) "oui" story)
    as (_ & _ & _ & _ & _ & _ & H & _).
  destruct (H _ eq_refl) as [_ Hp]. apply Hp. vm_compute. reflexivity.
Defined.

End SessionFacts.

(* ===================================================================== *)
(** * More on the question engine *)
(* ===================================================================== *)

Section EngineProgress.
Import JS Types QuestionEngine.

Variable sd : StoryData.
Variable ev : nat -> Question -> string -> StoryData -> outcome EvaluationResult.

Local Abbreviation status_of st id := (st_status (getQuestionState st id)).
Local Abbreviation answer_of st id := (st_answer (getQuestionState st id)).
Local Abbreviation attempt_of st id := (st_attempt (getQuestionState st id)).

(** The batch of a state with nothing to evaluate resolves at once, with
    the maps as they are. *)
Lemma evaluate_batch_nil (st : EngineState) (log : list GatewayCall) :
  questionsToEvaluate sd st = [] ->
  evaluate_batch sd ev st log = (Resolved (snapshot st), log).
Proof. intros H. unfold evaluate_batch, bind. by rewrite H. Qed.

(** What a submission leaves when its batch is resolved. *)
Lemma submit_resolved (st : EngineState) (log : list GatewayCall)
    (u : Updates) :
  (evaluate_batch sd ev st log).1 = Resolved u ->
  (handleGlobalSubmit sd ev st log).1 = commit st u.
Proof.
  intros Hu. unfold handleGlobalSubmit.
  destruct (questionsToEvaluate sd st) as [|q qs] eqn:Hq.
  - rewrite (evaluate_batch_nil st log Hq) in Hu. cbn in Hu.
    injection Hu as <-. reflexivity.
  - destruct (evaluate_batch sd ev st log) as [[u'|] log']; cbn in Hu |- *;
      [by injection Hu as <-|discriminate].
Qed.

Lemma isAllComplete_iff (st : EngineState) :
  isAllComplete sd st = true <-> questionsToEvaluate sd st = [].
Proof.
  unfold isAllComplete, questionsToEvaluate.
  induction (questions sd) as [|q qs IH]; cbn [forallb List.filter]; [done|].
  rewrite andb_true_iff, IH. cbn.
  destruct (statuses st !! q_id q) as [[]|]; cbn; naive_solver.
Qed.

(** X1.  The "see my results" button replaces the submit button exactly when no
    question is left to evaluate: [isAllComplete], which reads the
    [statuses] map, and the filter of [handleGlobalSubmit], which reads
    [getQuestionState], agree in every state; a submission in such a state
    returns at its first test, without a gateway call. *)
Theorem complete_iff_nothing_to_evaluate (st : EngineState)
    (log : list GatewayCall) :
  (isAllComplete sd st = true <-> questionsToEvaluate sd st = []) /\
  (isAllComplete sd st = true ->
   handleGlobalSubmit sd ev st log = (idle st, log)).
Proof.
  split; [apply isAllComplete_iff|].
  intros H%isAllComplete_iff. unfold handleGlobalSubmit. by rewrite H.
Qed.

(** After a resolved batch every question has been given a status. *)
Lemma resolved_all_started (st : EngineState) (log : list GatewayCall)
    (u : Updates) (q : Question) :
  consistent st ->
  (evaluate_batch sd ev st log).1 = Resolved u ->
  q ∈ questions sd ->
  newStatuses u !! q_id q ≠ None.
Proof.
  intros Hc Hu Hq.
  pose proof (batch_at sd ev st log u (q_id q) Hu) as H.
  destruct (decide _) as [Hin|Hnot].
  - destruct H as (e & f & _ & _ & _ & _ & _ & Hs & _). by rewrite Hs.
  - destruct H as (-> & _).
    destruct (is_terminal (status_of st (q_id q))) eqn:Ht.
    + cbn in Ht. by destruct (statuses st !! q_id q).
    + exfalso. apply Hnot, candidate_id_iff. split; [|done].
      apply list_elem_of_fmap. eauto.
Qed.

(** A resolved batch ends every question that had been started. *)
Lemma resolved_all_terminal (st : EngineState) (log : list GatewayCall)
    (u : Updates) (q : Question) :
  consistent st ->
  (forall q', q' ∈ questions sd -> statuses st !! q_id q' ≠ None) ->
  (evaluate_batch sd ev st log).1 = Resolved u ->
  q ∈ questions sd ->
  newStatuses u !! q_id q = Some CORRECT \/
  newStatuses u !! q_id q = Some FAILED_FINAL.
Proof.
  intros Hc Hstarted Hu Hq.
  pose proof (batch_at sd ev st log u (q_id q) Hu) as H.
  destruct (decide _) as [Hin|Hnot].
  - destruct H as (e & f & _ & _ & _ & _ & _ & Hs & _).
    apply candidate_id_iff in Hin as [_ Ht].
    destruct (consistent_open st (q_id q) Hc Ht) as [[Es _]|[_ Ea]].
    + by destruct (Hstarted q Hq).
    + rewrite Hs. cbn. rewrite Ea. cbn. unfold next_status.
      destruct (isCorrect f); auto.
  - destruct H as (-> & _).
    destruct (is_terminal (status_of st (q_id q))) eqn:Ht.
    + cbn in Ht. destruct (statuses st !! q_id q) as [[]|]; cbn in Ht; auto;
        done.
    + exfalso. apply Hnot, candidate_id_iff. split; [|done].
      apply list_elem_of_fmap. eauto.
Qed.

Lemma typed_maps (edits : list (Z * string)) :
  forall st,
  statuses (typed edits st) = statuses st /\
  feedbacks (typed edits st) = feedbacks st /\
  attempts (typed edits st) = attempts st.
Proof.
  induction edits as [|e edits IH]; intros st; [done|].
  change (typed (e :: edits) st)
    with (typed edits (handleAnswerChange e.1 e.2 st)).
  destruct (IH (handleAnswerChange e.1 e.2 st)) as (-> & -> & ->). done.
Qed.

Lemma typed_reachable (edits : list (Z * string)) :
  forall st, reachable sd ev st -> reachable sd ev (typed edits st).
Proof.
  induction edits as [|e edits IH]; intros st H; [done|].
  change (typed (e :: edits) st)
    with (typed edits (handleAnswerChange e.1 e.2 st)).
  apply IH. by constructor.
Qed.

(** X2.  Two resolved submissions end the quiz.  From any reachable state,
    whatever the pupil types in between and whatever the gateway answers,
    after two submissions whose batches are resolved every question is
    CORRECT or FAILED_FINAL. *)
Theorem two_submissions_complete (st : EngineState)
    (log1 log2 : list GatewayCall) (edits : list (Z * string))
    (u1 u2 : Updates) :
  reachable sd ev st ->
  (evaluate_batch sd ev st log1).1 = Resolved u1 ->
  let st1 := typed edits (handleGlobalSubmit sd ev st log1).1 in
  (evaluate_batch sd ev st1 log2).1 = Resolved u2 ->
  isAllComplete sd (handleGlobalSubmit sd ev st1 log2).1 = true.
Proof.
  intros Hreach Hu1. cbn zeta. intros Hu2.
  pose proof (reachable_consistent sd ev st Hreach) as Hc.
  rewrite (submit_resolved st log1 u1 Hu1) in *.
  set (st1 := typed edits (commit st u1)) in *.
  destruct (typed_maps edits (commit st u1)) as (Es & _ & Ea).
  fold st1 in Es, Ea.
  assert (Hc1 : consistent st1).
  { intros id. rewrite Es, Ea. by apply (commit_consistent sd ev st log1 u1). }
  assert (Hstarted : forall q, q ∈ questions sd -> statuses st1 !! q_id q ≠ None).
  { intros q Hq. rewrite Es. cbn.
    by apply (resolved_all_started st log1 u1 q). }
  rewrite (submit_resolved st1 log2 u2 Hu2).
  unfold isAllComplete. apply forallb_forall. intros q Hq%list_elem_of_In.
  cbn. by destruct (resolved_all_terminal st1 log2 u2 q Hc1 Hstarted Hu2 Hq)
    as [-> | ->].
Qed.

(** X3.  After a resolved submission the questions still to evaluate are those
    in INCORRECT_RETRY: [pendingRetryCount] counts them all, and the submit
    button, while it is shown, reads "Valider mes corrections". *)
Theorem pending_after_submission (st : EngineState) (log : list GatewayCall)
    (u : Updates) :
  reachable sd ev st ->
  (evaluate_batch sd ev st log).1 = Resolved u ->
  let st' := (handleGlobalSubmit sd ev st log).1 in
  pendingRetryCount sd st' = length (questionsToEvaluate sd st') /\
  (isAllComplete sd st' = false ->
   submit_label sd st' = "Valider mes corrections").
Proof.
  intros Hreach Hu. cbn zeta.
  pose proof (reachable_consistent sd ev st Hreach) as Hc.
  rewrite (submit_resolved st log u Hu).
  pose proof (commit_consistent sd ev st log u Hc Hu) as Hc'.
  assert (Hcount : pendingRetryCount sd (commit st u)
                   = length (questionsToEvaluate sd (commit st u))).
  { unfold pendingRetryCount, questionsToEvaluate. f_equal.
    assert (Hall : forall q, q ∈ questions sd ->
                             newStatuses u !! q_id q ≠ None).
    { intros q Hq. by apply (resolved_all_started st log u q). }
    revert Hall. induction (questions sd) as [|q qs IH]; intros Hall; [done|].
    cbn [List.filter]. rewrite IH by (intros q' Hq'; apply Hall; set_solver).
    assert (Hq : newStatuses u !! q_id q ≠ None) by (apply Hall; set_solver).
    specialize (Hc' (q_id q)). cbn in Hc' |- *.
    destruct (newStatuses u !! q_id q) as [[]|] eqn:E; try done. }
  split; [exact Hcount|].
  intros Hnot. unfold submit_label. rewrite Hcount.
  destruct (questionsToEvaluate sd (commit st u)) as [|q qs] eqn:E; [|done].
  apply isAllComplete_iff in E. congruence.
Qed.

(** *** The gateway calls of a submission, counted *)

Lemma Promise_all_count (st : EngineState) (qs : list Question) :
  forall log,
  length (Promise_all (map (evaluate_question sd ev st) qs) log).2
  = (length log
     + length (List.filter
                 (fun q => negb (is_blank (answer_of st (q_id q)))) qs))%nat.
Proof.
  induction qs as [|q qs IH]; intros log; cbn [map Promise_all List.filter].
  - cbn. lia.
  - destruct (evaluate_question sd ev st q log) as [o log1] eqn:E1.
    specialize (IH log1).
    destruct (Promise_all _ log1) as [os log2]. cbn [snd] in IH |- *.
    rewrite IH. unfold evaluate_question in E1.
    destruct (is_blank (answer_of st (q_id q))); cbn [negb].
    + unfold ret in E1. injection E1 as _ <-. lia.
    + unfold bind, await_evaluateAnswer, ret in E1.
      destruct (ev _ _ _ _); injection E1 as _ <-;
        rewrite length_app; cbn; lia.
Qed.

Lemma update_loop_count (st : EngineState) (rs : list BatchEntry) :
  forall u log,
  (length (update_loop sd ev st u rs log).2
   <= length log + length (List.filter (forced st) rs))%nat /\
  (forall u', (update_loop sd ev st u rs log).1 = Resolved u' ->
     length (update_loop sd ev st u rs log).2
     = (length log + length (List.filter (forced st) rs))%nat).
Proof.
  induction rs as [|e rs IH]; intros u log.
  - cbn. split; [lia|]. intros; lia.
  - rewrite update_loop_cons. cbn [List.filter].
    unfold final_result. fold (forced st e).
    destruct (forced st e) eqn:Hf.
    + destruct (List.find _ _) as [q|].
      * unfold await_evaluateAnswer.
        destruct (ev _ _ _ _) as [f|].
        -- destruct (IH (write_result u (e_id e) f (e_isRetry e))
                        (log ++ [{| call_question := q; call_answer := "" |}]))
             as [Hle Heq].
           rewrite length_app in Hle, Heq. cbn in Hle, Heq |- *.
           split; [lia|]. intros u' Hu'. rewrite (Heq u' Hu'). lia.
        -- cbn. rewrite length_app. cbn. split; [lia|]. discriminate.
      * cbn. split; [lia|]. discriminate.
    + destruct (IH (write_result u (e_id e) (e_result e) (e_isRetry e)) log)
        as [Hle Heq].
      cbn. split; [lia|]. exact Heq.
Qed.

Lemma forced_entries (st : EngineState) (qs : list Question)
    (rs : list BatchEntry) :
  Forall2 (entry_for st) qs rs ->
  length (List.filter (forced st) rs)
  = length (List.filter
              (fun q => is_blank (answer_of st (q_id q))
                        && (0 <? attempt_of st (q_id q))) qs).
Proof.
  induction 1 as [|q e qs rs (Hid & Hr & Hres) _ IH]; [done|].
  cbn [List.filter].
  assert (Hf : forced st e = is_blank (answer_of st (q_id q))
                             && (0 <? attempt_of st (q_id q))).
  { unfold forced. rewrite Hid, Hr.
    destruct (is_blank (answer_of st (q_id q))) eqn:Hb; [|done].
    rewrite (Hres eq_refl). cbn. by rewrite andb_true_r. }
  rewrite Hf. destruct (_ && _); cbn; by rewrite IH.
Qed.

Lemma filter_split_length {A : Type} (p r : A -> bool) (l : list A) :
  (forall x, p x && r x = false) ->
  (length (List.filter p l) + length (List.filter r l))%nat
  = length (List.filter (fun x => p x || r x) l).
Proof.
  intros Hdisj. induction l as [|x l IH]; [done|]. cbn [List.filter].
  specialize (Hdisj x).
  destruct (p x), (r x); cbn in *; try discriminate; lia.
Qed.

Lemma filter_length_le {A : Type} (p : A -> bool) (l : list A) :
  (length (List.filter p l) <= length l)%nat.
Proof. induction l as [|x l IH]; cbn; [lia|]. destruct (p x); cbn; lia. Qed.

(** How many calls a submission issues. *)
Lemma submission_call_count (st : EngineState) (log : list GatewayCall) :
  exists k : nat,
    length (handleGlobalSubmit sd ev st log).2 = (length log + k)%nat /\
    (k <= length (questionsToEvaluate sd st))%nat /\
    match (evaluate_batch sd ev st log).1 with
    | Resolved _ =>
        k = length (List.filter (asks_gateway st) (questionsToEvaluate sd st))
    | Rejected =>
        (k <= length (List.filter (asks_gateway st)
                        (questionsToEvaluate sd st)))%nat
    end.
Proof.
  set (qs := questionsToEvaluate sd st).
  assert (Hsum :
    Nat.add
      (length (List.filter
                 (fun q => negb (is_blank (answer_of st (q_id q)))) qs))
      (length (List.filter
                 (fun q => is_blank (answer_of st (q_id q))
                           && (0 <? attempt_of st (q_id q))) qs))
    = length (List.filter (asks_gateway st) qs)).
  { rewrite filter_split_length.
    - f_equal. apply filter_ext. intros q. unfold asks_gateway.
      by destruct (is_blank _), (0 <? _).
    - intros q. by destruct (is_blank _). }
  pose proof (filter_length_le (asks_gateway st) qs) as Hle.
  assert (Hlog : (handleGlobalSubmit sd ev st log).2
                 = (evaluate_batch sd ev st log).2).
  { unfold handleGlobalSubmit. fold qs.
    destruct qs as [|q qs'] eqn:Hq.
    - by rewrite (evaluate_batch_nil st log Hq).
    - by destruct (evaluate_batch sd ev st log) as [[u|] log']. }
  rewrite Hlog. unfold evaluate_batch, bind. fold qs.
  pose proof (Promise_all_count st qs log) as H1.
  destruct (Promise_all_spec sd ev st qs log) as (_ & _ & _ & R1).
  destruct (Promise_all (map (evaluate_question sd ev st) qs) log)
    as [[rs|] log1]; cbn [fst snd] in *.
  - specialize (R1 rs eq_refl).
    destruct (update_loop_count st rs (snapshot st) log1) as [H2 H3].
    rewrite (forced_entries st qs rs R1) in H2, H3.
    destruct (update_loop_spec sd ev st rs (snapshot st) log1)
      as (c2 & E2%(f_equal length) & _).
    rewrite length_app in E2.
    destruct (update_loop sd ev st (snapshot st) rs log1) as [[u|] log2];
      cbn [fst snd] in *.
    + specialize (H3 u eq_refl).
      eexists. split; [rewrite H3, H1, <- Nat.add_assoc; reflexivity|].
      rewrite Hsum. split; [lia|reflexivity].
    + exists (length log2 - length log)%nat. split; [lia|]. split; lia.
  - eexists. split; [exact H1|]. split; lia.
Qed.

(** The calls of the first phase: one for each question of the batch whose
    answer is not blank, in order, whatever the gateway answers. *)
Lemma Promise_all_log (st : EngineState) (qs : list Question) :
  forall log,
  (Promise_all (map (evaluate_question sd ev st) qs) log).2
  = log ++ map (fun q => {| call_question := q;
                            call_answer := answer_of st (q_id q) |})
             (List.filter
                (fun q => negb (is_blank (answer_of st (q_id q)))) qs).
Proof.
  induction qs as [|q qs IH]; intros log; cbn [map Promise_all List.filter].
  - by rewrite app_nil_r.
  - destruct (evaluate_question sd ev st q log) as [o log1] eqn:E1.
    specialize (IH log1).
    destruct (Promise_all _ log1) as [os log2] eqn:E2.
    cbn [snd] in *. subst log2.
    unfold evaluate_question in E1.
    destruct (is_blank (answer_of st (q_id q))) eqn:Hb; cbn [negb].
    + unfold ret in E1. by injection E1 as _ <-.
    + unfold bind, await_evaluateAnswer, ret in E1.
      destruct (ev _ _ _ _); injection E1 as _ <-;
        cbn [map]; by rewrite <- app_assoc.
Qed.

(** The calls of the update loop go through the forced entries in order,
    and stop at the first that fails. *)
Lemma update_loop_prefix (st : EngineState) (rs : list BatchEntry) :
  forall u log,
  exists calls,
    (update_loop sd ev st u rs log).2 = log ++ calls /\
    map (fun c => q_id (call_question c)) calls
    `prefix_of` map e_id (List.filter (forced st) rs).
Proof.
  induction rs as [|e rs IH]; intros u log.
  - exists []. cbn. by rewrite app_nil_r.
  - rewrite update_loop_cons. unfold final_result. fold (forced st e).
    cbn [List.filter]. destruct (forced st e).
    + destruct (List.find _ _) as [q|] eqn:Hfind.
      * apply find_some in Hfind as [_ Hid%Z.eqb_eq].
        unfold await_evaluateAnswer.
        destruct (ev (length log) q "" sd) as [f|].
        -- destruct (IH (write_result u (e_id e) f (e_isRetry e))
                       (log ++ [{| call_question := q; call_answer := "" |}]))
             as (calls & -> & Hp).
           eexists (_ :: calls). split; [by rewrite <- app_assoc|].
           cbn [map call_question]. rewrite Hid. by apply prefix_cons.
        -- eexists [_]. split; [reflexivity|].
           cbn [map call_question]. rewrite Hid.
           apply prefix_cons, prefix_nil.
      * exists []. cbn. rewrite app_nil_r. split; [done|apply prefix_nil].
    + unfold ret. apply IH.
Qed.

Lemma forced_ids (st : EngineState) (qs : list Question)
    (rs : list BatchEntry) :
  Forall2 (entry_for st) qs rs ->
  map e_id (List.filter (forced st) rs)
  = map q_id (List.filter
                (fun q => is_blank (answer_of st (q_id q))
                          && (0 <? attempt_of st (q_id q))) qs).
Proof.
  induction 1 as [|q e qs rs (Hid & Hr & Hres) _ IH]; [done|].
  cbn [List.filter].
  assert (Hf : forced st e = is_blank (answer_of st (q_id q))
                             && (0 <? attempt_of st (q_id q))).
  { unfold forced. rewrite Hid, Hr.
    destruct (is_blank (answer_of st (q_id q))) eqn:Hb; [|done].
    rewrite (Hres eq_refl). cbn. by rewrite andb_true_r. }
  rewrite Hf. destruct (_ && _); cbn [map]; by rewrite IH, ?Hid.
Qed.

Lemma filter_elem {A B : Type} (f : A -> B) (p : A -> bool) (l : list A)
    (y : B) :
  y ∈ map f (List.filter p l) -> y ∈ map f l.
Proof.
  intros (x & -> & Hx)%list_elem_of_fmap. apply list_elem_of_fmap.
  exists x. split; [done|].
  apply list_elem_of_In in Hx. apply filter_In in Hx as [Hx _].
  by apply list_elem_of_In.
Qed.

Lemma NoDup_filters {A B : Type} (f : A -> B) (p r : A -> bool)
    (l : list A) :
  (forall x, p x && r x = false) ->
  NoDup (map f l) ->
  NoDup (map f (List.filter p l) ++ map f (List.filter r l)).
Proof.
  intros Hdisj. induction l as [|x l IH]; [constructor|].
  cbn [map List.filter]. intros [Hx Hl]%NoDup_cons. specialize (IH Hl).
  specialize (Hdisj x).
  destruct (p x), (r x); cbn [map] in *; try discriminate; [| |done].
  - cbn. apply NoDup_cons. split; [|done].
    intros [H|H]%elem_of_app; by apply filter_elem in H.
  - apply NoDup_app in IH as (H1 & H2 & H3). apply NoDup_app.
    split; [done|]. split.
    + intros y Hy [->|Hy']%elem_of_cons; [by apply filter_elem in Hy|].
      by apply (H2 y).
    + apply NoDup_cons. split; [|done]. intros H. by apply filter_elem in H.
Qed.

(** The ids of the questions a submission has asked the gateway about. *)
Lemma batch_call_ids (st : EngineState) (log : list GatewayCall) :
  exists first second,
    (evaluate_batch sd ev st log).2 = log ++ first ++ second /\
    map (fun c => q_id (call_question c)) first
    = map q_id
        (List.filter (fun q => negb (is_blank (answer_of st (q_id q))))
           (questionsToEvaluate sd st)) /\
    map (fun c => q_id (call_question c)) second
    `prefix_of`
    map q_id
      (List.filter (fun q => is_blank (answer_of st (q_id q))
                             && (0 <? attempt_of st (q_id q)))
         (questionsToEvaluate sd st)).
Proof.
  set (qs := questionsToEvaluate sd st).
  unfold evaluate_batch, bind. fold qs.
  pose proof (Promise_all_log st qs log) as H1.
  destruct (Promise_all_spec sd ev st qs log) as (_ & _ & _ & R1).
  destruct (Promise_all (map (evaluate_question sd ev st) qs) log)
    as [[rs|] log1]; cbn [fst snd] in *; subst log1.
  - specialize (R1 rs eq_refl).
    destruct (update_loop_prefix st rs (snapshot st) (log ++
                map (fun q => {| call_question := q;
                                 call_answer := answer_of st (q_id q) |})
                  (List.filter
                     (fun q => negb (is_blank (answer_of st (q_id q)))) qs)))
      as (second & -> & Hp).
    eexists _, second. split; [by rewrite <- app_assoc|].
    split; [by rewrite map_map|]. by rewrite <- (forced_ids st qs rs R1).
  - eexists _, []. split; [by rewrite app_nil_r|].
    split; [by rewrite map_map|apply prefix_nil].
Qed.

(** X4.  What a submission asks the gateway.  Every new call is about the
    id of a question of the batch that is not blank, or is blank on a
    retry: never about a blank answer on the first attempt.  The new calls
    are at most as many as the questions of the batch, and exactly as many
    as those that ask when the batch is resolved.  When the ids of the
    story are distinct, no id is asked about twice in one submission. *)
Theorem gateway_calls_counted (st : EngineState) (log : list GatewayCall) :
  exists calls : list GatewayCall,
    (handleGlobalSubmit sd ev st log).2 = log ++ calls /\
    Forall (fun c => exists q,
              q ∈ questionsToEvaluate sd st /\
              q_id (call_question c) = q_id q /\
              asks_gateway st q = true) calls /\
    (length calls <= length (questionsToEvaluate sd st))%nat /\
    match (evaluate_batch sd ev st log).1 with
    | Resolved _ =>
        length calls
        = length (List.filter (asks_gateway st) (questionsToEvaluate sd st))
    | Rejected =>
        (length calls
         <= length (List.filter (asks_gateway st)
                      (questionsToEvaluate sd st)))%nat
    end /\
    (NoDup (map q_id (questions sd)) ->
     NoDup (map (fun c => q_id (call_question c)) calls)).
Proof.
  destruct (submit_log sd ev st log) as (calls & Hlog & Hcalls).
  exists calls. split; [exact Hlog|]. split.
  { eapply Forall_impl; [exact Hcalls|]. intros c [(Hq & Hb & _)|Hsecond].
    - exists (call_question c). split; [done|]. split; [done|].
      unfold asks_gateway. by rewrite Hb.
    - destruct Hsecond as ((q & Hq & Hid) & _ & Hr & _).
      exists q. split; [done|]. split; [done|].
      unfold asks_gateway. rewrite <- Hid, Hr. by rewrite orb_true_r. }
  destruct (submission_call_count st log) as (k & Hk & Hle & Hcount).
  assert (Hlen : length calls = k).
  { rewrite Hlog, length_app in Hk. lia. }
  rewrite Hlen. split; [exact Hle|]. split; [exact Hcount|].
  intros Hnd. apply (NoDup_candidates sd st) in Hnd.
  destruct (batch_call_ids st log) as (first & second & E & Hf & Hs).
  assert (Hcalls' : calls = first ++ second).
  { assert (Hsame : (handleGlobalSubmit sd ev st log).2
                    = (evaluate_batch sd ev st log).2 \/
                    (questionsToEvaluate sd st = [] /\
                     (handleGlobalSubmit sd ev st log).2 = log)).
    { unfold handleGlobalSubmit.
      destruct (questionsToEvaluate sd st) eqn:Hq; [by right|left].
      by destruct (evaluate_batch sd ev st log) as [[u|] log']. }
    destruct Hsame as [Hsame|[Hq Hsame]].
    - rewrite Hsame, E in Hlog. by apply app_inv_head in Hlog.
    - rewrite Hq in Hf, Hs. cbn in Hf, Hs.
      apply fmap_nil_inv in Hf. apply prefix_nil_inv in Hs.
      apply fmap_nil_inv in Hs. subst first second.
      rewrite Hsame in Hlog.
      rewrite <- (app_nil_r log) in Hlog at 1.
      by apply app_inv_head in Hlog. }
  subst calls. rewrite map_app, Hf.
  destruct Hs as [rest Hs].
  assert (Hdisj : forall q : Question,
            negb (is_blank (answer_of st (q_id q)))
            && (is_blank (answer_of st (q_id q))
                && (0 <? attempt_of st (q_id q))) = false).
  { intros q. by destruct (is_blank (answer_of st (q_id q))). }
  pose proof (NoDup_filters q_id
                (fun q => negb (is_blank (answer_of st (q_id q))))
                (fun q => is_blank (answer_of st (q_id q))
                          && (0 <? attempt_of st (q_id q)))
                (questionsToEvaluate sd st) Hdisj Hnd) as H.
  rewrite Hs, app_assoc in H. by apply NoDup_app in H as (H & _).
Qed.

(** *** Statuses and stored feedbacks *)

Lemma commit_coherent (st : EngineState) (log : list GatewayCall)
    (u : Updates) :
  coherent st ->
  (evaluate_batch sd ev st log).1 = Resolved u ->
  coherent (commit st u).
Proof.
  intros Hc Hu id. cbn.
  pose proof (batch_at sd ev st log u id Hu) as H.
  destruct (decide _) as [Hin|Hnot].
  - destruct H as (e & f & _ & _ & _ & _ & Hf & Hs & _).
    rewrite Hs. exists f. split; [exact Hf|].
    unfold next_status. destruct (isCorrect f); [done|].
    by destruct (0 <? _).
  - destruct H as (-> & -> & _). apply Hc.
Qed.

Lemma reachable_coherent (st : EngineState) :
  reachable sd ev st -> coherent st.
Proof.
  induction 1 as [|st id val _ IH|st log _ IH].
  - intros id. cbn. by rewrite !lookup_empty.
  - exact IH.
  - destruct (submit_cases sd ev st log) as [->|(u & Hu & ->)]; [exact IH|].
    by eapply commit_coherent.
Qed.

(** X5.  Every compiled result carries a stored evaluation.  In a reachable
    state where the quiz is complete, each result of [finishQuiz] has the
    feedback text and the expected answer of the evaluation stored for its
    question, and its [isCorrect] is the verdict of that evaluation. *)
Theorem results_carry_feedback (st : EngineState) (i : nat) (r : Result) :
  reachable sd ev st ->
  isAllComplete sd st = true ->
  finishQuiz sd st !! i = Some r ->
  exists f,
    feedbacks st !! q_id (r_question r) = Some f /\
    r_isCorrect r = isCorrect f /\
    r_feedback r = Some (feedback f) /\
    r_correctAnswer r = correctAnswer f.
Proof.
  intros Hreach Hall Hr.
  pose proof (reachable_coherent st Hreach) as Hc.
  destruct (questions sd !! i) as [q|] eqn:Hq.
  - rewrite (finishQuiz_lookup sd st i q Hq) in Hr. simplify_eq. cbn.
    assert (Hin : q ∈ questions sd) by (apply list_elem_of_lookup; eauto).
    destruct (isAllComplete_terminal sd st q Hall Hin) as [Hs _].
    specialize (Hc (q_id q)).
    destruct Hs as [Hs|Hs]; rewrite Hs in Hc |- *;
      destruct Hc as (f & Hf & Hcf); exists f; rewrite Hf, Hcf; cbn; done.
  - apply lookup_ge_None in Hq. apply lookup_lt_Some in Hr.
    unfold finishQuiz in Hr. rewrite length_map in Hr. lia.
Qed.

End EngineProgress.

(* ===================================================================== *)
(** * Where the stored feedbacks come from *)
(* ===================================================================== *)

Section EngineOrigin.
Import JS Types QuestionEngine.

Variable sd : StoryData.
Variable ev : nat -> Question -> string -> StoryData -> outcome EvaluationResult.

Local Abbreviation answer_of st id := (st_answer (getQuestionState st id)).

Lemma evaluate_question_origin (st : EngineState) (q : Question)
    (log log' : list GatewayCall) (e : BatchEntry) :
  evaluate_question sd ev st q log = (Resolved e, log') ->
  entry_origin sd ev st e.
Proof.
  unfold evaluate_question, entry_origin.
  destruct (is_blank (answer_of st (q_id q))) eqn:Hb.
  - intros [= <- _]. left. cbn. auto.
  - unfold bind, await_evaluateAnswer, ret.
    destruct (ev (length log) q (answer_of st (q_id q)) sd) as [r|] eqn:Hev;
      [|discriminate].
    intros [= <- _]. right. cbn. split; [exact Hb|].
    exists (length log), q, (answer_of st (q_id q)). exact Hev.
Qed.

Lemma Promise_all_origin (st : EngineState) (qs : list Question) :
  forall log log' rs,
  Promise_all (map (evaluate_question sd ev st) qs) log = (Resolved rs, log') ->
  Forall (entry_origin sd ev st) rs.
Proof.
  induction qs as [|q qs IH]; intros log log' rs; cbn [map Promise_all].
  - intros [= <- _]. constructor.
  - destruct (evaluate_question sd ev st q log) as [o log1] eqn:E1.
    destruct (Promise_all _ log1) as [os log2] eqn:E2.
    destruct o as [e|]; [|discriminate].
    destruct os as [l|]; [|discriminate].
    intros [= <- _]. constructor.
    + by eapply evaluate_question_origin.
    + by eapply IH.
Qed.

Lemma final_result_origin (st : EngineState) (e : BatchEntry)
    (log log' : list GatewayCall) (f : EvaluationResult) :
  final_result sd ev st e log = (Resolved f, log') ->
  final_origin sd ev st e f.
Proof.
  unfold final_result, final_origin. fold (forced st e).
  destruct (forced st e).
  - destruct (List.find _ _) as [q|]; [|discriminate].
    unfold await_evaluateAnswer. intros [= Hev _]. right. split; [done|].
    by exists (length log), q, "".
  - intros [= <- _]. by left.
Qed.

(** The rule of the update loop: what holds of the copies of the maps and
    is kept by each write holds when the loop is through. *)
Lemma update_loop_rule (I : Updates -> Prop) (st : EngineState)
    (rs : list BatchEntry) :
  (forall u e f,
     I u -> e ∈ rs -> final_origin sd ev st e f ->
     I (write_result u (e_id e) f (e_isRetry e))) ->
  forall u log u' log',
  I u ->
  update_loop sd ev st u rs log = (Resolved u', log') ->
  I u'.
Proof.
  induction rs as [|e rs IH]; intros Hstep u log u' log' Hu.
  - by intros [= <- _].
  - rewrite update_loop_cons.
    destruct (final_result sd ev st e log) as [[f|] log1] eqn:Ef;
      [|discriminate].
    apply IH.
    + intros u0 e0 f0 H0 Hin. apply Hstep; [done|set_solver].
    + apply Hstep; [done|set_solver|by eapply final_result_origin].
Qed.

(** The rule of a batch. *)
Lemma batch_rule (I : Updates -> Prop) (st : EngineState)
    (log : list GatewayCall) (u : Updates) :
  I (snapshot st) ->
  (forall u0 e f,
     I u0 ->
     (exists q, q ∈ questionsToEvaluate sd st /\ entry_for st q e) ->
     entry_origin sd ev st e ->
     final_origin sd ev st e f ->
     I (write_result u0 (e_id e) f (e_isRetry e))) ->
  (evaluate_batch sd ev st log).1 = Resolved u ->
  I u.
Proof.
  intros H0 Hstep. unfold evaluate_batch, bind.
  destruct (Promise_all_spec sd ev st (questionsToEvaluate sd st) log)
    as (_ & _ & _ & R1).
  destruct (Promise_all _ log) as [[rs|] log1] eqn:E1; [|discriminate].
  specialize (R1 rs eq_refl).
  pose proof (Promise_all_origin st _ _ _ _ E1) as Horigin.
  destruct (update_loop sd ev st (snapshot st) rs log1) as [o log2] eqn:E2.
  cbn. intros ->.
  apply (update_loop_rule I st rs) with (u := snapshot st) (log := log1)
                                        (log' := log2); [|done|done].
  intros u0 e f Hu0 Hin Hf. apply Hstep; [done| |by eapply Forall_forall|done].
  apply list_elem_of_lookup in Hin as [i Hi].
  destruct (Forall2_lookup_r _ _ _ _ _ R1 Hi) as (q & Hq & Hqe).
  exists q. split; [|done]. apply list_elem_of_lookup. eauto.
Qed.

(** What holds of the local results and of every answer of the gateway
    holds of every stored feedback. *)
Lemma feedback_provenance (P : EvaluationResult -> Prop) (st : EngineState) :
  (forall isRetry, P (no_answer isRetry)) ->
  (forall f, from_gateway sd ev f -> P f) ->
  reachable sd ev st ->
  forall id f, feedbacks st !! id = Some f -> P f.
Proof.
  intros Hlocal Hgw.
  induction 1 as [|st id0 val _ IH|st log _ IH]; intros id f.
  - cbn. by rewrite lookup_empty.
  - apply IH.
  - destruct (submit_cases sd ev st log) as [->|(u & Hu & ->)]; [apply IH|].
    cbn. revert id f.
    apply (batch_rule (fun u => forall id f, newFeedbacks u !! id = Some f -> P f)
             st log u); [exact IH| |exact Hu].
    intros u0 e f0 Hu0 _ Horigin Hfinal id f.
    destruct (decide (id = e_id e)) as [->|Hne].
    + destruct (write_result_same u0 (e_id e) f0 (e_isRetry e)) as (_ & -> & _).
      intros [= <-].
      destruct Hfinal as [[_ ->]|[_ Hg]]; [|by apply Hgw].
      destruct Horigin as [[_ ->]|[_ Hg]]; [apply Hlocal|by apply Hgw].
    + destruct (write_result_other u0 (e_id e) id f0 (e_isRetry e))
        as (_ & -> & _); [done|]. apply Hu0.
Qed.

(** X6.  The "incomplete" flag is only ever stored with INCORRECT_RETRY.  With
    a gateway that never sets [isIncomplete], as the one of this
    repository, a stored feedback that has it is the local result of a
    first attempt and the status of its question is INCORRECT_RETRY; so
    the title "Réponse incomplète" is never shown on a terminal question:
    a correct one reads "Excellent !" and a failed one "Dommage.". *)
Theorem incomplete_only_on_retry (st : EngineState) (id : Z)
    (f : EvaluationResult) :
  (forall f', from_gateway sd ev f' -> isIncomplete f' ≠ Some true) ->
  reachable sd ev st ->
  feedbacks st !! id = Some f ->
  (isIncomplete f = Some true ->
   f = no_answer false /\ statuses st !! id = Some INCORRECT_RETRY) /\
  (statuses st !! id = Some CORRECT ->
   feedback_title CORRECT f = "Excellent !") /\
  (statuses st !! id = Some FAILED_FINAL ->
   feedback_title FAILED_FINAL f = "Dommage.").
Proof.
  intros Hgw Hreach Hf.
  assert (Hinv : forall st, reachable sd ev st ->
            forall id f, feedbacks st !! id = Some f ->
                         isIncomplete f = Some true ->
                         f = no_answer false /\
                         statuses st !! id = Some INCORRECT_RETRY).
  { clear st id f Hreach Hf.
    induction 1 as [|st id0 val _ IH|st log _ IH]; intros id f.
    - cbn. by rewrite lookup_empty.
    - apply IH.
    - destruct (submit_cases sd ev st log) as [->|(u & Hu & ->)]; [apply IH|].
      cbn. revert id f.
      apply (batch_rule
               (fun u => forall id f,
                  newFeedbacks u !! id = Some f ->
                  isIncomplete f = Some true ->
                  f = no_answer false /\
                  newStatuses u !! id = Some INCORRECT_RETRY)
               st log u); [exact IH| |exact Hu].
      intros u0 e f0 Hu0 _ Horigin Hfinal id f.
      destruct (decide (id = e_id e)) as [->|Hne].
      + destruct (write_result_same u0 (e_id e) f0 (e_isRetry e))
          as (-> & -> & _).
        intros [= <-] Hinc.
        destruct Hfinal as [[Hforced ->]|[_ Hg]];
          [|by destruct (Hgw _ Hg)].
        destruct Horigin as [[Hblank Hres]|[_ Hg]];
          [|by destruct (Hgw _ Hg)].
        unfold forced in Hforced. rewrite Hblank, Hres in Hforced.
        cbn in Hforced. rewrite andb_true_r in Hforced.
        rewrite Hres, Hforced. done.
      + destruct (write_result_other u0 (e_id e) id f0 (e_isRetry e))
          as (-> & -> & _); [done|]. apply Hu0. }
  split; [by apply (Hinv st Hreach)|].
  unfold feedback_title.
  destruct (isIncomplete f) as [[]|] eqn:Hinc; cbn; try done.
  destruct (Hinv st Hreach id f Hf Hinc) as [_ Hs].
  split; intros Hs'; congruence.
Qed.

End EngineOrigin.

(* ===================================================================== *)
(** * More on the gateway *)
(* ===================================================================== *)

Section GatewayMore.
Import JS Types GeminiService.

Variable JSON_parse : string -> option json.
Variable generateContent : Request -> outcome (option Response).

(** *** [split] and [cleanBase64] *)

Lemma split_String (sep a : ascii) (r : string) :
  split sep (String a r) =
  if decide (a = sep) then "" :: split sep r
  else match split sep r with
       | x :: xs => String a x :: xs
       | [] => [String a ""]
       end.
Proof. reflexivity. Qed.

Lemma split_nonempty (sep : ascii) (s : string) : split sep s ≠ [].
Proof.
  destruct s as [|a r]; [done|]. rewrite split_String.
  destruct (decide (a = sep)); [done|]. by destruct (split sep r).
Qed.

Lemma split_no_sep (sep : ascii) (s : string) :
  has_char sep s = false -> split sep s = [s].
Proof.
  induction s as [|a r IH]; [done|]. cbn [has_char].
  intros [Ha Hr]%orb_false_iff. apply bool_decide_eq_false in Ha.
  rewrite split_String, decide_False by done. by rewrite (IH Hr).
Qed.

Lemma split_app (sep : ascii) (a b : string) :
  split sep (a +:+ String sep b) = split sep a ++ split sep b.
Proof.
  induction a as [|c a IH].
  - change ("" +:+ String sep b) with (String sep b).
    by rewrite split_String, decide_True.
  - change (String c a +:+ String sep b) with (String c (a +:+ String sep b)).
    rewrite !split_String, IH.
    destruct (decide (c = sep)) as [->|Hne]; [done|].
    destruct (split sep a) as [|x xs] eqn:E;
      [by destruct (split_nonempty sep a)|]. done.
Qed.

Lemma split_pieces (sep : ascii) (s : string) :
  Forall (fun x => has_char sep x = false) (split sep s).
Proof.
  induction s as [|a r IH]; [by repeat constructor|].
  rewrite split_String.
  destruct (decide (a = sep)) as [->|Hne]; [by constructor|].
  destruct (split sep r) as [|x xs]; [|apply Forall_cons in IH as [Hx Hxs]];
    (constructor; [|done]); cbn [has_char];
    by rewrite bool_decide_eq_false_2.
Qed.

Lemma includes_char (c : ascii) (s : string) :
  includes s (String c "") = has_char c s.
Proof.
  induction s as [|a r IH]; [done|].
  cbn [includes has_char]. rewrite IH. f_equal. cbn.
  destruct (ascii_dec c a) as [->|Hne].
  - rewrite bool_decide_eq_true_2 by done. by destruct r.
  - by rewrite bool_decide_eq_false_2.
Qed.

Lemma has_char_split (sep : ascii) (s : string) :
  has_char sep s = true -> exists x y rest, split sep s = x :: y :: rest.
Proof.
  induction s as [|a r IH]; [done|]. cbn [has_char]. rewrite split_String.
  destruct (decide (a = sep)) as [->|Hne].
  - intros _.
    destruct (split sep r) as [|y rest] eqn:E;
      [by destruct (split_nonempty sep r)|]. eauto.
  - rewrite bool_decide_eq_false_2 by done. cbn [orb]. intros H.
    destruct (IH H) as (x & y & rest & E). rewrite E. eauto.
Qed.

(** X11.  [cleanBase64] always yields a string without a comma; it gives the
    payload of a data URL and leaves a string without a comma as it is, so
    that cleaning twice (the upload handler splits the data URL before the
    gateway does) is cleaning once. *)
Theorem cleanBase64_payload (base64Image : string) :
  includes (cleanBase64 base64Image) "," = false /\
  cleanBase64 (cleanBase64 base64Image) = cleanBase64 base64Image /\
  (includes base64Image "," = false -> cleanBase64 base64Image = base64Image) /\
  (forall header payload rest,
     includes header "," = false -> includes payload "," = false ->
     (base64Image = header +:+ "," +:+ payload \/
      base64Image = header +:+ "," +:+ payload +:+ "," +:+ rest) ->
     cleanBase64 base64Image = payload).
Proof.
  assert (Hfree : includes (cleanBase64 base64Image) "," = false).
  { unfold cleanBase64.
    destruct (includes base64Image ",") eqn:E; [|exact E].
    rewrite includes_char in E |- *.
    destruct (has_char_split _ _ E) as (x & y & rest & Es). rewrite Es. cbn.
    pose proof (split_pieces "," base64Image) as Hp. rewrite Es in Hp.
    apply Forall_cons in Hp as [_ Hp]. by apply Forall_cons in Hp as [Hy _]. }
  assert (Hid : forall s, includes s "," = false -> cleanBase64 s = s).
  { intros s Hs. unfold cleanBase64. by rewrite Hs. }
  split; [exact Hfree|]. split; [by apply Hid|]. split; [apply Hid|].
  intros header payload rest Hh Hp Hshape.
  rewrite includes_char in Hh, Hp.
  unfold cleanBase64.
  assert (Hsplit : split "," base64Image !! 1%nat = Some payload).
  { destruct Hshape as [-> | ->].
    - change (header +:+ "," +:+ payload)
        with (header +:+ String "," payload).
      rewrite split_app, (split_no_sep _ _ Hh), (split_no_sep _ _ Hp). done.
    - change (header +:+ "," +:+ payload +:+ "," +:+ rest)
        with (header +:+ String "," (payload +:+ String "," rest)).
      rewrite !split_app, (split_no_sep _ _ Hh), (split_no_sep _ _ Hp). done. }
  rewrite Hsplit. cbn.
  destruct (includes base64Image ",") eqn:E; [done|].
  rewrite includes_char in E.
  rewrite (split_no_sep _ _ E) in Hsplit. done.
Qed.

(** *** When the gateway operations throw, and what they answer to an
        empty response *)

(** X12.  [generateAssessment] is rejected in these cases and no other: the
    transport fails; the text does not parse; it parses to [null] or to a
    number, a string or a boolean; or [content] is a truthy value that is
    not a string (a number other than 0, [true], an array, an object),
    whose [trim] cannot be called. *)
Theorem generateAssessment_rejections (base64Image : string) :
  generateAssessment JSON_parse generateContent base64Image = Rejected <->
  match generateContent (AssessmentRequest (cleanBase64 base64Image)) with
  | Rejected => True
  | Resolved response =>
      match JSON_parse (extractTextFromResponse response) with
      | None => True
      | Some parsed =>
          is_object parsed = false \/ content_not_text parsed = true
      end
  end.
Proof.
  unfold generateAssessment.
  destruct (generateContent _) as [response|]; [|done].
  destruct (JSON_parse _) as [parsed|]; [|done].
  unfold content_missing, content_not_text.
  destruct parsed as [|b|q|s|l pr|fs]; cbn [is_object get set];
    try (cbn; naive_solver).
  - destruct (assoc "content" pr) as [[|b|q|s|l' pr'|fs']|]; cbn [truthy];
      try (cbn; naive_solver).
    + destruct b; cbn; naive_solver.
    + destruct (Qeq_bool q 0); cbn; naive_solver.
    + destruct (negb _ || negb _); cbn; naive_solver.
  - destruct (assoc "content" fs) as [[|b|q|s|l' pr'|fs']|]; cbn [truthy];
      try (cbn; naive_solver).
    + destruct b; cbn; naive_solver.
    + destruct (Qeq_bool q 0); cbn; naive_solver.
    + destruct (negb _ || negb _); cbn; naive_solver.
Qed.

Lemma is_refusal_lower_false (c : string) :
  is_refusal (toLowerCase c) = false -> is_refusal c = false.
Proof.
  intros Hc. destruct (is_refusal c) eqn:E; [|done].
  by rewrite (is_refusal_toLowerCase c E) in Hc.
Qed.

Lemma zero_in_range :
  exists n : Q, Some 0%Q = Some n /\ (0 <= n)%Q /\ (n <= 2)%Q.
Proof. exists 0%Q. split; [done|]. unfold Qle. cbn. lia. Qed.

Lemma well_formed_technical : well_formed technical_result.
Proof.
  split; [done|]. split; [apply zero_in_range|]. by exists "".
Qed.

Lemma normalize_fields (parsed : json) (r : EvaluationResult) :
  normalize parsed = Some r ->
  parsed ≠ JNull /\
  isIncomplete r = None /\
  score r = match get "score" parsed with
            | Some (JNum n) =>
                if Qle_bool 0 n && Qle_bool n 2 then Some n else Some 0%Q
            | _ => Some 0%Q
            end /\
  correctAnswer r =
    Some (let c := match get "correctAnswer" parsed with
                   | Some (JStr s) => trim s
                   | _ => ""
                   end in
          if is_refusal (toLowerCase c) then "" else c).
Proof.
  intros H. destruct parsed; cbn in H; [done|..]; by injection H as <-.
Qed.

Lemma normalize_well_formed (parsed : json) (r : EvaluationResult) :
  normalize parsed = Some r -> well_formed r.
Proof.
  intros (_ & Hi & Hs & Hc)%normalize_fields. split; [done|]. split.
  - rewrite Hs.
    destruct (get "score" parsed) as [[| |n| | |]|];
      try apply zero_in_range.
    destruct (Qle_bool 0 n && Qle_bool n 2) eqn:E; [|apply zero_in_range].
    apply andb_true_iff in E as [E1%Qle_bool_iff E2%Qle_bool_iff].
    by exists n.
  - rewrite Hc. eexists. split; [reflexivity|]. cbn zeta.
    set (c := match get "correctAnswer" parsed with
              | Some (JStr s) => trim s
              | _ => ""
              end).
    destruct (is_refusal (toLowerCase c)) eqn:E; [done|].
    split; [done|]. by apply is_refusal_lower_false.
Qed.

Lemma evaluateAnswer_well_formed (question : Question)
    (studentAnswer : string) (story : StoryData) (r : EvaluationResult) :
  evaluateAnswer JSON_parse generateContent question studentAnswer story
  = Resolved r ->
  well_formed r.
Proof.
  unfold evaluateAnswer.
  destruct (generateContent _) as [response|]; [|done].
  destruct (JSON_parse _) as [parsed|];
    [|intros [= <-]; apply well_formed_technical].
  destruct (normalize parsed) as [r'|] eqn:E; intros [= <-].
  - by eapply normalize_well_formed.
  - apply well_formed_technical.
Qed.

(** X13.  Every result of [evaluateAnswer] has a score, between 0 and 2: the
    model's number when it lies there (a fraction is kept as it is, it is
    not rounded to 0, 1 or 2), and 0 when the model gave a number out of
    range, something that is not a number, or nothing. *)
Theorem score_within_range (question : Question) (studentAnswer : string)
    (story : StoryData) (r : EvaluationResult) :
  evaluateAnswer JSON_parse generateContent question studentAnswer story
  = Resolved r ->
  exists n,
    score r = Some n /\ (0 <= n)%Q /\ (n <= 2)%Q /\
    forall response parsed,
      generateContent
        (EvaluationRequest (content story) (q_text question) studentAnswer)
      = Resolved response ->
      JSON_parse (extractTextFromResponse response) = Some parsed ->
      match get "score" parsed with
      | Some (JNum m) =>
          ((0 <= m)%Q /\ (m <= 2)%Q -> n = m) /\
          (~ ((0 <= m)%Q /\ (m <= 2)%Q) -> n = 0%Q)
      | _ => n = 0%Q
      end.
Proof.
  intros H.
  destruct (evaluateAnswer_well_formed _ _ _ _ H) as (_ & (n & Hn & H0 & H2) & _).
  exists n. split; [done|]. split; [done|]. split; [done|].
  intros response parsed Hgc Hparse.
  unfold evaluateAnswer in H. rewrite Hgc, Hparse in H.
  destruct (normalize parsed) as [r'|] eqn:E; injection H as <-.
  - apply normalize_fields in E as (_ & _ & Hs & _). rewrite Hs in Hn.
    destruct (get "score" parsed) as [[| |m| | |]|];
      try (by injection Hn as <-).
    destruct (Qle_bool 0 m && Qle_bool m 2) eqn:E; injection Hn as <-.
    + split; [done|]. intros Hno. destruct Hno.
      by apply andb_true_iff in E as [E1%Qle_bool_iff E2%Qle_bool_iff].
    + split; [|done]. intros [E1%Qle_bool_iff E2%Qle_bool_iff].
      by rewrite E1, E2 in E.
  - destruct parsed; [|done..]. cbn in *. by injection Hn as <-.
Qed.

(** A response without text is read as the text of an empty object. *)
Lemma textless_extract (response : option Response) :
  textless response = true -> extractTextFromResponse response = "{}".
Proof.
  destruct response as [[o r c]|]; [|done]. cbn.
  destruct o, r; try done. destruct c as [c|]; [|done]. cbn.
  by destruct (truthy_string c).
Qed.

(** X14.  When the client answers without any text (no response object, or one
    with none of the three text fields, or with an empty candidate text),
    nothing is rejected: the story is an object whose only property is the
    extraction-failure sentinel as [content] (no title, glossary or
    questions), the evaluation is a wrong answer with the default feedback,
    score 0 and an empty [correctAnswer], and the final feedback is the
    text of an empty object. *)
Theorem textless_response (response : option Response)
    (base64Image : string) (question : Question) (studentAnswer : string)
    (story : StoryData) (userScore : UserScore) :
  textless response = true ->
  JSON_parse "{}" = Some (JObj []) ->
  (forall request, generateContent request = Resolved response) ->
  generateAssessment JSON_parse generateContent base64Image
  = Resolved (JObj [("content", JStr extraction_failed)]) /\
  evaluateAnswer JSON_parse generateContent question studentAnswer story
  = Resolved {| isCorrect := false; isIncomplete := None;
                score := Some 0%Q; feedback := default_feedback;
                correctAnswer := Some "" |} /\
  generateFinalFeedback generateContent userScore = Resolved "{}".
Proof.
  intros Ht%textless_extract Hparse Hgc.
  unfold generateAssessment, evaluateAnswer, generateFinalFeedback.
  rewrite !Hgc, Ht, Hparse. done.
Qed.

(** X15.  The second copy of [evaluateAnswer] never rejects, whatever the client
    does: a transport error and a missing response give its small-error
    result.  It hands over the model's [correctAnswer] as it is written,
    neither trimmed nor checked for a refusal, and the model's score
    whatever the number. *)
Theorem second_copy_outcomes (question : Question) (studentAnswer : string)
    (story : StoryData) :
  let request :=
    EvaluationRequest (content story) (q_text question) studentAnswer in
  let result :=
    OtherCopies.evaluateAnswer_2 JSON_parse generateContent
      question studentAnswer story in
  (exists r, result = Resolved r /\ isIncomplete r = None) /\
  (generateContent request = Rejected \/
   generateContent request = Resolved None ->
   result = Resolved OtherCopies.small_error_2) /\
  (forall response raw parsed r,
     generateContent request = Resolved (Some response) ->
     raw = match output_text response with
           | Some s => s
           | None => default "{}" (candidate_text response)
           end ->
     JSON_parse raw = Some parsed -> parsed ≠ JNull ->
     result = Resolved r ->
     (forall c, get "correctAnswer" parsed = Some (JStr c) ->
                correctAnswer r = Some c) /\
     (forall n, get "score" parsed = Some (JNum n) -> score r = Some n)).
Proof.
  cbn zeta. unfold OtherCopies.evaluateAnswer_2.
  destruct (generateContent _) as [[response|]|].
  - split; [destruct (JSON_parse _) as [[]|]; eauto|]. split; [naive_solver|].
    intros response' raw parsed r [= <-] -> -> Hnull.
    destruct parsed as [|b|q|s|l pr|fs]; [done|..]; intros [= <-];
      split; intros ? Hg; try (by cbn in Hg);
      cbn [get] in Hg; cbn [correctAnswer score]; by rewrite Hg.
  - split; [eauto|]. split; [done|]. intros; simplify_eq.
  - split; [eauto|]. split; [done|]. intros; simplify_eq.
Qed.

(** X16.  The story that [generateAssessment] returns is always read aloud: its
    [content] is a string that [generateSpeech] does not take for empty, so
    that, where the browser has speech synthesis, what was queued is
    cancelled and exactly one utterance is queued, of that content, in
    French at rate 1 and pitch 1.  [generateSpeech] returns the empty
    string in every case; without speech synthesis, or for a blank text,
    the queue is as it was. *)
Theorem story_is_spoken (base64Image : string) (data : json) :
  generateAssessment JSON_parse generateContent base64Image = Resolved data ->
  (exists c,
     get "content" data = Some (JStr c) /\
     forall queue,
       generateSpeech c (Some queue) =
       ("", Some [ {| u_text := c; u_lang := "fr-FR";
                      u_rate := 1; u_pitch := 1 |} ])) /\
  (forall text speechSynthesis,
     (generateSpeech text speechSynthesis).1 = "" /\
     (speechSynthesis = None \/ truthy_string (trim text) = false ->
      (generateSpeech text speechSynthesis).2 = speechSynthesis)).
Proof.
  intros H. split.
  - assert (Hc : exists c, get "content" data = Some (JStr c) /\
                           truthy_string c = true /\
                           truthy_string (trim c) = true).
    { unfold generateAssessment in H.
      destruct (generateContent _) as [response|]; [|done].
      destruct (JSON_parse _) as [parsed|]; [|done].
      destruct (content_missing parsed) as [[]|] eqn:Hmiss; [| |done].
      - exists extraction_failed. split; [by eapply get_set_same|]. done.
      - injection H as <-. by apply content_missing_false. }
    destruct Hc as (c & Hc & Ht & Htt). exists c. split; [done|].
    intros queue. unfold generateSpeech. by rewrite Ht, Htt.
  - intros text [queue|]; unfold generateSpeech; [|by split; [|intros _]].
    destruct (negb (truthy_string text) || negb (truthy_string (trim text)))
      eqn:E; cbn [fst snd]; (split; [done|]); [done|].
    intros [?|Hb]; [done|].
    apply orb_false_iff in E as [_ E%negb_false_iff]. congruence.
Qed.

End GatewayMore.

(* ===================================================================== *)
(** * From the typed answer to the gateway, and back to the pupil *)
(* ===================================================================== *)

Section EngineTyping.
Import JS Types QuestionEngine.

Variable sd : StoryData.
Variable ev : nat -> Question -> string -> StoryData -> outcome EvaluationResult.

Local Abbreviation status_of st id := (st_status (getQuestionState st id)).
Local Abbreviation answer_of st id := (st_answer (getQuestionState st id)).



End EngineTyping.

(* ===================================================================== *)
(** * The engine with the gateway of the repository behind it *)
(* ===================================================================== *)

Section WholeProgram.
Import JS Types GeminiService QuestionEngine.

Variable sd : StoryData.
Variable JSON_parse : string -> option json.
Variable ai : nat -> Request -> outcome (option Response).

Lemma gateway_well_formed (f : EvaluationResult) :
  from_gateway sd (Session.gateway JSON_parse ai) f -> well_formed f.
Proof.
  intros (n & q & a & H). by eapply evaluateAnswer_well_formed.
Qed.

Lemma stored_feedback_origin (st : EngineState) (id : Z)
    (f : EvaluationResult) :
  reachable sd (Session.gateway JSON_parse ai) st ->
  feedbacks st !! id = Some f ->
  (exists isRetry, f = no_answer isRetry) \/ well_formed f.
Proof.
  intros Hreach.
  apply (feedback_provenance sd (Session.gateway JSON_parse ai)
           (fun f => (exists isRetry, f = no_answer isRetry) \/ well_formed f)
           st); [by left; eexists| |done].
  intros f' Hf'. right. by apply gateway_well_formed.
Qed.

(** X8.  No refusal of the model reaches the pupil.  In every state of the
    engine, run with [evaluateAnswer] of the gateway (its third copy), a
    stored feedback has no [correctAnswer] that passes the refusal test,
    its score, if any, lies between 0 and 2, and the line
    [Réponse attendue] is rendered only with a text that is not empty and
    is not a refusal; the same holds of the [correctAnswer] of every result
    that [finishQuiz] compiles. *)
Theorem no_refusal_shown (st : EngineState) :
  reachable sd (Session.gateway JSON_parse ai) st ->
  (forall id f,
     feedbacks st !! id = Some f ->
     (forall c, correctAnswer f = Some c ->
        is_refusal (toLowerCase c) = false /\ is_refusal c = false) /\
     (forall n, score f = Some n -> (0 <= n)%Q /\ (n <= 2)%Q) /\
     (forall status c, expected_answer status f = Some c ->
        c ≠ "" /\ is_refusal c = false)) /\
  (forall i r c,
     finishQuiz sd st !! i = Some r ->
     r_correctAnswer r = Some c ->
     is_refusal (toLowerCase c) = false /\ is_refusal c = false).
Proof.
  intros Hreach.
  assert (Hca : forall id f c,
            feedbacks st !! id = Some f -> correctAnswer f = Some c ->
            is_refusal (toLowerCase c) = false /\ is_refusal c = false).
  { intros id f c Hf Hc.
    destruct (stored_feedback_origin st id f Hreach Hf)
      as [[b ->]|(_ & _ & (c' & Hc' & H1 & H2))]; [done|].
    rewrite Hc in Hc'. by injection Hc' as <-. }
  split.
  - intros id f Hf. split; [intros c Hc; by eapply Hca|]. split.
    + intros n Hn.
      destruct (stored_feedback_origin st id f Hreach Hf)
        as [[b ->]|(_ & (n' & Hn' & H1 & H2) & _)]; [done|].
      rewrite Hn in Hn'. by injection Hn' as <-.
    + intros status c. unfold expected_answer.
      destruct (bool_decide _ && truthy_opt_string (correctAnswer f)) eqn:E;
        [|done].
      apply andb_true_iff in E as [_ E]. intros Hc. rewrite Hc in E.
      split; [by intros ->|]. by eapply Hca.
  - intros i r c Hr Hc. unfold finishQuiz in Hr.
    apply list_lookup_fmap_Some in Hr as (q & -> & Hq). cbn in Hc.
    destruct (feedbacks st !! q_id q) as [f|] eqn:Hf; [|done].
    by eapply Hca.
Qed.

End WholeProgram.

(* ===================================================================== *)
(** * More on the orchestrator: scores of any results, the report, an
      empty story *)
(* ===================================================================== *)

Section AppMore.
Import JS Types GeminiService QuestionEngine App.

Lemma known_types_distinct :
  LITERAL ≠ INFERENTIAL /\ LITERAL ≠ EVALUATIVE /\ INFERENTIAL ≠ EVALUATIVE.
Proof. done. Qed.

Lemma correct_known_sum (rs : list Result) :
  correct_of_type LITERAL rs + correct_of_type INFERENTIAL rs
  + correct_of_type EVALUATIVE rs
  = Z.of_nat
      (length
         (List.filter
            (fun r => r_isCorrect r && known_type (q_type (r_question r)))
            rs)).
Proof.
  unfold correct_of_type, known_type.
  induction rs as [|r rs IH]; [done|]. cbn [List.filter].
  destruct (r_isCorrect r); cbn [andb]; [|exact IH].
  destruct known_types_distinct as (D1 & D2 & D3).
  destruct (decide (q_type (r_question r) = LITERAL)) as [E|E1].
  { rewrite (bool_decide_eq_true_2 _ E).
    rewrite !bool_decide_eq_false_2 by (rewrite E; done).
    cbn [orb length]. rewrite !Nat2Z.inj_succ. lia. }
  destruct (decide (q_type (r_question r) = INFERENTIAL)) as [E|E2].
  { rewrite (bool_decide_eq_true_2 _ E).
    rewrite !bool_decide_eq_false_2 by (rewrite E; done).
    cbn [orb length]. rewrite !Nat2Z.inj_succ. lia. }
  destruct (decide (q_type (r_question r) = EVALUATIVE)) as [E|E3].
  { rewrite (bool_decide_eq_true_2 _ E).
    rewrite !bool_decide_eq_false_2 by (rewrite E; done).
    cbn [orb length]. rewrite !Nat2Z.inj_succ. lia. }
  rewrite !bool_decide_eq_false_2 by done. cbn [orb]. exact IH.
Qed.

Lemma filter_and_le {A : Type} (f g : A -> bool) (l : list A) :
  (length (List.filter (fun x => f x && g x) l)
   <= length (List.filter f l))%nat /\
  (length (List.filter f l) <= length l)%nat /\
  (Forall (fun x => f x = true -> g x = true) l ->
   length (List.filter (fun x => f x && g x) l) = length (List.filter f l)).
Proof.
  induction l as [|x l (IH1 & IH2 & IH3)]; [done|]. cbn [List.filter].
  split; [|split].
  - destruct (f x), (g x); cbn; lia.
  - destruct (f x); cbn; lia.
  - intros [Hx Hl]%Forall_cons. specialize (IH3 Hl).
    destruct (f x); cbn [andb]; [rewrite Hx by done; cbn; lia|done].
Qed.

(** X17.  Whatever array [calculateScores] is given, it stores it as the
    results and stores its scores, also when the final feedback is
    rejected.  The total is the number of correct results whose question
    has one of the three known types: it is at most the number of correct
    results, which is at most the number of results (nothing caps it at
    10), and a correct result of another type scores nothing. *)
Theorem scores_of_any_results
    (generateFinalFeedback : Z -> Z -> string -> outcome string)
    (quizResults : list Result) (s : State) :
  let s' := calculateScores generateFinalFeedback quizResults s in
  let sc := finalScores s' in
  let correct := length (List.filter r_isCorrect quizResults) in
  results s' = quizResults /\
  sc = scores quizResults /\
  total sc = literal sc + inferential sc + evaluative sc /\
  0 <= literal sc /\ 0 <= inferential sc /\ 0 <= evaluative sc /\
  total sc =
    Z.of_nat
      (length
         (List.filter
            (fun r => r_isCorrect r && known_type (q_type (r_question r)))
            quizResults)) /\
  total sc <= Z.of_nat correct /\
  (correct <= length quizResults)%nat /\
  (Forall (fun r => r_isCorrect r = true ->
                    known_type (q_type (r_question r)) = true) quizResults ->
   total sc = Z.of_nat correct).
Proof.
  cbn zeta.
  assert (Hs : results (calculateScores generateFinalFeedback quizResults s)
               = quizResults /\
               finalScores (calculateScores generateFinalFeedback quizResults s)
               = scores quizResults).
  { unfold calculateScores. by destruct (generateFinalFeedback _ _ _). }
  destruct Hs as [Hr ->]. split; [done|]. split; [done|].
  unfold scores. rewrite add_points_fold. cbn.
  pose proof (correct_known_sum quizResults) as Hsum.
  destruct (filter_and_le r_isCorrect
              (fun r => known_type (q_type (r_question r))) quizResults)
    as (H1 & H2 & H3).
  unfold correct_of_type in *.
  split; [done|]. split; [lia|]. split; [lia|]. split; [lia|].
  split; [lia|]. split; [lia|]. split; [done|].
  intros Hall. specialize (H3 Hall). lia.
Qed.

(** *** The report *)

Lemma to_int_proper (n : Z) :
  Z.to_int n ≠ Decimal.Pos Decimal.Nil /\ Z.to_int n ≠ Decimal.Neg Decimal.Nil.
Proof.
  destruct n as [|p|p]; cbn; (split; [|try done]); try done;
    intros [= H]; by apply DecimalPos.Unsigned.to_uint_nonnil in H.
Qed.

Lemma read_number_to_string (n : Z) :
  read_number (number_to_string n) = Some n.
Proof.
  unfold read_number, number_to_string.
  destruct (to_int_proper n) as [H1 H2].
  rewrite DecimalString.NilZero.isi by done. cbn.
  by rewrite DecimalZ.of_to.
Qed.

Lemma digits_no_char (c : ascii) (d : Decimal.uint) :
  has_char c "0123456789-" = false ->
  has_char c (DecimalString.NilEmpty.string_of_uint d) = false.
Proof.
  cbn [has_char]. rewrite !orb_false_iff.
  intros (H0 & H1 & H2 & H3 & H4 & H5 & H6 & H7 & H8 & H9 & _).
  induction d; cbn [DecimalString.NilEmpty.string_of_uint has_char];
    [done|by rewrite IHd, ?H0, ?H1, ?H2, ?H3, ?H4, ?H5, ?H6, ?H7, ?H8, ?H9..].
Qed.

Lemma number_no_char (c : ascii) (n : Z) :
  has_char c "0123456789-" = false ->
  has_char c (number_to_string n) = false.
Proof.
  intros H. pose proof (fun d => digits_no_char c d H) as Hd.
  assert (Hu : forall d,
            has_char c (DecimalString.NilZero.string_of_uint d) = false).
  { intros d. destruct d; try apply Hd.
    change (has_char c "0" = false). cbn [has_char] in H |- *.
    rewrite !orb_false_iff in H. destruct H as (-> & _). done. }
  unfold number_to_string, DecimalString.NilZero.string_of_int.
  destruct (Z.to_int n); [apply Hu|].
  cbn [has_char]. rewrite Hu, orb_false_r.
  cbn [has_char] in H. rewrite !orb_false_iff in H.
  by destruct H as (_ & _ & _ & _ & _ & _ & _ & _ & _ & _ & -> & _).
Qed.

Lemma split_joined (sep : ascii) (a b : string) :
  split sep (a +:+ String sep "" +:+ b) = split sep a ++ split sep b.
Proof. exact (split_app sep a b). Qed.

Lemma join_two (sep x y : string) : join sep [x; y] = x +:+ sep +:+ y.
Proof. done. Qed.

(** X18.  The report is made only when there is a story and at least one result.
    Its content is the byte-order mark, the header line and one row.  The
    header line has the six column names.  The row has the two names as
    they were typed and the four scores in decimal digits: names are not
    quoted, so the columns of the row are the pieces of the first name
    between commas, then those of the last name, then the four numbers,
    which read back as the stored scores; with names free of commas the
    row has six columns, like the header. *)
Theorem report_columns (s : State) :
  (downloadCSV s = None <-> storyData s = None \/ results s = []) /\
  forall d, downloadCSV s = Some d ->
    file_name d = "Rapport_" +:+ lastName (userInfo s) +:+ "_"
                  +:+ firstName (userInfo s) +:+ ".csv" /\
    exists header row,
      file_content d = BOM +:+ header +:+ String LF row /\
      split "," header = csv_headers /\
      has_char LF header = false /\
      split "," row =
        split "," (firstName (userInfo s)) ++
        split "," (lastName (userInfo s)) ++
        map number_to_string
          [ literal (finalScores s); inferential (finalScores s);
            evaluative (finalScores s); total (finalScores s) ] /\
      map read_number
        (map number_to_string
           [ literal (finalScores s); inferential (finalScores s);
             evaluative (finalScores s); total (finalScores s) ])
      = map Some
          [ literal (finalScores s); inferential (finalScores s);
            evaluative (finalScores s); total (finalScores s) ] /\
      (has_char "," (firstName (userInfo s)) = false ->
       has_char "," (lastName (userInfo s)) = false ->
       split "," row =
         [ firstName (userInfo s); lastName (userInfo s);
           number_to_string (literal (finalScores s));
           number_to_string (inferential (finalScores s));
           number_to_string (evaluative (finalScores s));
           number_to_string (total (finalScores s)) ]).
Proof.
  split.
  { unfold downloadCSV. destruct (storyData s); [|naive_solver].
    destruct (results s); naive_solver. }
  intros d Hd.
  assert (Hd' : d = {| file_name :=
                         "Rapport_" +:+ lastName (userInfo s) +:+ "_"
                         +:+ firstName (userInfo s) +:+ ".csv";
                       file_content :=
                         BOM +:+ join (String LF "")
                                   [ join "," csv_headers;
                                     join "," (csv_row s) ] |}).
  { unfold downloadCSV in Hd. destruct (storyData s); [|done].
    destruct (results s); [done|]. by injection Hd as <-. }
  subst d. cbn [file_name file_content]. split; [done|].
  exists (join "," csv_headers), (join "," (csv_row s)).
  split; [by rewrite join_two|].
  split; [by vm_compute|]. split; [by vm_compute|].
  assert (Hrow : split "," (join "," (csv_row s)) =
                 split "," (firstName (userInfo s)) ++
                 split "," (lastName (userInfo s)) ++
                 map number_to_string
                   [ literal (finalScores s); inferential (finalScores s);
                     evaluative (finalScores s); total (finalScores s) ]).
  { unfold csv_row. cbn [join map].
    rewrite !split_joined.
    rewrite (split_no_sep "," (number_to_string (literal (finalScores s))))
      by by apply number_no_char.
    rewrite (split_no_sep "," (number_to_string (inferential (finalScores s))))
      by by apply number_no_char.
    rewrite (split_no_sep "," (number_to_string (evaluative (finalScores s))))
      by by apply number_no_char.
    rewrite (split_no_sep "," (number_to_string (total (finalScores s))))
      by by apply number_no_char.
    done. }
  split; [exact Hrow|]. split.
  - cbn [map]. by rewrite !read_number_to_string.
  - intros Hf Hl. rewrite Hrow.
    by rewrite (split_no_sep _ _ Hf), (split_no_sep _ _ Hl).
Qed.

(** *** The scores that can be downloaded *)

Lemma step_keeps_results_scores
    (generateAssessment : string -> outcome StoryData)
    (generateFinalFeedback : Z -> Z -> string -> outcome string)
    (s : State) (ev : Event) :
  results s = [] \/ finalScores s = scores (results s) ->
  results (step generateAssessment generateFinalFeedback s ev) = [] \/
  finalScores (step generateAssessment generateFinalFeedback s ev)
  = scores (results (step generateAssessment generateFinalFeedback s ev)).
Proof.
  intros H. destruct ev as [v|v| |b f| |rs| |c]; cbn; try done.
  - unfold handleLogin. by destruct (_ && _).
  - unfold startAssessment. by destruct (generateAssessment b).
  - right. unfold calculateScores. by destruct (generateFinalFeedback _ _ _).
  - destruct c; [by left|done].
Qed.

(** X19.  Whatever the pupil does, in whatever order, the scores on the state
    are those of the results on the state, unless there are no results.  A
    confirmed quit keeps the last scores but empties the results, and
    without results nothing is downloaded: so a report always carries the
    scores of the results at hand, computed by [calculateScores], and is
    made only while a story is loaded. *)
Theorem report_scores_are_current
    (generateAssessment : string -> outcome StoryData)
    (generateFinalFeedback : Z -> Z -> string -> outcome string)
    (evs : list Event) :
  let s := fold_left (step generateAssessment generateFinalFeedback)
             evs initial in
  (results s = [] \/ finalScores s = scores (results s)) /\
  forall d, downloadCSV s = Some d ->
    results s ≠ [] /\ storyData s ≠ None /\
    finalScores s = scores (results s) /\
    total (finalScores s)
    = literal (finalScores s) + inferential (finalScores s)
      + evaluative (finalScores s).
Proof.
  cbn zeta.
  assert (Hinv : forall s,
            results s = [] \/ finalScores s = scores (results s) ->
            results (fold_left (step generateAssessment generateFinalFeedback)
                       evs s) = [] \/
            finalScores (fold_left (step generateAssessment
                                      generateFinalFeedback) evs s)
            = scores (results (fold_left (step generateAssessment
                                            generateFinalFeedback) evs s))).
  { induction evs as [|ev evs IH]; intros s H; [done|]. cbn [fold_left].
    apply IH. by apply step_keeps_results_scores. }
  specialize (Hinv initial (or_introl eq_refl)).
  split; [exact Hinv|]. intros d Hd.
  set (s := fold_left (step generateAssessment generateFinalFeedback)
              evs initial) in *.
  assert (Hr : results s ≠ []).
  { intros E. unfold downloadCSV in Hd. rewrite E in Hd.
    by destruct (storyData s). }
  assert (Hsd : storyData s ≠ None).
  { intros E. unfold downloadCSV in Hd. by rewrite E in Hd. }
  destruct Hinv as [E|E]; [done|].
  split; [done|]. split; [done|]. split; [done|].
  rewrite E. unfold scores.
  by destruct (fold_left add_points (results s) (0, 0, 0)) as [[l i] e].
Qed.

End AppMore.

(* ===================================================================== *)
(** * A story without questions *)
(* ===================================================================== *)

Section EmptyStory.
Import JS Types QuestionEngine App.

Variable sd : StoryData.
Variable ev : nat -> Question -> string -> StoryData -> outcome EvaluationResult.

(** X20.  Nothing checks that the story has questions.  With none, the quiz is
    complete from the start: a submission evaluates nothing and asks the
    gateway nothing, [finishQuiz] hands over an empty array, the scores
    stored for it are all 0, and since the results are empty no report can
    be downloaded. *)
Theorem empty_story (st : EngineState) (log : list GatewayCall)
    (generateFinalFeedback : Z -> Z -> string -> outcome string)
    (s : State) :
  questions sd = [] ->
  isAllComplete sd st = true /\
  handleGlobalSubmit sd ev st log = (idle st, log) /\
  finishQuiz sd st = [] /\
  let s' := calculateScores generateFinalFeedback (finishQuiz sd st) s in
  finalScores s' =
    {| literal := 0; inferential := 0; evaluative := 0; total := 0 |} /\
  results s' = [] /\
  downloadCSV s' = None.
Proof.
  intros Hq.
  assert (Hf : finishQuiz sd st = []) by (unfold finishQuiz; by rewrite Hq).
  split; [unfold isAllComplete; by rewrite Hq|].
  split; [unfold handleGlobalSubmit, questionsToEvaluate; by rewrite Hq|].
  split; [done|]. rewrite Hf. cbn zeta.
  unfold calculateScores.
  destruct (generateFinalFeedback _ _ _); cbn;
    (split; [done|]); (split; [done|]); unfold downloadCSV; cbn;
    by destruct (storyData s).
Qed.

End EmptyStory.

(* ===================================================================== *)
(** * The audio buffer of the story card *)
(* ===================================================================== *)

Section StoryCardFacts.
Import JS StoryCard.

Lemma int16_range (littleEndian : bool) (first second : Z) :
  0 <= first < 256 -> 0 <= second < 256 ->
  -32768 <= int16 littleEndian first second < 32768.
Proof.
  intros H1 H2. unfold int16.
  destruct littleEndian;
    match goal with |- context [?u <? 32768] =>
      destruct (Z.ltb_spec u 32768) end; lia.
Qed.

Lemma Int16Array_spec (littleEndian : bool) (n : nat) :
  forall bytes,
  (length bytes <= n)%nat ->
  Forall (fun b => 0 <= b < 256) bytes ->
  match Int16Array littleEndian bytes with
  | Resolved l =>
      length bytes = (2 * length l)%nat /\
      Forall (fun x => -32768 <= x < 32768) l
  | Rejected => Nat.Odd (length bytes)
  end.
Proof.
  induction n as [|n IH]; intros [|first [|second rest]] Hlen Hb;
    cbn [Int16Array]; cbn in Hlen; try lia; try done.
  - by exists 0%nat.
  - apply Forall_cons in Hb as [H1 Hb]. apply Forall_cons in Hb as [H2 Hb].
    assert (Hrest : (length rest <= n)%nat) by lia.
    specialize (IH rest Hrest Hb).
    destruct (Int16Array littleEndian rest) as [l|].
    + destruct IH as [Hl Hr]. split; [cbn; lia|].
      constructor; [by apply int16_range|done].
    + destruct IH as [k Hk]. exists (S k). cbn. lia.
Qed.

Lemma to_bytes_range (codes : list Z) :
  Forall (fun b => 0 <= b < 256) (to_bytes codes) /\
  length (to_bytes codes) = length codes.
Proof.
  unfold to_bytes. split; [|by rewrite length_map].
  apply Forall_forall. intros b (c & -> & _)%list_elem_of_fmap.
  by apply Z.mod_pos_bound.
Qed.

(** X21.  The decoded audio.  No buffer is made from an odd number of bytes (the
    16-bit view cannot be built) nor from none (a buffer has at least one
    frame): [handlePlayAudio] then ends in its [catch].  Otherwise the
    channel gets one sample for every two bytes, each at least -1 and
    less than 1, in either byte order. *)
Theorem pcm_samples (littleEndian : bool) (codes : list Z) :
  (channel_data littleEndian codes = Rejected <->
   codes = [] \/ Nat.Odd (length codes)) /\
  forall samples,
    channel_data littleEndian codes = Resolved samples ->
    length codes = (2 * length samples)%nat /\
    samples ≠ [] /\
    Forall (fun x => (-1 <= x)%Q /\ (x < 1)%Q) samples.
Proof.
  destruct (to_bytes_range codes) as [Hb Hlen].
  pose proof (Int16Array_spec littleEndian (length (to_bytes codes))
                (to_bytes codes) (le_n _) Hb) as Hspec.
  unfold channel_data.
  destruct (Int16Array littleEndian (to_bytes codes)) as [l|] eqn:E.
  - destruct Hspec as [Hl Hr]. rewrite Hlen in Hl.
    destruct (createBuffer (length l)) as [frameCount|] eqn:Ec.
    + assert (Hfc : frameCount = length l /\ (0 < length l)%nat).
      { unfold createBuffer in Ec. destruct (length l); [done|].
        injection Ec as <-. lia. }
      destruct Hfc as [-> Hpos]. rewrite firstn_all. split.
      * split; [done|]. intros [->|[k Hk]]; [cbn in Hl|]; lia.
      * intros samples [= <-]. rewrite length_map. split; [done|].
        split; [destruct l; [cbn in Hpos; lia|done]|]. apply Forall_fmap.
        eapply Forall_impl; [exact Hr|]. intros y Hy. cbn in Hy.
        split; [unfold Qle|unfold Qlt]; cbn; lia.
    + assert (Hz : length l = 0%nat).
      { unfold createBuffer in Ec. by destruct (length l). }
      split; [|done]. split; [|done]. intros _. left.
      destruct codes; [done|cbn in Hl; lia].
  - rewrite Hlen in Hspec. split; [|done]. split; [by right|done].
Qed.

End StoryCardFacts.

(* ===================================================================== *)
(** * Rejected batches, and what a status says of the feedback *)
(* ===================================================================== *)

Section EngineFailure.
Import JS Types QuestionEngine.

Variable sd : StoryData.
Variable ev : nat -> Question -> string -> StoryData -> outcome EvaluationResult.

Local Abbreviation status_of st id := (st_status (getQuestionState st id)).
Local Abbreviation answer_of st id := (st_answer (getQuestionState st id)).

(** A call of the log that the gateway rejected. *)
Local Abbreviation rejected_call lo log :=
  (exists n q a,
     (lo <= n)%nat /\
     log !! n = Some {| call_question := q; call_answer := a |} /\
     ev n q a sd = Rejected).

Lemma Promise_all_rejected (st : EngineState) (qs : list Question) :
  forall log,
  (Promise_all (map (evaluate_question sd ev st) qs) log).1 = Rejected ->
  rejected_call (length log)
    (Promise_all (map (evaluate_question sd ev st) qs) log).2.
Proof.
  induction qs as [|q qs IH]; intros log; cbn [map Promise_all]; [done|].
  destruct (Promise_all_spec sd ev st qs
              (evaluate_question sd ev st q log).2) as (calls & E & _).
  specialize (IH (evaluate_question sd ev st q log).2).
  unfold evaluate_question in *.
  destruct (is_blank (answer_of st (q_id q))) eqn:Hb.
  - unfold ret in *. cbn [snd] in *.
    destruct (Promise_all _ log) as [[l|] log2]; cbn [fst snd] in *; [done|].
    intros _. by apply IH.
  - unfold bind, await_evaluateAnswer, ret in *.
    destruct (ev (length log) q (answer_of st (q_id q)) sd) as [r|] eqn:Hev;
      cbn [snd] in *.
    + destruct (Promise_all _ (log ++ _)) as [[l|] log2];
        cbn [fst snd] in *; [done|].
      intros _. destruct (IH eq_refl) as (n & q' & a & Hn & Hl & Hr).
      exists n, q', a. split; [|done]. rewrite length_app in Hn. lia.
    + destruct (Promise_all _ (log ++ _)) as [os log2]; cbn [fst snd] in *.
      intros _. exists (length log), q, (answer_of st (q_id q)).
      split; [done|]. split; [|done]. subst log2.
      rewrite <- app_assoc, lookup_app_r by done.
      by rewrite Nat.sub_diag.
Qed.

Lemma find_question (id : Z) (qs : list Question) :
  id ∈ map q_id qs ->
  exists q, List.find (fun q => q_id q =? id) qs = Some q.
Proof.
  induction qs as [|q qs IH]; cbn; [set_solver|].
  destruct (Z.eqb_spec (q_id q) id) as [E|E]; [eauto|].
  intros Hin. apply IH. set_solver.
Qed.

Lemma update_loop_rejected (st : EngineState) (rs : list BatchEntry) :
  Forall (fun e => e_id e ∈ map q_id (questions sd)) rs ->
  forall u log,
  (update_loop sd ev st u rs log).1 = Rejected ->
  rejected_call (length log) (update_loop sd ev st u rs log).2.
Proof.
  induction rs as [|e rs IH]; intros Hids u log; [done|].
  apply Forall_cons in Hids as [He Hids]. rewrite update_loop_cons.
  unfold final_result.
  destruct (_ && _ && _).
  - destruct (find_question _ _ He) as (q & ->).
    unfold await_evaluateAnswer.
    destruct (ev (length log) q "" sd) as [f|] eqn:Hev.
    + intros H. destruct (IH Hids _ _ H) as (n & q' & a & Hn & Hl & Hr).
      exists n, q', a. split; [|done]. rewrite length_app in Hn. lia.
    + intros _. exists (length log), q, "". split; [done|]. split; [|done].
      cbn [snd]. rewrite lookup_app_r by done. by rewrite Nat.sub_diag.
  - unfold ret. intros H. by apply IH.
Qed.

(** X9.  A batch is rejected only when the gateway rejected one of the calls
    issued for it.  Nothing is then written, not even the results of the
    calls that went well: statuses, feedbacks, attempts and answers are as
    before, the button is enabled again, and a new submission evaluates
    the same questions.  With a gateway that never rejects, every batch is
    resolved. *)
Theorem batch_rejected_by_gateway (st : EngineState)
    (log : list GatewayCall) :
  ((evaluate_batch sd ev st log).1 = Rejected ->
   (exists n q a,
      (length log <= n)%nat /\
      (handleGlobalSubmit sd ev st log).2 !! n
      = Some {| call_question := q; call_answer := a |} /\
      ev n q a sd = Rejected) /\
   (handleGlobalSubmit sd ev st log).1 = idle st /\
   questionsToEvaluate sd (handleGlobalSubmit sd ev st log).1
   = questionsToEvaluate sd st) /\
  ((forall n q a, ev n q a sd ≠ Rejected) ->
   exists u, (evaluate_batch sd ev st log).1 = Resolved u).
Proof.
  assert (Hcause : (evaluate_batch sd ev st log).1 = Rejected ->
                   rejected_call (length log) (evaluate_batch sd ev st log).2).
  { unfold evaluate_batch, bind.
    pose proof (Promise_all_rejected st (questionsToEvaluate sd st) log) as H1.
    destruct (Promise_all_spec sd ev st (questionsToEvaluate sd st) log)
      as (calls & E & _ & R).
    destruct (Promise_all _ log) as [[rs|] log1]; cbn [fst snd] in *;
      [|intros _; by apply H1].
    specialize (R rs eq_refl).
    assert (Hids : Forall (fun e => e_id e ∈ map q_id (questions sd)) rs).
    { apply Forall_forall. intros e [i Hi]%list_elem_of_lookup.
      destruct (Forall2_lookup_r _ _ _ _ _ R Hi) as (q & Hq & (-> & _)).
      apply list_elem_of_fmap. exists q. split; [done|].
      assert (Hin : q ∈ questionsToEvaluate sd st)
        by (apply list_elem_of_lookup; eauto).
      by apply candidate_iff in Hin as [Hin _]. }
    intros H.
    destruct (update_loop_rejected st rs Hids _ _ H)
      as (n & q & a & Hn & Hl & Hr).
    exists n, q, a. split; [|done]. subst log1. rewrite length_app in Hn. lia. }
  split.
  - intros H. specialize (Hcause H).
    assert (Hlog : (handleGlobalSubmit sd ev st log).2
                   = (evaluate_batch sd ev st log).2).
    { unfold handleGlobalSubmit.
      destruct (questionsToEvaluate sd st) eqn:Hq.
      - by rewrite (evaluate_batch_nil sd ev st log Hq) in H.
      - by destruct (evaluate_batch sd ev st log) as [[u|] log']. }
    rewrite Hlog. split; [exact Hcause|].
    rewrite (rejected_batch_idle sd ev st log H). done.
  - intros Hnever.
    destruct ((evaluate_batch sd ev st log).1) as [u|] eqn:E; [eauto|].
    destruct (Hcause eq_refl) as (n & q & a & _ & _ & Hr).
    by destruct (Hnever n q a).
Qed.

(** X10.  The status of a question tells what its feedback is.  In every state
    of the engine a question has a status exactly when it has a feedback;
    the status is never IDLE once set; it is CORRECT exactly when the
    feedback says the answer is correct; and the expected answer is shown
    only under a FAILED_FINAL status, whose feedback says the answer is
    wrong. *)
Theorem status_matches_feedback (st : EngineState) (id : Z) :
  reachable sd ev st ->
  (statuses st !! id = None <-> feedbacks st !! id = None) /\
  statuses st !! id ≠ Some IDLE /\
  (forall f, feedbacks st !! id = Some f ->
     (isCorrect f = true <-> statuses st !! id = Some CORRECT) /\
     (forall c, expected_answer (status_of st id) f = Some c ->
        statuses st !! id = Some FAILED_FINAL /\ isCorrect f = false)).
Proof.
  intros Hreach.
  pose proof (reachable_coherent sd ev st Hreach id) as Hc.
  pose proof (reachable_consistent sd ev st Hreach id) as Hk.
  destruct (statuses st !! id) as [s|] eqn:Hs.
  - destruct Hc as (f & Hf & Hcf). split; [by rewrite Hf|].
    split; [by destruct s|].
    intros f' Hf'. rewrite Hf in Hf'. injection Hf' as <-. split.
    + rewrite Hcf. rewrite bool_decide_eq_true. split; congruence.
    + intros c. unfold expected_answer. cbn. rewrite Hs. cbn.
      destruct (bool_decide (s = FAILED_FINAL)) eqn:E; [|done].
      apply bool_decide_eq_true in E as ->. intros _. split; [done|].
      by rewrite Hcf.
  - split; [done|]. split; [done|]. intros f Hf. by rewrite Hc in Hf.
Qed.

End EngineFailure.

(* ===================================================================== *)
(** * The session again: the properties above at concrete inputs *)
(* ===================================================================== *)

Section SessionMore.
Import JS Types GeminiService QuestionEngine StoryCard Session.

Lemma complete_iff_nothing_to_evaluate_witness :
  isAllComplete story after_second_submit.1 = true /\
  questionsToEvaluate story after_second_submit.1 = [] /\
  handleGlobalSubmit story scripted_gateway
    after_second_submit.1 after_second_submit.2
  = (idle after_second_submit.1, after_second_submit.2).
Proof.
  assert (H : isAllComplete story after_second_submit.1 = true)
    by (vm_compute; reflexivity).
  destruct (complete_iff_nothing_to_evaluate story scripted_gateway
              after_second_submit.1 after_second_submit.2) as [Hiff Hsub].
  split; [exact H|]. split; [exact (proj1 Hiff H)|exact (Hsub H)].
Defined.

Lemma two_submissions_complete_witness :
  let first := handleGlobalSubmit story scripted_gateway initial [] in
  let st1 := typed [(1, "oui")] first.1 in
  reachable story scripted_gateway initial /\
  isAllComplete story
    (handleGlobalSubmit story scripted_gateway st1 first.2).1 = true.
Proof.
  cbn zeta.
  assert (Hreach : reachable story scripted_gateway initial) by constructor.
  split; [exact Hreach|].
  destruct ((evaluate_batch story scripted_gateway initial []).1)
    as [u1|] eqn:E1; [|vm_compute in E1; discriminate E1].
  destruct ((evaluate_batch story scripted_gateway
               (typed [(1, "oui")]
                  (handleGlobalSubmit story scripted_gateway initial []).1)
               (handleGlobalSubmit story scripted_gateway initial []).2).1)
    as [u2|] eqn:E2; [|vm_compute in E2; discriminate E2].
  exact (two_submissions_complete story scripted_gateway initial []
           (handleGlobalSubmit story scripted_gateway initial []).2
           [(1, "oui")] u1 u2 Hreach E1 E2).
Defined.

Lemma pending_after_submission_witness :
  let st' := (handleGlobalSubmit story scripted_gateway initial []).1 in
  reachable story scripted_gateway initial /\
  isAllComplete story st' = false /\
  pendingRetryCount story st' = length (questionsToEvaluate story st') /\
  submit_label story st' = "Valider mes corrections".
Proof.
  cbn zeta.
  assert (Hreach : reachable story scripted_gateway initial) by constructor.
  assert (Hopen : isAllComplete story
                    (handleGlobalSubmit story scripted_gateway initial []).1
                  = false) by (vm_compute; reflexivity).
  split; [exact Hreach|]. split; [exact Hopen|].
  destruct ((evaluate_batch story scripted_gateway initial []).1)
    as [u|] eqn:E; [|vm_compute in E; discriminate E].
  destruct (pending_after_submission story scripted_gateway initial [] u
              Hreach E) as [Hcount Hlabel].
  split; [exact Hcount|exact (Hlabel Hopen)].
Defined.

Lemma results_carry_feedback_witness :
  reachable story scripted_gateway after_second_submit.1 /\
  isAllComplete story after_second_submit.1 = true /\
  exists r f,
    finishQuiz story after_second_submit.1 !! 1%nat = Some r /\
    feedbacks after_second_submit.1 !! q_id (r_question r) = Some f /\
    r_isCorrect r = isCorrect f /\
    r_feedback r = Some (feedback f) /\
    r_correctAnswer r = correctAnswer f.
Proof.
  assert (Hreach : reachable story scripted_gateway after_second_submit.1).
  { change (reachable story scripted_gateway
              (run story scripted_gateway
                 [Typing 1 "oui"; Typing 2 "non"; Submit; Submit]
                 (initial, [])).1).
    apply run_reachable. constructor. }
  assert (Hall : isAllComplete story after_second_submit.1 = true)
    by (vm_compute; reflexivity).
  split; [exact Hreach|]. split; [exact Hall|].
  destruct (finishQuiz story after_second_submit.1 !! 1%nat) as [r|] eqn:Hr;
    [|vm_compute in Hr; discriminate Hr].
  destruct (results_carry_feedback story scripted_gateway
              after_second_submit.1 1 r Hreach Hall Hr) as (f & Hf).
  exists r, f. split; [reflexivity|exact Hf].
Defined.

Lemma incomplete_only_on_retry_witness :
  reachable story scripted_gateway after_first_submit.1 /\
  feedbacks after_first_submit.1 !! 3 = Some (no_answer false) /\
  statuses after_first_submit.1 !! 3 = Some INCORRECT_RETRY.
Proof.
  assert (Hreach : reachable story scripted_gateway after_first_submit.1).
  { apply run_reachable. constructor. }
  assert (Hf : feedbacks after_first_submit.1 !! 3 = Some (no_answer false))
    by (vm_compute; reflexivity).
  assert (Hgw : forall f', from_gateway story scripted_gateway f' ->
                           isIncomplete f' ≠ Some true).
  { intros f' H.
    destruct (gateway_well_formed story JSON.parse scripted_model f' H)
      as [Hi _].
    rewrite Hi. discriminate. }
  split; [exact Hreach|]. split; [exact Hf|].
  destruct (incomplete_only_on_retry story scripted_gateway
              after_first_submit.1 3 (no_answer false) Hgw Hreach Hf)
    as [H _].
  exact (proj2 (H eq_refl)).
Defined.

Lemma cleanBase64_payload_witness :
  includes "data:image/png;base64" "," = false /\
  includes "iVBORw0KGgo=" "," = false /\
  cleanBase64 "data:image/png;base64,iVBORw0KGgo=" = "iVBORw0KGgo=" /\
  cleanBase64 "iVBORw0KGgo=" = "iVBORw0KGgo=".
Proof.
  assert (Hh : includes "data:image/png;base64" "," = false)
    by (vm_compute; reflexivity).
  assert (Hp : includes "iVBORw0KGgo=" "," = false)
    by (vm_compute; reflexivity).
  split; [exact Hh|]. split; [exact Hp|].
  destruct (cleanBase64_payload "data:image/png;base64,iVBORw0KGgo=")
    as (_ & _ & _ & Hpayload).
  destruct (cleanBase64_payload "iVBORw0KGgo=") as (_ & _ & Hid & _).
  split.
  - exact (Hpayload "data:image/png;base64" "iVBORw0KGgo=" "" Hh Hp
             (or_introl eq_refl)).
  - exact (Hid Hp).
Defined.

Lemma generateAssessment_rejections_witness :
  generateAssessment JSON.parse (fun _ => text_response "[1, 2]")
    "data:image/png;base64,AAAA" = Resolved (JArr [JNum 1; JNum 2]
                                               [("content", JStr extraction_failed)]) /\
  generateAssessment JSON.parse (fun _ => text_response "12")
    "data:image/png;base64,AAAA" = Rejected /\
  generateAssessment JSON.parse
    (fun _ => text_response (JSON.quoted "{'content': 12}"))
    "data:image/png;base64,AAAA" = Rejected.
Proof.
  split; [vm_compute; reflexivity|]. split.
  - apply (generateAssessment_rejections JSON.parse
             (fun _ => text_response "12")).
    vm_compute. left. reflexivity.
  - apply (generateAssessment_rejections JSON.parse
             (fun _ => text_response (JSON.quoted "{'content': 12}"))).
    vm_compute. right. reflexivity.
Defined.

Lemma score_within_range_witness :
  exists r n,
    evaluateAnswer JSON.parse
      (fun _ => text_response
                  (JSON.quoted "{'isCorrect': true, 'score': 1.5}"))
      (question 1 LITERAL) "oui" story = Resolved r /\
    score r = Some n /\ (0 <= n)%Q /\ (n <= 2)%Q /\ n = (3 # 2)%Q.
Proof.
  destruct (evaluateAnswer JSON.parse
              (fun _ => text_response
                          (JSON.quoted "{'isCorrect': true, 'score': 1.5}"))
              (question 1 LITERAL) "oui" story) as [r|] eqn:E;
    [|vm_compute in E; discriminate E].
  destruct (score_within_range JSON.parse _ _ _ _ r E)
    as (n & Hn & H0 & H2 & _).
  exists r, n. split; [reflexivity|]. split; [exact Hn|].
  split; [exact H0|]. split; [exact H2|].
  vm_compute in E. injection E as <-. vm_compute in Hn.
  injection Hn as <-. reflexivity.
Defined.

Lemma textless_response_witness :
  textless None = true /\
  JSON.parse "{}" = Some (JObj []) /\
  generateAssessment JSON.parse (fun _ => Resolved None) "AAAA"
  = Resolved (JObj [("content", JStr extraction_failed)]) /\
  generateFinalFeedback (fun _ => Resolved None)
    {| literal := 1; inferential := 0; evaluative := 0; total := 1 |}
  = Resolved "{}".
Proof.
  assert (Ht : textless None = true) by reflexivity.
  assert (Hp : JSON.parse "{}" = Some (JObj []))
    by (vm_compute; reflexivity).
  split; [exact Ht|]. split; [exact Hp|].
  destruct (textless_response JSON.parse (fun _ => Resolved None) None
              "AAAA" (question 1 LITERAL) "oui" story
              {| literal := 1; inferential := 0; evaluative := 0;
                 total := 1 |}
              Ht Hp (fun _ => eq_refl)) as (Ha & _ & Hf).
  split; [exact Ha|exact Hf].
Defined.

Lemma second_copy_outcomes_witness :
  OtherCopies.evaluateAnswer_2 JSON.parse (fun _ => Rejected)
    (question 1 LITERAL) "oui" story
  = Resolved OtherCopies.small_error_2.
Proof.
  destruct (second_copy_outcomes JSON.parse (fun _ => Rejected)
              (question 1 LITERAL) "oui" story) as (_ & H & _).
  exact (H (or_introl eq_refl)).
Defined.

Lemma story_is_spoken_witness :
  generateAssessment JSON.parse (scripted_model 0)
    "data:image/png;base64,AAAA" = Resolved scripted_story /\
  exists c,
    get "content" scripted_story = Some (JStr c) /\
    generateSpeech c (Some []) =
    ("", Some [ {| u_text := c; u_lang := "fr-FR";
                   u_rate := 1; u_pitch := 1 |} ]).
Proof.
  assert (H : generateAssessment JSON.parse (scripted_model 0)
                "data:image/png;base64,AAAA" = Resolved scripted_story)
    by (vm_compute; reflexivity).
  split; [exact H|].
  destruct (story_is_spoken JSON.parse (scripted_model 0) _ _ H)
    as [(c & Hc & Hs) _].
  exists c. split; [exact Hc|exact (Hs [])].
Defined.


Lemma no_refusal_shown_witness :
  reachable story scripted_gateway
    (run story scripted_gateway [Typing 1 "?"; Submit; Submit] (initial, [])).1
  /\
  exists f c,
    feedbacks
      (run story scripted_gateway [Typing 1 "?"; Submit; Submit]
         (initial, [])).1 !! 1 = Some f /\
    correctAnswer f = Some c /\ is_refusal c = false /\
    expected_answer FAILED_FINAL f = None.
Proof.
  set (st := (run story scripted_gateway [Typing 1 "?"; Submit; Submit]
                (initial, [])).1).
  assert (Hreach : reachable story scripted_gateway st).
  { apply run_reachable. constructor. }
  split; [exact Hreach|].
  destruct (feedbacks st !! 1) as [f|] eqn:Hf;
    [|vm_compute in Hf; discriminate Hf].
  destruct (correctAnswer f) as [c|] eqn:Hc;
    [|vm_compute in Hf; injection Hf as <-; discriminate Hc].
  destruct (no_refusal_shown story JSON.parse scripted_model st Hreach)
    as [H _].
  destruct (H 1 f Hf) as (Hca & _ & _).
  exists f, c. split; [reflexivity|]. split; [exact Hc|].
  split; [exact (proj2 (Hca c Hc))|].
  vm_compute in Hf. injection Hf as <-. reflexivity.
Defined.

Lemma scores_of_any_results_witness :
  total
    (App.finalScores
       (App.calculateScores (fun _ _ _ => Rejected)
          (finishQuiz story after_second_submit.1) App.initial))
  = Z.of_nat
      (length
         (List.filter r_isCorrect (finishQuiz story after_second_submit.1))).
Proof.
  destruct (scores_of_any_results (fun _ _ _ => Rejected)
              (finishQuiz story after_second_submit.1) App.initial)
    as (_ & _ & _ & _ & _ & _ & _ & _ & _ & H).
  apply H. vm_compute.
  repeat (constructor; [intros _; reflexivity|]). constructor.
Defined.

Lemma report_columns_witness :
  exists d header row,
    App.downloadCSV finished_session = Some d /\
    App.file_name d = "Rapport_Benali_Amine.csv" /\
    App.file_content d = App.BOM +:+ header +:+ String App.LF row /\
    split "," row = ["Amine"; "Benali"; "1"; "0"; "0"; "1"].
Proof.
  destruct (App.downloadCSV finished_session) as [d|] eqn:Hd;
    [|vm_compute in Hd; discriminate Hd].
  destruct (report_columns finished_session) as [_ H].
  destruct (H d Hd) as (Hname & header & row & Hc & _ & _ & _ & _ & Hrow).
  exists d, header, row. split; [reflexivity|].
  split; [exact Hname|]. split; [exact Hc|].
  exact (Hrow eq_refl eq_refl).
Defined.

Lemma empty_story_witness :
  let sd := {| title := "Sans questions"; content := "Un texte.";
               imageUrl := None; glossary := []; questions := [] |} in
  questions sd = [] /\
  isAllComplete sd initial = true /\
  App.downloadCSV
    (App.calculateScores (fun _ _ _ => Resolved "Bravo !")
       (finishQuiz sd initial) finished_session) = None.
Proof.
  cbn zeta. split; [reflexivity|].
  destruct (empty_story
              {| title := "Sans questions"; content := "Un texte.";
                 imageUrl := None; glossary := []; questions := [] |}
              scripted_gateway initial []
              (fun _ _ _ => Resolved "Bravo !") finished_session eq_refl)
    as (Hall & _ & _ & _ & _ & Hcsv).
  split; [exact Hall|exact Hcsv].
Defined.

Lemma pcm_samples_witness :
  exists samples,
    channel_data true [0; 128; 255; 127] = Resolved samples /\
    length samples = 2%nat /\
    Forall (fun x => (-1 <= x)%Q /\ (x < 1)%Q) samples.
Proof.
  destruct (channel_data true [0; 128; 255; 127]) as [samples|] eqn:E;
    [|vm_compute in E; discriminate E].
  destruct (pcm_samples true [0; 128; 255; 127]) as [_ H].
  destruct (H samples E) as (Hlen & _ & Hrange).
  exists samples. split; [reflexivity|]. split; [cbn in Hlen; lia|exact Hrange].
Defined.

Lemma batch_rejected_by_gateway_witness :
  let st := handleAnswerChange 2 "#" (handleAnswerChange 1 "oui" initial) in
  (evaluate_batch story scripted_gateway st []).1 = Rejected /\
  (handleGlobalSubmit story scripted_gateway st []).1 = idle st /\
  exists n q a,
    (handleGlobalSubmit story scripted_gateway st []).2 !! n
    = Some {| call_question := q; call_answer := a |} /\
    scripted_gateway n q a story = Rejected.
Proof.
  cbn zeta.
  assert (H : (evaluate_batch story scripted_gateway
                 (handleAnswerChange 2 "#" (handleAnswerChange 1 "oui" initial))
                 []).1 = Rejected) by (vm_compute; reflexivity).
  split; [exact H|].
  destruct (batch_rejected_by_gateway story scripted_gateway
              (handleAnswerChange 2 "#" (handleAnswerChange 1 "oui" initial))
              []) as [Hrej _].
  destruct (Hrej H) as ((n & q & a & _ & Hl & Hr) & Hidle & _).
  split; [exact Hidle|]. exists n, q, a. split; [exact Hl|exact Hr].
Defined.

Lemma status_matches_feedback_witness :
  reachable story scripted_gateway after_first_submit.1 /\
  statuses after_first_submit.1 !! 1 = Some CORRECT /\
  exists f, feedbacks after_first_submit.1 !! 1 = Some f /\
            isCorrect f = true.
Proof.
  assert (Hreach : reachable story scripted_gateway after_first_submit.1).
  { apply run_reachable. constructor. }
  assert (Hs : statuses after_first_submit.1 !! 1 = Some CORRECT)
    by (vm_compute; reflexivity).
  split; [exact Hreach|]. split; [exact Hs|].
  destruct (feedbacks after_first_submit.1 !! 1) as [f|] eqn:Hf;
    [|vm_compute in Hf; discriminate Hf].
  destruct (status_matches_feedback story scripted_gateway
              after_first_submit.1 1 Hreach) as (_ & _ & H).
  rewrite Hf in H. destruct (H f eq_refl) as [Hiff _].
  exists f. split; [reflexivity|exact (proj2 Hiff Hs)].
Defined.

Lemma report_scores_are_current_witness :
  let s :=
    fold_left
      (App.step
         (fun _ => Resolved story) (fun _ _ _ => Resolved "Bravo !"))
      [ App.ChangeFirstName "Amine"; App.ChangeLastName "Benali"; App.Login;
        App.Upload "AAAA" "data:image/png;base64,AAAA"; App.ReadingComplete;
        App.Complete (finishQuiz story after_second_submit.1) ]
      App.initial in
  exists d,
    App.downloadCSV s = Some d /\
    App.finalScores s = App.scores (App.results s) /\
    total (App.finalScores s) = 1.
Proof.
  cbn zeta.
  set (s := fold_left
              (App.step
                 (fun _ => Resolved story) (fun _ _ _ => Resolved "Bravo !"))
              [ App.ChangeFirstName "Amine"; App.ChangeLastName "Benali";
                App.Login; App.Upload "AAAA" "data:image/png;base64,AAAA";
                App.ReadingComplete;
                App.Complete (finishQuiz story after_second_submit.1) ]
              App.initial).
  destruct (App.downloadCSV s) as [d|] eqn:Hd;
    [|vm_compute in Hd; discriminate Hd].
  destruct (report_scores_are_current
              (fun _ => Resolved story) (fun _ _ _ => Resolved "Bravo !")
              [ App.ChangeFirstName "Amine"; App.ChangeLastName "Benali";
                App.Login; App.Upload "AAAA" "data:image/png;base64,AAAA";
                App.ReadingComplete;
                App.Complete (finishQuiz story after_second_submit.1) ])
    as [_ H].
  destruct (H d Hd) as (_ & _ & Hsc & _).
  exists d. split; [reflexivity|]. split; [exact Hsc|].
  vm_compute. reflexivity.
Defined.

Lemma gateway_calls_counted_witness :
  let st := after_first_submit.1 in
  let log := after_first_submit.2 in
  NoDup (map q_id (questions story)) /\
  exists calls,
    (handleGlobalSubmit story scripted_gateway st log).2 = log ++ calls /\
    length calls = 9%nat /\
    NoDup (map (fun c => q_id (call_question c)) calls).
Proof.
  cbn zeta.
  assert (Hnd : NoDup (map q_id (questions story))).
  { apply (bool_decide_unpack _). vm_compute. exact I. }
  split; [exact Hnd|].
  destruct (gateway_calls_counted story scripted_gateway
              after_first_submit.1 after_first_submit.2)
    as (calls & Hlog & _ & _ & Hcount & Hids).
  exists calls. split; [exact Hlog|]. split; [|exact (Hids Hnd)].
  revert Hcount.
  destruct ((evaluate_batch story scripted_gateway after_first_submit.1
               after_first_submit.2).1) as [u|] eqn:E;
    [|vm_compute in E; discriminate E].
  intros ->. vm_compute. reflexivity.
Defined.

End SessionMore.
